(** * Playback engines and the MCAP record reader of studio-base

    A shallow embedding of
    - [RandomAccessPlayer] (players/RandomAccessPlayer.ts): the seekable
      engine with its tick loop, seek/backfill and state emission;
    - [RosbridgePlayer] (players/RosbridgePlayer.ts): the live engine, as far
      as the shared [Player] contract goes;
    - [McapReader] (the streaming reader built on a generator).

    JavaScript objects become records, [Map]s become insertion-ordered
    association lists, thrown [Error]s become the [Throw] outcome of a small
    state-and-exception monad, and every [await] of an async method becomes
    an explicit suspension point: the method is split into the part that runs
    up to the [await] and the part that runs when the awaited promise
    settles, with the captured local variables kept in a frame. *)

From Stdlib Require Import ZArith Lia List Bool String.
From Stdlib Require Import Init.Byte.
From Stdlib Require QArith.
From stdpp Require Import base option list strings gmap.
Import ListNotations.

Local Open Scope Z_scope.

(** ** Outcomes, and a state monad with exceptions *)

Inductive outcome (A : Type) : Type :=
| Normal (a : A)
| Throw (message : string).
Arguments Normal {A} a.
Arguments Throw {A} message.

(** A method body: it reads and writes the object [S] and either returns or
    throws; the object keeps the writes made before a throw. *)
Definition Js (S A : Type) : Type := S -> outcome A * S.

Definition ret {S A} (a : A) : Js S A := fun s => (Normal a, s).
Definition throw {S A} (message : string) : Js S A := fun s => (Throw message, s).
Definition bind {S A B} (m : Js S A) (k : A -> Js S B) : Js S B :=
  fun s => match m s with
           | (Normal a, s') => k a s'
           | (Throw e, s') => (Throw e, s')
           end.
Definition get {S} : Js S S := fun s => (Normal s, s).
Definition gets {S A} (f : S -> A) : Js S A := fun s => (Normal (f s), s).
Definition modify {S} (f : S -> S) : Js S unit := fun s => (Normal tt, f s).
(** A pure call that may throw. *)
Definition lift {S A} (o : outcome A) : Js S A := fun s => (o, s).
Definition when {S} (b : bool) (m : Js S unit) : Js S unit :=
  if b then m else ret tt.

(** [try { m } catch (err) { handler err.message }] *)
Definition try_catch {S A} (m : Js S A) (handler : string -> Js S A) : Js S A :=
  fun s => match m s with
           | (Normal a, s') => (Normal a, s')
           | (Throw e, s') => handler e s'
           end.

#[global] Instance Js_ret {S} : MRet (Js S) := fun A => @ret S A.
#[global] Instance Js_bind {S} : MBind (Js S) := fun A B k m => @bind S A B m k.

(** An object the engines only pass along (a message payload, a datatype
    table, a progress report, a roslib object): identified by reference. *)
Definition handle : Type := Z.

(** ** Time, as @foxglove/rostime has it

    [Time] is [{sec, nsec}]. The engines import [add], [subtract], [compare],
    [clampTime] and [areEqual] from the external package @foxglove/rostime;
    the definitions below follow that package. JavaScript numbers are
    modelled by [Z], exact below 2^53. *)
Module Rostime.

Record Time : Type := mkTime { sec : Z; nsec : Z }.

#[global] Instance Time_eq_dec : EqDecision Time.
Proof. solve_decision. Defined.

Definition zero : Time := mkTime 0 0.

(** [Math.floor(nsec / 1e9)] is [Z.div], JavaScript's [%] is [Z.rem]. *)
Definition fixTime (t : Time) (allowNegative : bool) : outcome Time :=
  let durationNanos := nsec t in
  let secsFromNanos := durationNanos / 1000000000 in
  let newSecs := sec t + secsFromNanos in
  let remainingDurationNanos := Z.rem durationNanos 1000000000 in
  let newNanos :=
    Z.abs (if Z.sgn remainingDurationNanos =? -1
           then 1000000000 + remainingDurationNanos
           else remainingDurationNanos) in
  let result := mkTime newSecs newNanos in
  if (negb allowNegative && (sec result <? 0)) || (nsec result <? 0)
  then Throw "Cannot normalize invalid time"
  else Normal result.

Definition add (t1 t2 : Time) : outcome Time :=
  fixTime (mkTime (sec t1 + sec t2) (nsec t1 + nsec t2)) false.

Definition subtract (t1 t2 : Time) : outcome Time :=
  fixTime (mkTime (sec t1 - sec t2) (nsec t1 - nsec t2)) true.

Definition compare (left right : Time) : Z :=
  let secDiff := sec left - sec right in
  if negb (secDiff =? 0) then secDiff else nsec left - nsec right.

Definition clampTime (time start end_ : Time) : Time :=
  if compare start time >? 0 then mkTime (sec start) (nsec start)
  else if compare end_ time <? 0 then mkTime (sec end_) (nsec end_)
  else mkTime (sec time) (nsec time).

Definition areEqual (t1 t2 : Time) : bool :=
  (sec t1 =? sec t2) && (nsec t1 =? nsec t2).

(** [t1] is not after [t2]. *)
Definition le (t1 t2 : Time) : Prop := compare t1 t2 <= 0.

(** A normalised, non-negative time: what [fixTime] returns. *)
Definition valid (t : Time) : Prop :=
  0 <= sec t /\ 0 <= nsec t < 1000000000.

End Rostime.
Export Rostime.


(** ** JavaScript [Map] with string keys

    [Array.from(map.values())] lists the values in insertion order, and
    [set] on a key already present keeps its place: an association list. *)
Module JsMap.

Definition t (V : Type) : Type := list (string * V).

Definition has {V} (k : string) (m : t V) : bool :=
  existsb (fun kv => String.eqb (fst kv) k) m.

Definition get {V} (k : string) (m : t V) : option V :=
  snd <$> List.find (fun kv => String.eqb (fst kv) k) m.

Definition set {V} (k : string) (v : V) (m : t V) : t V :=
  if has k m
  then List.map (fun kv => if String.eqb (fst kv) k then (k, v) else kv) m
  else m ++ [(k, v)].

Definition delete {V} (k : string) (m : t V) : t V :=
  List.filter (fun kv => negb (String.eqb (fst kv) k)) m.

Definition values {V} (m : t V) : list V := List.map snd m.

Definition size {V} (m : t V) : nat := length m.

End JsMap.

(** ** The player contract's data (players/types, as the engines use it) *)

Inductive PlayerPresence : Type :=
| NOT_PRESENT | INITIALIZING | RECONNECTING | PRESENT | ERROR.

Inductive PlayerCapabilities : Type :=
| advertise | setSpeed | playbackControl.

Inductive Severity : Type := severity_error | severity_warn | severity_info.

Record PlayerProblem : Type := mkProblem {
  severity : Severity;
  problem_message : string;
  tip : option string;
  error : option string
}.

Record Topic : Type := mkTopic { name : string; datatype : string }.

Record Connection : Type := mkConnection { conn_topic : string; callerid : string }.

(** A message event is a JavaScript object: [sizeInBytes] is [None] when
    the object has no such property. *)
Record MessageEvent : Type := mkMessageEvent {
  topic : string;
  receiveTime : Time;
  message : handle;
  sizeInBytes : option Z
}.

(** [Progress]: the engine only asks whether the loaded ranges cover a
    read window ([hasCachedRange], computed in floating point from
    [fullyLoadedFractionRanges]); [covers start end a b] stands for that
    test on the window [a, b] of an engine bounded by [start, end]. *)
Record Progress : Type := mkProgress {
  progress_id : handle;
  covers : Time -> Time -> Time -> Time -> bool
}.

Definition emptyProgress : Progress := mkProgress 0 (fun _ _ _ _ => false).

Record ActiveData : Type := mkActiveData {
  messages : list MessageEvent;
  totalBytesReceived : Z;
  messageOrder : string;
  currentTime : Time;
  startTime : Time;
  endTime : Time;
  isPlaying : bool;
  speed : QArith_base.Q;
  lastSeekTime : Z;
  topics : list Topic;
  datatypes : handle;
  publishedTopics : gmap string (gset string);
  subscribedTopics : option (gmap string (gset string));
  services : option (gmap string (gset string));
  parsedMessageDefinitionsByTopic : option handle
}.

Record PlayerState : Type := mkPlayerState {
  state_name : option string;
  filePath : option string;
  presence : PlayerPresence;
  progress : Progress;
  capabilities : list PlayerCapabilities;
  playerId : string;
  problems : option (list PlayerProblem);
  activeData : option ActiveData;
  urlState : option string
}.

(** Calls on the metrics collector handed to an engine. *)
Inductive MetricsCall : Type :=
| playerConstructed
| metrics_initialized
| metrics_play (speed : QArith_base.Q)
| metrics_pause
| metrics_setSpeed (speed : QArith_base.Q)
| metrics_seek (time : Time)
| metrics_setSubscriptions (topics : list string)
| metrics_close
| recordPlaybackTime (time : Time) (uncached : bool)
| recordUncachedRangeRequest
| recordTimeToFirstMsgs
| recordDataProviderPerformance
| recordDataProviderInitializePerformance
| recordDataProviderStall.

(** ** RandomAccessPlayer *)
Module RandomAccessPlayer.

Definition SEEK_BACK_NANOSECONDS : Z := 299 * 1000000.

Inductive Effect : Type :=
| provider_initialize
| provider_close
| provider_getMessages (start end_ : Time) (parsedMessages : list string)
| metrics (call : MetricsCall)
| listener_call (state : PlayerState)
| unhandled_rejection (message : string).

(** What the provider's [getMessages] promise settles to. *)
Inductive GetMessagesResult : Type :=
| resolved (parsedMessages : option (list MessageEvent))
| rejected (message : string).

(** The locals of [_tick] that live across its awaits. *)
Record TickFrame : Type := mkTickFrame {
  tick_seekTime : Z;
  tick_start : Time;
  tick_end : Time
}.

(** The locals of [_getMessages] across [await provider.getMessages];
    [None] when it returned [[]] without asking the provider. *)
Definition GetMessagesFrame : Type := option (list string).

Inductive ReadTask : Type :=
| ReadIdle
| ReadLoop
| TickAwaitingRead (f : TickFrame) (g : GetMessagesFrame)
| TickAwaitingEmit (f : TickFrame) (messages : list MessageEvent).

(** The locals of [_seekPlaybackInternal] across its await. *)
Record BackfillFrame : Type := mkBackfillFrame {
  backfillDuration : option Time;
  readStartTime : Time;
  readStartTime_ref : Z;
  backfillEnd : Time
}.

Inductive SeekTask : Type :=
| SeekIdle
| BackfillAwaitingRead (f : BackfillFrame) (g : GetMessagesFrame).

Record Player : Type := mkPlayer {
  _label : option string;
  _filePath : option string;
  _id : string;
  _isPlaying : bool;
  _listener : bool;  (* a listener is registered *)
  _speed : QArith_base.Q;
  _start : Time;
  _end : Time;
  _nextReadStartTime : Time;
  nextReadStartTime_ref : Z;  (* identity of the object held by _nextReadStartTime *)
  _lastSeekStartTime : Z;
  _lastSeekEmitTime : Z;
  _cancelSeekBackfill : bool;
  _parsedSubscribedTopics : list string;  (* a Set: no duplicates, insertion order *)
  _providerTopics : list Topic;
  _providerConnections : list Connection;
  _providerDatatypes : handle;
  _initializing : bool;
  _initialized : bool;
  _reconnecting : bool;
  _progress : Progress;
  _messages : list MessageEvent;
  _receivedBytes : Z;
  _messageOrder : string;
  _hasError : bool;
  _closed : bool;
  _seekToTime : Time -> Time -> Time;  (* getSeekTimeFromSpec applied to the option seekToTime *)
  _parsedMessageDefinitionsByTopic : handle;
  _currentTime : option Time;
  _problems : JsMap.t PlayerProblem;
  readTask : ReadTask;  (* where _read/_tick is suspended; _readingMutex is locked unless idle *)
  seekTask : SeekTask;  (* where _seekPlaybackInternal is suspended; _backfillMutex *)
  emit_currentPromise : bool;  (* _emitState.currentPromise is set *)
  emit_callPending : bool;  (* _emitState was called while a delivery was in flight *)
  effects : list Effect  (* calls made on the provider, the metrics collector and the listener, oldest first *)
}.

Definition set_isPlaying (v : bool) (s : Player) : Player :=
    mkPlayer (_label s) (_filePath s) (_id s) v (_listener s) (_speed s)
     (_start s) (_end s) (_nextReadStartTime s) (nextReadStartTime_ref s)
     (_lastSeekStartTime s) (_lastSeekEmitTime s) (_cancelSeekBackfill s)
     (_parsedSubscribedTopics s) (_providerTopics s)
     (_providerConnections s) (_providerDatatypes s) (_initializing s)
     (_initialized s) (_reconnecting s) (_progress s) (_messages s)
     (_receivedBytes s) (_messageOrder s) (_hasError s) (_closed s)
     (_seekToTime s) (_parsedMessageDefinitionsByTopic s) (_currentTime s)
     (_problems s) (readTask s) (seekTask s) (emit_currentPromise s)
     (emit_callPending s) (effects s).
Definition set_listener (v : bool) (s : Player) : Player :=
    mkPlayer (_label s) (_filePath s) (_id s) (_isPlaying s) v (_speed s)
     (_start s) (_end s) (_nextReadStartTime s) (nextReadStartTime_ref s)
     (_lastSeekStartTime s) (_lastSeekEmitTime s) (_cancelSeekBackfill s)
     (_parsedSubscribedTopics s) (_providerTopics s)
     (_providerConnections s) (_providerDatatypes s) (_initializing s)
     (_initialized s) (_reconnecting s) (_progress s) (_messages s)
     (_receivedBytes s) (_messageOrder s) (_hasError s) (_closed s)
     (_seekToTime s) (_parsedMessageDefinitionsByTopic s) (_currentTime s)
     (_problems s) (readTask s) (seekTask s) (emit_currentPromise s)
     (emit_callPending s) (effects s).
Definition set_speed (v : QArith_base.Q) (s : Player) : Player :=
    mkPlayer (_label s) (_filePath s) (_id s) (_isPlaying s) (_listener s) v
     (_start s) (_end s) (_nextReadStartTime s) (nextReadStartTime_ref s)
     (_lastSeekStartTime s) (_lastSeekEmitTime s) (_cancelSeekBackfill s)
     (_parsedSubscribedTopics s) (_providerTopics s)
     (_providerConnections s) (_providerDatatypes s) (_initializing s)
     (_initialized s) (_reconnecting s) (_progress s) (_messages s)
     (_receivedBytes s) (_messageOrder s) (_hasError s) (_closed s)
     (_seekToTime s) (_parsedMessageDefinitionsByTopic s) (_currentTime s)
     (_problems s) (readTask s) (seekTask s) (emit_currentPromise s)
     (emit_callPending s) (effects s).
Definition set_start (v : Time) (s : Player) : Player :=
    mkPlayer (_label s) (_filePath s) (_id s) (_isPlaying s) (_listener s)
     (_speed s) v (_end s) (_nextReadStartTime s) (nextReadStartTime_ref s)
     (_lastSeekStartTime s) (_lastSeekEmitTime s) (_cancelSeekBackfill s)
     (_parsedSubscribedTopics s) (_providerTopics s)
     (_providerConnections s) (_providerDatatypes s) (_initializing s)
     (_initialized s) (_reconnecting s) (_progress s) (_messages s)
     (_receivedBytes s) (_messageOrder s) (_hasError s) (_closed s)
     (_seekToTime s) (_parsedMessageDefinitionsByTopic s) (_currentTime s)
     (_problems s) (readTask s) (seekTask s) (emit_currentPromise s)
     (emit_callPending s) (effects s).
Definition set_end (v : Time) (s : Player) : Player :=
    mkPlayer (_label s) (_filePath s) (_id s) (_isPlaying s) (_listener s)
     (_speed s) (_start s) v (_nextReadStartTime s)
     (nextReadStartTime_ref s) (_lastSeekStartTime s) (_lastSeekEmitTime s)
     (_cancelSeekBackfill s) (_parsedSubscribedTopics s) (_providerTopics s)
     (_providerConnections s) (_providerDatatypes s) (_initializing s)
     (_initialized s) (_reconnecting s) (_progress s) (_messages s)
     (_receivedBytes s) (_messageOrder s) (_hasError s) (_closed s)
     (_seekToTime s) (_parsedMessageDefinitionsByTopic s) (_currentTime s)
     (_problems s) (readTask s) (seekTask s) (emit_currentPromise s)
     (emit_callPending s) (effects s).
Definition set_nextReadStartTime (v : Time) (s : Player) : Player :=
    mkPlayer (_label s) (_filePath s) (_id s) (_isPlaying s) (_listener s)
     (_speed s) (_start s) (_end s) v (nextReadStartTime_ref s)
     (_lastSeekStartTime s) (_lastSeekEmitTime s) (_cancelSeekBackfill s)
     (_parsedSubscribedTopics s) (_providerTopics s)
     (_providerConnections s) (_providerDatatypes s) (_initializing s)
     (_initialized s) (_reconnecting s) (_progress s) (_messages s)
     (_receivedBytes s) (_messageOrder s) (_hasError s) (_closed s)
     (_seekToTime s) (_parsedMessageDefinitionsByTopic s) (_currentTime s)
     (_problems s) (readTask s) (seekTask s) (emit_currentPromise s)
     (emit_callPending s) (effects s).
Definition set_nextReadStartTime_ref (v : Z) (s : Player) : Player :=
    mkPlayer (_label s) (_filePath s) (_id s) (_isPlaying s) (_listener s)
     (_speed s) (_start s) (_end s) (_nextReadStartTime s) v
     (_lastSeekStartTime s) (_lastSeekEmitTime s) (_cancelSeekBackfill s)
     (_parsedSubscribedTopics s) (_providerTopics s)
     (_providerConnections s) (_providerDatatypes s) (_initializing s)
     (_initialized s) (_reconnecting s) (_progress s) (_messages s)
     (_receivedBytes s) (_messageOrder s) (_hasError s) (_closed s)
     (_seekToTime s) (_parsedMessageDefinitionsByTopic s) (_currentTime s)
     (_problems s) (readTask s) (seekTask s) (emit_currentPromise s)
     (emit_callPending s) (effects s).
Definition set_lastSeekEmitTime (v : Z) (s : Player) : Player :=
    mkPlayer (_label s) (_filePath s) (_id s) (_isPlaying s) (_listener s)
     (_speed s) (_start s) (_end s) (_nextReadStartTime s)
     (nextReadStartTime_ref s) (_lastSeekStartTime s) v
     (_cancelSeekBackfill s) (_parsedSubscribedTopics s) (_providerTopics s)
     (_providerConnections s) (_providerDatatypes s) (_initializing s)
     (_initialized s) (_reconnecting s) (_progress s) (_messages s)
     (_receivedBytes s) (_messageOrder s) (_hasError s) (_closed s)
     (_seekToTime s) (_parsedMessageDefinitionsByTopic s) (_currentTime s)
     (_problems s) (readTask s) (seekTask s) (emit_currentPromise s)
     (emit_callPending s) (effects s).
Definition set_cancelSeekBackfill (v : bool) (s : Player) : Player :=
    mkPlayer (_label s) (_filePath s) (_id s) (_isPlaying s) (_listener s)
     (_speed s) (_start s) (_end s) (_nextReadStartTime s)
     (nextReadStartTime_ref s) (_lastSeekStartTime s) (_lastSeekEmitTime s)
     v (_parsedSubscribedTopics s) (_providerTopics s)
     (_providerConnections s) (_providerDatatypes s) (_initializing s)
     (_initialized s) (_reconnecting s) (_progress s) (_messages s)
     (_receivedBytes s) (_messageOrder s) (_hasError s) (_closed s)
     (_seekToTime s) (_parsedMessageDefinitionsByTopic s) (_currentTime s)
     (_problems s) (readTask s) (seekTask s) (emit_currentPromise s)
     (emit_callPending s) (effects s).
Definition set_parsedSubscribedTopics (v : list string) (s : Player) : Player :=
    mkPlayer (_label s) (_filePath s) (_id s) (_isPlaying s) (_listener s)
     (_speed s) (_start s) (_end s) (_nextReadStartTime s)
     (nextReadStartTime_ref s) (_lastSeekStartTime s) (_lastSeekEmitTime s)
     (_cancelSeekBackfill s) v (_providerTopics s) (_providerConnections s)
     (_providerDatatypes s) (_initializing s) (_initialized s)
     (_reconnecting s) (_progress s) (_messages s) (_receivedBytes s)
     (_messageOrder s) (_hasError s) (_closed s) (_seekToTime s)
     (_parsedMessageDefinitionsByTopic s) (_currentTime s) (_problems s)
     (readTask s) (seekTask s) (emit_currentPromise s) (emit_callPending s)
     (effects s).
Definition set_providerTopics (v : list Topic) (s : Player) : Player :=
    mkPlayer (_label s) (_filePath s) (_id s) (_isPlaying s) (_listener s)
     (_speed s) (_start s) (_end s) (_nextReadStartTime s)
     (nextReadStartTime_ref s) (_lastSeekStartTime s) (_lastSeekEmitTime s)
     (_cancelSeekBackfill s) (_parsedSubscribedTopics s) v
     (_providerConnections s) (_providerDatatypes s) (_initializing s)
     (_initialized s) (_reconnecting s) (_progress s) (_messages s)
     (_receivedBytes s) (_messageOrder s) (_hasError s) (_closed s)
     (_seekToTime s) (_parsedMessageDefinitionsByTopic s) (_currentTime s)
     (_problems s) (readTask s) (seekTask s) (emit_currentPromise s)
     (emit_callPending s) (effects s).
Definition set_providerConnections (v : list Connection) (s : Player) : Player :=
    mkPlayer (_label s) (_filePath s) (_id s) (_isPlaying s) (_listener s)
     (_speed s) (_start s) (_end s) (_nextReadStartTime s)
     (nextReadStartTime_ref s) (_lastSeekStartTime s) (_lastSeekEmitTime s)
     (_cancelSeekBackfill s) (_parsedSubscribedTopics s) (_providerTopics s)
     v (_providerDatatypes s) (_initializing s) (_initialized s)
     (_reconnecting s) (_progress s) (_messages s) (_receivedBytes s)
     (_messageOrder s) (_hasError s) (_closed s) (_seekToTime s)
     (_parsedMessageDefinitionsByTopic s) (_currentTime s) (_problems s)
     (readTask s) (seekTask s) (emit_currentPromise s) (emit_callPending s)
     (effects s).
Definition set_providerDatatypes (v : handle) (s : Player) : Player :=
    mkPlayer (_label s) (_filePath s) (_id s) (_isPlaying s) (_listener s)
     (_speed s) (_start s) (_end s) (_nextReadStartTime s)
     (nextReadStartTime_ref s) (_lastSeekStartTime s) (_lastSeekEmitTime s)
     (_cancelSeekBackfill s) (_parsedSubscribedTopics s) (_providerTopics s)
     (_providerConnections s) v (_initializing s) (_initialized s)
     (_reconnecting s) (_progress s) (_messages s) (_receivedBytes s)
     (_messageOrder s) (_hasError s) (_closed s) (_seekToTime s)
     (_parsedMessageDefinitionsByTopic s) (_currentTime s) (_problems s)
     (readTask s) (seekTask s) (emit_currentPromise s) (emit_callPending s)
     (effects s).
Definition set_initializing (v : bool) (s : Player) : Player :=
    mkPlayer (_label s) (_filePath s) (_id s) (_isPlaying s) (_listener s)
     (_speed s) (_start s) (_end s) (_nextReadStartTime s)
     (nextReadStartTime_ref s) (_lastSeekStartTime s) (_lastSeekEmitTime s)
     (_cancelSeekBackfill s) (_parsedSubscribedTopics s) (_providerTopics s)
     (_providerConnections s) (_providerDatatypes s) v (_initialized s)
     (_reconnecting s) (_progress s) (_messages s) (_receivedBytes s)
     (_messageOrder s) (_hasError s) (_closed s) (_seekToTime s)
     (_parsedMessageDefinitionsByTopic s) (_currentTime s) (_problems s)
     (readTask s) (seekTask s) (emit_currentPromise s) (emit_callPending s)
     (effects s).
Definition set_initialized (v : bool) (s : Player) : Player :=
    mkPlayer (_label s) (_filePath s) (_id s) (_isPlaying s) (_listener s)
     (_speed s) (_start s) (_end s) (_nextReadStartTime s)
     (nextReadStartTime_ref s) (_lastSeekStartTime s) (_lastSeekEmitTime s)
     (_cancelSeekBackfill s) (_parsedSubscribedTopics s) (_providerTopics s)
     (_providerConnections s) (_providerDatatypes s) (_initializing s) v
     (_reconnecting s) (_progress s) (_messages s) (_receivedBytes s)
     (_messageOrder s) (_hasError s) (_closed s) (_seekToTime s)
     (_parsedMessageDefinitionsByTopic s) (_currentTime s) (_problems s)
     (readTask s) (seekTask s) (emit_currentPromise s) (emit_callPending s)
     (effects s).
Definition set_reconnecting (v : bool) (s : Player) : Player :=
    mkPlayer (_label s) (_filePath s) (_id s) (_isPlaying s) (_listener s)
     (_speed s) (_start s) (_end s) (_nextReadStartTime s)
     (nextReadStartTime_ref s) (_lastSeekStartTime s) (_lastSeekEmitTime s)
     (_cancelSeekBackfill s) (_parsedSubscribedTopics s) (_providerTopics s)
     (_providerConnections s) (_providerDatatypes s) (_initializing s)
     (_initialized s) v (_progress s) (_messages s) (_receivedBytes s)
     (_messageOrder s) (_hasError s) (_closed s) (_seekToTime s)
     (_parsedMessageDefinitionsByTopic s) (_currentTime s) (_problems s)
     (readTask s) (seekTask s) (emit_currentPromise s) (emit_callPending s)
     (effects s).
Definition set_progress (v : Progress) (s : Player) : Player :=
    mkPlayer (_label s) (_filePath s) (_id s) (_isPlaying s) (_listener s)
     (_speed s) (_start s) (_end s) (_nextReadStartTime s)
     (nextReadStartTime_ref s) (_lastSeekStartTime s) (_lastSeekEmitTime s)
     (_cancelSeekBackfill s) (_parsedSubscribedTopics s) (_providerTopics s)
     (_providerConnections s) (_providerDatatypes s) (_initializing s)
     (_initialized s) (_reconnecting s) v (_messages s) (_receivedBytes s)
     (_messageOrder s) (_hasError s) (_closed s) (_seekToTime s)
     (_parsedMessageDefinitionsByTopic s) (_currentTime s) (_problems s)
     (readTask s) (seekTask s) (emit_currentPromise s) (emit_callPending s)
     (effects s).
Definition set_messages (v : list MessageEvent) (s : Player) : Player :=
    mkPlayer (_label s) (_filePath s) (_id s) (_isPlaying s) (_listener s)
     (_speed s) (_start s) (_end s) (_nextReadStartTime s)
     (nextReadStartTime_ref s) (_lastSeekStartTime s) (_lastSeekEmitTime s)
     (_cancelSeekBackfill s) (_parsedSubscribedTopics s) (_providerTopics s)
     (_providerConnections s) (_providerDatatypes s) (_initializing s)
     (_initialized s) (_reconnecting s) (_progress s) v (_receivedBytes s)
     (_messageOrder s) (_hasError s) (_closed s) (_seekToTime s)
     (_parsedMessageDefinitionsByTopic s) (_currentTime s) (_problems s)
     (readTask s) (seekTask s) (emit_currentPromise s) (emit_callPending s)
     (effects s).
Definition set_receivedBytes (v : Z) (s : Player) : Player :=
    mkPlayer (_label s) (_filePath s) (_id s) (_isPlaying s) (_listener s)
     (_speed s) (_start s) (_end s) (_nextReadStartTime s)
     (nextReadStartTime_ref s) (_lastSeekStartTime s) (_lastSeekEmitTime s)
     (_cancelSeekBackfill s) (_parsedSubscribedTopics s) (_providerTopics s)
     (_providerConnections s) (_providerDatatypes s) (_initializing s)
     (_initialized s) (_reconnecting s) (_progress s) (_messages s) v
     (_messageOrder s) (_hasError s) (_closed s) (_seekToTime s)
     (_parsedMessageDefinitionsByTopic s) (_currentTime s) (_problems s)
     (readTask s) (seekTask s) (emit_currentPromise s) (emit_callPending s)
     (effects s).
Definition set_hasError (v : bool) (s : Player) : Player :=
    mkPlayer (_label s) (_filePath s) (_id s) (_isPlaying s) (_listener s)
     (_speed s) (_start s) (_end s) (_nextReadStartTime s)
     (nextReadStartTime_ref s) (_lastSeekStartTime s) (_lastSeekEmitTime s)
     (_cancelSeekBackfill s) (_parsedSubscribedTopics s) (_providerTopics s)
     (_providerConnections s) (_providerDatatypes s) (_initializing s)
     (_initialized s) (_reconnecting s) (_progress s) (_messages s)
     (_receivedBytes s) (_messageOrder s) v (_closed s) (_seekToTime s)
     (_parsedMessageDefinitionsByTopic s) (_currentTime s) (_problems s)
     (readTask s) (seekTask s) (emit_currentPromise s) (emit_callPending s)
     (effects s).
Definition set_closed (v : bool) (s : Player) : Player :=
    mkPlayer (_label s) (_filePath s) (_id s) (_isPlaying s) (_listener s)
     (_speed s) (_start s) (_end s) (_nextReadStartTime s)
     (nextReadStartTime_ref s) (_lastSeekStartTime s) (_lastSeekEmitTime s)
     (_cancelSeekBackfill s) (_parsedSubscribedTopics s) (_providerTopics s)
     (_providerConnections s) (_providerDatatypes s) (_initializing s)
     (_initialized s) (_reconnecting s) (_progress s) (_messages s)
     (_receivedBytes s) (_messageOrder s) (_hasError s) v (_seekToTime s)
     (_parsedMessageDefinitionsByTopic s) (_currentTime s) (_problems s)
     (readTask s) (seekTask s) (emit_currentPromise s) (emit_callPending s)
     (effects s).
Definition set_parsedMessageDefinitionsByTopic (v : handle) (s : Player) : Player :=
    mkPlayer (_label s) (_filePath s) (_id s) (_isPlaying s) (_listener s)
     (_speed s) (_start s) (_end s) (_nextReadStartTime s)
     (nextReadStartTime_ref s) (_lastSeekStartTime s) (_lastSeekEmitTime s)
     (_cancelSeekBackfill s) (_parsedSubscribedTopics s) (_providerTopics s)
     (_providerConnections s) (_providerDatatypes s) (_initializing s)
     (_initialized s) (_reconnecting s) (_progress s) (_messages s)
     (_receivedBytes s) (_messageOrder s) (_hasError s) (_closed s)
     (_seekToTime s) v (_currentTime s) (_problems s) (readTask s)
     (seekTask s) (emit_currentPromise s) (emit_callPending s) (effects s).
Definition set_currentTime (v : option Time) (s : Player) : Player :=
    mkPlayer (_label s) (_filePath s) (_id s) (_isPlaying s) (_listener s)
     (_speed s) (_start s) (_end s) (_nextReadStartTime s)
     (nextReadStartTime_ref s) (_lastSeekStartTime s) (_lastSeekEmitTime s)
     (_cancelSeekBackfill s) (_parsedSubscribedTopics s) (_providerTopics s)
     (_providerConnections s) (_providerDatatypes s) (_initializing s)
     (_initialized s) (_reconnecting s) (_progress s) (_messages s)
     (_receivedBytes s) (_messageOrder s) (_hasError s) (_closed s)
     (_seekToTime s) (_parsedMessageDefinitionsByTopic s) v (_problems s)
     (readTask s) (seekTask s) (emit_currentPromise s) (emit_callPending s)
     (effects s).
Definition set_problems (v : JsMap.t PlayerProblem) (s : Player) : Player :=
    mkPlayer (_label s) (_filePath s) (_id s) (_isPlaying s) (_listener s)
     (_speed s) (_start s) (_end s) (_nextReadStartTime s)
     (nextReadStartTime_ref s) (_lastSeekStartTime s) (_lastSeekEmitTime s)
     (_cancelSeekBackfill s) (_parsedSubscribedTopics s) (_providerTopics s)
     (_providerConnections s) (_providerDatatypes s) (_initializing s)
     (_initialized s) (_reconnecting s) (_progress s) (_messages s)
     (_receivedBytes s) (_messageOrder s) (_hasError s) (_closed s)
     (_seekToTime s) (_parsedMessageDefinitionsByTopic s) (_currentTime s) v
     (readTask s) (seekTask s) (emit_currentPromise s) (emit_callPending s)
     (effects s).
Definition set_readTask (v : ReadTask) (s : Player) : Player :=
    mkPlayer (_label s) (_filePath s) (_id s) (_isPlaying s) (_listener s)
     (_speed s) (_start s) (_end s) (_nextReadStartTime s)
     (nextReadStartTime_ref s) (_lastSeekStartTime s) (_lastSeekEmitTime s)
     (_cancelSeekBackfill s) (_parsedSubscribedTopics s) (_providerTopics s)
     (_providerConnections s) (_providerDatatypes s) (_initializing s)
     (_initialized s) (_reconnecting s) (_progress s) (_messages s)
     (_receivedBytes s) (_messageOrder s) (_hasError s) (_closed s)
     (_seekToTime s) (_parsedMessageDefinitionsByTopic s) (_currentTime s)
     (_problems s) v (seekTask s) (emit_currentPromise s)
     (emit_callPending s) (effects s).
Definition set_seekTask (v : SeekTask) (s : Player) : Player :=
    mkPlayer (_label s) (_filePath s) (_id s) (_isPlaying s) (_listener s)
     (_speed s) (_start s) (_end s) (_nextReadStartTime s)
     (nextReadStartTime_ref s) (_lastSeekStartTime s) (_lastSeekEmitTime s)
     (_cancelSeekBackfill s) (_parsedSubscribedTopics s) (_providerTopics s)
     (_providerConnections s) (_providerDatatypes s) (_initializing s)
     (_initialized s) (_reconnecting s) (_progress s) (_messages s)
     (_receivedBytes s) (_messageOrder s) (_hasError s) (_closed s)
     (_seekToTime s) (_parsedMessageDefinitionsByTopic s) (_currentTime s)
     (_problems s) (readTask s) v (emit_currentPromise s)
     (emit_callPending s) (effects s).
Definition set_emit_currentPromise (v : bool) (s : Player) : Player :=
    mkPlayer (_label s) (_filePath s) (_id s) (_isPlaying s) (_listener s)
     (_speed s) (_start s) (_end s) (_nextReadStartTime s)
     (nextReadStartTime_ref s) (_lastSeekStartTime s) (_lastSeekEmitTime s)
     (_cancelSeekBackfill s) (_parsedSubscribedTopics s) (_providerTopics s)
     (_providerConnections s) (_providerDatatypes s) (_initializing s)
     (_initialized s) (_reconnecting s) (_progress s) (_messages s)
     (_receivedBytes s) (_messageOrder s) (_hasError s) (_closed s)
     (_seekToTime s) (_parsedMessageDefinitionsByTopic s) (_currentTime s)
     (_problems s) (readTask s) (seekTask s) v (emit_callPending s)
     (effects s).
Definition set_emit_callPending (v : bool) (s : Player) : Player :=
    mkPlayer (_label s) (_filePath s) (_id s) (_isPlaying s) (_listener s)
     (_speed s) (_start s) (_end s) (_nextReadStartTime s)
     (nextReadStartTime_ref s) (_lastSeekStartTime s) (_lastSeekEmitTime s)
     (_cancelSeekBackfill s) (_parsedSubscribedTopics s) (_providerTopics s)
     (_providerConnections s) (_providerDatatypes s) (_initializing s)
     (_initialized s) (_reconnecting s) (_progress s) (_messages s)
     (_receivedBytes s) (_messageOrder s) (_hasError s) (_closed s)
     (_seekToTime s) (_parsedMessageDefinitionsByTopic s) (_currentTime s)
     (_problems s) (readTask s) (seekTask s) (emit_currentPromise s) v
     (effects s).
Definition set_effects (v : list Effect) (s : Player) : Player :=
    mkPlayer (_label s) (_filePath s) (_id s) (_isPlaying s) (_listener s)
     (_speed s) (_start s) (_end s) (_nextReadStartTime s)
     (nextReadStartTime_ref s) (_lastSeekStartTime s) (_lastSeekEmitTime s)
     (_cancelSeekBackfill s) (_parsedSubscribedTopics s) (_providerTopics s)
     (_providerConnections s) (_providerDatatypes s) (_initializing s)
     (_initialized s) (_reconnecting s) (_progress s) (_messages s)
     (_receivedBytes s) (_messageOrder s) (_hasError s) (_closed s)
     (_seekToTime s) (_parsedMessageDefinitionsByTopic s) (_currentTime s)
     (_problems s) (readTask s) (seekTask s) (emit_currentPromise s)
     (emit_callPending s) v.

Definition effect (e : Effect) : Js Player unit :=
  modify (fun s => set_effects (effects s ++ [e]) s).

(** Every assignment to [_nextReadStartTime] stores a fresh object. *)
Definition assign_nextReadStartTime (t : Time) : Js Player unit :=
  modify (fun s => set_nextReadStartTime_ref (nextReadStartTime_ref s + 1)
                     (set_nextReadStartTime t s)).

Definition set_problem (id : string) (p : PlayerProblem) : Js Player unit :=
  modify (fun s => set_problems (JsMap.set id p (_problems s)) s).

Definition delete_problem (id : string) : Js Player unit :=
  modify (fun s => set_problems (JsMap.delete id (_problems s)) s).

Definition capabilities_ : list PlayerCapabilities := [setSpeed; playbackControl].

(** [publishedTopics] of [_emitState]: topic -> set of caller ids. *)
Definition publishedTopicsOf (conns : list Connection) : gmap string (gset string) :=
  fold_left
    (fun (m : gmap string (gset string)) conn =>
       let publishers := default ∅ (m !! conn_topic conn) in
       <[conn_topic conn := publishers ∪ {[callerid conn]}]> m)
    conns ∅.

(** The function wrapped by [debouncePromise] in [_emitState]. *)
Definition emitState_fn : Js Player unit :=
  s ← get;
  if negb (_listener s) then mret tt
  else if _hasError s then
    effect (listener_call
      {| state_name := _label s; filePath := _filePath s; presence := ERROR;
         progress := emptyProgress; capabilities := []; playerId := _id s;
         activeData := None;
         problems := Some (JsMap.values (_problems s));
         urlState := None |})
  else
    let messages := _messages s in
    modify (set_messages []);;
    when (Nat.ltb 0 (length messages)) (modify (set_cancelSeekBackfill true));;
    let lastEnd := _nextReadStartTime s in
    lastEnd ← (if (sec lastEnd >? 0) || (nsec lastEnd >? 0)
               then lift (add lastEnd (mkTime 0 (-1))) else mret lastEnd);
    let publishedTopics := publishedTopicsOf (_providerConnections s) in
    let clampedLastEnd := clampTime lastEnd (_start s) (_end s) in
    (* the cached object is kept when its value has not changed *)
    let currentTime :=
      match _currentTime s with
      | Some c => if negb (compare c clampedLastEnd =? 0) then clampedLastEnd else c
      | None => clampedLastEnd
      end in
    modify (set_currentTime (Some currentTime));;
    effect (listener_call
      {| state_name := _label s; filePath := _filePath s;
         presence := if _reconnecting s then RECONNECTING
                     else if _initializing s then INITIALIZING else PRESENT;
         progress := _progress s;
         capabilities := capabilities_;
         playerId := _id s;
         problems := if Nat.ltb 0 (JsMap.size (_problems s))
                     then Some (JsMap.values (_problems s)) else None;
         activeData :=
           if _initializing s then None
           else Some
             {| messages := messages;
                totalBytesReceived := _receivedBytes s;
                messageOrder := _messageOrder s;
                currentTime := currentTime;
                startTime := _start s;
                endTime := _end s;
                isPlaying := _isPlaying s;
                speed := _speed s;
                lastSeekTime := _lastSeekEmitTime s;
                topics := _providerTopics s;
                datatypes := _providerDatatypes s;
                publishedTopics := publishedTopics;
                subscribedTopics := None;
                services := None;
                parsedMessageDefinitionsByTopic :=
                  Some (_parsedMessageDefinitionsByTopic s) |};
         urlState := None
      |}).

(** Modelled from the spec: util/debouncePromise is not under src. The
    listener is invoked at most once in flight: a call made while a
    delivery is in flight is remembered, and one more delivery starts when
    the one in flight settles. *)
Definition _emitState : Js Player unit :=
  s ← get;
  if emit_currentPromise s then modify (set_emit_callPending true)
  else emitState_fn;; modify (set_emit_currentPromise true).

Definition emitState_settled : Js Player unit :=
  modify (set_emit_currentPromise false);;
  s ← get;
  when (emit_callPending s)
    (modify (set_emit_callPending false);;
     emitState_fn;; modify (set_emit_currentPromise true)).

Definition _setError (message : string) (error : option string) : Js Player unit :=
  modify (set_hasError true);;
  set_problem "global-error"
    {| severity := severity_error; problem_message := message;
       tip := None; error := error |};;
  modify (set_isPlaying false);;
  s ← get;
  when (negb (_initializing s)) (effect provider_close);;
  _emitState.


(** [hasCachedRange], through the abstraction of [Progress]. *)
Definition hasCachedRange (s : Player) (start end_ : Time) : bool :=
  covers (_progress s) (_start s) (_end s) start end_.

(** Modelled from the spec: util/selectors.getSanitizedTopics is not under
    src. The requested topics, filtered to those actually available. *)
Definition getSanitizedTopics (subscribedTopics : list string)
    (providerTopics : list Topic) : list string :=
  List.filter
    (fun t => existsb (fun p => String.eqb (name p) t) providerTopics)
    subscribedTopics.

(** [_getMessages] up to [await this._provider.getMessages(...)]. *)
Definition getMessages_begin (start end_ : Time) : Js Player GetMessagesFrame :=
  s ← get;
  let parsedTopics := getSanitizedTopics (_parsedSubscribedTopics s) (_providerTopics s) in
  if Nat.eqb (length parsedTopics) 0 then mret None
  else
    when (negb (hasCachedRange s start end_)) (effect (metrics recordUncachedRangeRequest));;
    effect (provider_getMessages start end_ parsedTopics);;
    mret (Some parsedTopics).

(** The callback given to [filterMap] in [filterMessages]. *)
Definition filterMessage (topics : list string) (msg : MessageEvent)
    : Js Player (option MessageEvent) :=
  delete_problem (topic msg);;
  if negb (existsb (String.eqb (topic msg)) topics) then
    set_problem (topic msg)
      {| severity := severity_warn;
         problem_message :=
           "Unexpected topic encountered: " +:+ topic msg +:+ ". Skipping message";
         tip := None; error := None |};;
    mret None
  else
    s ← get;
    match List.find (fun t => String.eqb (name t) (topic msg)) (_providerTopics s) with
    | None =>
        set_problem (topic msg)
          {| severity := severity_warn;
             problem_message :=
               "Unexpected message on topic: " +:+ topic msg +:+ ". Skipping message";
             tip := None; error := None |};;
        mret None
    | Some topic_ =>
        if String.eqb (datatype topic_) "" then
          set_problem (topic msg)
            {| severity := severity_warn;
               problem_message :=
                 "Missing datatype for topic: " +:+ topic msg +:+ ". Skipping message";
               tip := None; error := None |};;
          mret None
        else
          mret (Some {| topic := topic msg;
                        receiveTime := receiveTime msg;
                        message := message msg;
                        sizeInBytes := None |})
    end.

(** [filterMap] of @foxglove/den/collection: map, dropping [undefined]. *)
Fixpoint filterMap {A B} (f : A -> Js Player (option B)) (l : list A)
    : Js Player (list B) :=
  match l with
  | [] => mret []
  | x :: l' =>
      r ← f x;
      rest ← filterMap f l';
      mret (match r with Some y => y :: rest | None => rest end)
  end.

(** [_getMessages] from the point where the provider's promise settles;
    an awaited rejection is thrown. *)
Definition getMessages_resume (g : GetMessagesFrame) (result : GetMessagesResult)
    : Js Player (list MessageEvent) :=
  match g with
  | None => mret []
  | Some parsedTopics =>
      match result with
      | rejected e => throw e
      | resolved None =>
          set_problem "bad-messages"
            {| severity := severity_error;
               problem_message := "Bad set of messages";
               tip := Some "Restart the app or contact support if the issue persists.";
               error := None |};;
          mret []
      | resolved (Some parsedMessages) =>
          delete_problem "bad-messages";;
          when (Nat.ltb 0 (length parsedMessages)) (effect (metrics recordTimeToFirstMsgs));;
          filterMap (filterMessage parsedTopics) parsedMessages
      end
  end.

(** [_tick] up to [await this._getMessages(start, end)]. The length of
    the window, [fromMillis(rangeMillis)], is computed in floating point
    from the wall clock, the speed and the previous window; it enters
    here as [range]. [None]: the tick returned early. *)
Definition tick_begin (range : Time) : Js Player (option (TickFrame * GetMessagesFrame)) :=
  s ← get;
  if _initializing s || negb (_isPlaying s) || _hasError s then mret None
  else if compare (_nextReadStartTime s) (_end s) >? 0 then mret None
  else
    let seekTime := _lastSeekStartTime s in
    let start := clampTime (_nextReadStartTime s) (_start s) (_end s) in
    t ← lift (add (_nextReadStartTime s) range);
    let end_ := clampTime t (_start s) (_end s) in
    g ← getMessages_begin start end_;
    mret (Some (mkTickFrame seekTime start end_, g)).

(** [_tick] after [await this._emitState.currentPromise]. *)
Definition tick_finish (f : TickFrame) (messages : list MessageEvent) : Js Player unit :=
  s ← get;
  if negb (_lastSeekStartTime s =? tick_seekTime f) then mret tt
  else
    t ← lift (add (tick_end f) (mkTime 0 1));
    assign_nextReadStartTime t;;
    s ← get;
    if negb (_isPlaying s) then mret tt
    else
      modify (set_messages (_messages s ++ messages));;
      _emitState.

(** An exception that leaves an async function or a callback nobody
    awaits: it does not reach the caller of a public method. *)
Definition detached (m : Js Player unit) : Js Player unit :=
  try_catch m (fun e => effect (unhandled_rejection e)).

(** The body of [_read] run under the mutex: [while] test, then [_tick]
    up to its first await. After a tick the loop sleeps ([delay]) and
    comes back here. *)
Definition read_loop (range : Time) : Js Player ReadTask :=
  s ← get;
  if _isPlaying s && negb (_hasError s) then
    r ← tick_begin range;
    mret (match r with
          | None => ReadLoop
          | Some (f, g) => TickAwaitingRead f g
          end)
  else mret ReadIdle.

(** [try { ... } catch (err) { this._setError(err.message, err) }] around
    the loop; the mutex is released on the way out. *)
Definition read_guard (m : Js Player ReadTask) : Js Player unit :=
  detached
    (try_catch
       (task ← try_catch m (fun e => _setError e (Some e);; mret ReadIdle);
        modify (set_readTask task))
       (fun e => modify (set_readTask ReadIdle);; throw e)).

(** [_read]: called without await from [startPlayback]. *)
Definition _read : Js Player unit :=
  s ← get;
  match readTask s with
  | ReadIdle => modify (set_readTask ReadLoop)
  | _ => mret tt
  end.

Definition startPlayback : Js Player unit :=
  s ← get;
  if _isPlaying s then mret tt
  else
    effect (metrics (metrics_play (_speed s)));;
    modify (set_isPlaying true);;
    _emitState;;
    _read.

Definition pausePlayback : Js Player unit :=
  s ← get;
  if negb (_isPlaying s) then mret tt
  else
    effect (metrics metrics_pause);;
    modify (set_isPlaying false);;
    _emitState.

Definition setPlaybackSpeed (speed : QArith_base.Q) : Js Player unit :=
  modify (set_speed speed);;
  effect (metrics (metrics_setSpeed speed));;
  _emitState.

Definition _reportInitialized : Js Player unit :=
  s ← get;
  if _initializing s || _initialized s then mret tt
  else
    effect (metrics metrics_initialized);;
    modify (set_initialized true).

Definition _setNextReadStartTime (time : Time) : Js Player unit :=
  s ← get;
  effect (metrics (recordPlaybackTime time (negb (hasCachedRange s (_start s) (_end s)))));;
  assign_nextReadStartTime (clampTime time (_start s) (_end s)).


(** One pass of the [do ... while] of [_seekPlaybackInternal], up to
    [await this._backfillMutex.runExclusive(...)]; [now] is [Date.now()]. *)
Definition backfill_pass (backfillDuration : option Time) (now : Z) : Js Player SeekTask :=
  s ← get;
  if _isPlaying s then
    modify (set_lastSeekEmitTime now);;
    mret SeekIdle
  else
    let readStartTime := _nextReadStartTime s in
    modify (set_cancelSeekBackfill false);;
    modify (set_messages []);;
    let backfillEnd := clampTime readStartTime (_start s) (_end s) in
    let internalBackfillDuration :=
      mkTime 0 (if _isPlaying s then 0 else SEEK_BACK_NANOSECONDS) in
    totalBackfillDuration ←
      lift (add internalBackfillDuration (default zero backfillDuration));
    t ← lift (subtract readStartTime totalBackfillDuration);
    let backfillStart := clampTime t (_start s) (_end s) in
    g ← getMessages_begin backfillStart backfillEnd;
    mret (BackfillAwaitingRead
            (mkBackfillFrame backfillDuration readStartTime (nextReadStartTime_ref s) backfillEnd)
            g).

(** [_seekPlaybackInternal] is called without await: what it throws is a
    rejected promise; [runExclusive] releases the mutex on the way out. *)
Definition seek_guard (m : Js Player SeekTask) : Js Player unit :=
  detached
    (try_catch
       (task ← m; modify (set_seekTask task))
       (fun e => modify (set_seekTask SeekIdle);; throw e)).

Definition _seekPlaybackInternal (backfillDuration : option Time) (now : Z) : Js Player unit :=
  s ← get;
  match seekTask s with
  | SeekIdle => seek_guard (backfill_pass backfillDuration now)
  | _ => mret tt
  end.

(** [_seekPlaybackInternal] from the point where the backfill read
    settles, to its next await or its end. [readStartTime !==
    this._nextReadStartTime] compares object identities. *)
Definition backfill_resume (f : BackfillFrame) (g : GetMessagesFrame)
    (result : GetMessagesResult) (now : Z) : Js Player SeekTask :=
  messages ← getMessages_resume g result;
  s ← get;
  if areEqual (_nextReadStartTime s) (readStartTime f) && negb (_cancelSeekBackfill s) then
    t ← lift (add (backfillEnd f) (mkTime 0 1));
    assign_nextReadStartTime t;;
    modify (set_messages messages);;
    modify (set_lastSeekEmitTime now);;
    _emitState;;
    mret SeekIdle
  else if negb (readStartTime_ref f =? nextReadStartTime_ref s) then
    backfill_pass (backfillDuration f) now
  else mret SeekIdle.

Definition seekPlayback (time : Time) (backfillDuration : option Time) (now : Z)
    : Js Player unit :=
  s ← get;
  if negb (_initialized s) then mret tt
  else
    effect (metrics (metrics_seek time));;
    _setNextReadStartTime time;;
    _seekPlaybackInternal backfillDuration now.

Record SubscribePayload : Type := mkSubscribePayload {
  sub_topic : string;
  requester : option string
}.

(** [new Set(array)]: first occurrences, in order. *)
Fixpoint newSet (l : list string) : list string :=
  match l with
  | [] => []
  | x :: l' => x :: List.filter (fun y => negb (String.eqb x y)) (newSet l')
  end.

Definition setSubscriptions (newSubscriptions : list SubscribePayload) : Js Player unit :=
  modify (set_parsedSubscribedTopics (newSet (List.map sub_topic newSubscriptions)));;
  effect (metrics (metrics_setSubscriptions (List.map sub_topic newSubscriptions))).

Definition requestBackfill (now : Z) : Js Player unit :=
  s ← get;
  match _currentTime s with
  | Some currentTime =>
      if _isPlaying s || _initializing s then mret tt
      else seekPlayback currentTime None now
  | None => mret tt
  end.

Record AdvertiseOptions : Type := mkAdvertiseOptions {
  adv_topic : string;
  adv_datatype : string
}.

Record PublishPayload : Type := mkPublishPayload {
  pub_topic : string;
  pub_msg : handle
}.

Definition setPublishers (_publishers : list AdvertiseOptions) : Js Player unit :=
  mret tt.

Definition setParameter (_key : string) (_value : handle) : Js Player unit :=
  throw "Parameter editing is not supported by this data source".

Definition publish (_payload : PublishPayload) : Js Player unit :=
  throw "Publishing is not supported by this data source".

Definition close : Js Player unit :=
  modify (set_isPlaying false);;
  modify (set_closed true);;
  s ← get;
  when (negb (_initializing s) && negb (_hasError s)) (effect provider_close);;
  effect (metrics metrics_close).

Definition setListener : Js Player unit :=
  modify (set_listener true);;
  _emitState;;
  effect provider_initialize.

(** The callbacks handed to [provider.initialize]. *)
Definition progressCallback (progress : Progress) : Js Player unit :=
  modify (set_progress progress);;
  s ← get;
  when (negb (_isPlaying s)) _emitState.

Inductive RandomAccessDataProviderMetadata : Type :=
| updateReconnecting (reconnecting : bool)
| average_throughput
| initializationPerformance
| received_bytes (bytes : Z)
| data_provider_stall
| other_metadata.

Definition reportMetadataCallback (metadata : RandomAccessDataProviderMetadata)
    : Js Player unit :=
  match metadata with
  | updateReconnecting reconnecting =>
      modify (set_reconnecting reconnecting);;
      _emitState
  | average_throughput => effect (metrics recordDataProviderPerformance)
  | initializationPerformance => effect (metrics recordDataProviderInitializePerformance)
  | received_bytes bytes => modify (fun s => set_receivedBytes (_receivedBytes s + bytes) s)
  | data_provider_stall => effect (metrics recordDataProviderStall)
  | other_metadata => mret tt
  end.

Inductive MessageDefinitions : Type :=
| raw_definitions
| parsed_definitions (datatypes : handle) (parsedMessageDefinitionsByTopic : handle).

Record InitializationResult : Type := mkInitializationResult {
  init_start : Time;
  init_end : Time;
  init_topics : list Topic;
  init_connections : list Connection;
  messageDefinitions : MessageDefinitions;
  providesParsedMessages : bool
}.

(** The [.then] callback of [setListener]. *)
Definition initialize_then (r : InitializationResult) (now : Z) : Js Player unit :=
  if negb (providesParsedMessages r) then _setError "Incorrect message format" None
  else
    match messageDefinitions r with
    | raw_definitions => _setError "Missing message definitions" None
    | parsed_definitions datatypes_ definitionsByTopic =>
        s ← get;
        let initialTime := _seekToTime s (init_start r) (init_end r) in
        modify (set_start (init_start r));;
        assign_nextReadStartTime initialTime;;
        modify (set_end (init_end r));;
        modify (set_providerTopics (init_topics r));;
        modify (set_providerConnections (init_connections r));;
        modify (set_providerDatatypes datatypes_);;
        modify (set_parsedMessageDefinitionsByTopic definitionsByTopic);;
        modify (set_initializing false);;
        modify (set_currentTime (Some initialTime));;
        _reportInitialized;;
        seekPlayback initialTime None now
    end.

(** The promise chain [initialize(...).then(...).catch(...)]: the
    [.catch] sees a rejected initialisation and what the [.then] callback
    throws. *)
Definition initialize_settled (r : outcome InitializationResult) (now : Z) : Js Player unit :=
  detached
    (try_catch
       (match r with
        | Normal r => initialize_then r now
        | Throw e => throw e
        end)
       (fun e => _setError "Error initializing player" (Some e))).

(** The constructor. *)
Definition new_Player (label filePath : option string) (id : string)
    (seekToTime : Time -> Time -> Time) (now : Z) : Player :=
  {| _label := label; _filePath := filePath; _id := id;
     _isPlaying := false; _listener := false;
     _speed := QArith_base.Qmake 1 5;
     _start := zero; _end := zero; _nextReadStartTime := zero;
     nextReadStartTime_ref := 0;
     _lastSeekStartTime := now; _lastSeekEmitTime := now;
     _cancelSeekBackfill := false;
     _parsedSubscribedTopics := []; _providerTopics := [];
     _providerConnections := []; _providerDatatypes := 0;
     _initializing := true; _initialized := false; _reconnecting := false;
     _progress := emptyProgress; _messages := []; _receivedBytes := 0;
     _messageOrder := "receiveTime"; _hasError := false; _closed := false;
     _seekToTime := seekToTime; _parsedMessageDefinitionsByTopic := 0;
     _currentTime := None; _problems := [];
     readTask := ReadIdle; seekTask := SeekIdle;
     emit_currentPromise := false; emit_callPending := false;
     effects := [metrics playerConstructed] |}.

(** *** The engine as a state machine

    A run of the engine is a sequence of events: calls of the public
    methods, and settlements of what the engine awaits. Each event runs
    to the next suspension. *)
Inductive Event : Type :=
| call_setListener
| call_close
| call_setSubscriptions (subscriptions : list SubscribePayload)
| call_setPublishers (publishers : list AdvertiseOptions)
| call_setPlaybackSpeed (speed : QArith_base.Q)
| call_startPlayback
| call_pausePlayback
| call_seekPlayback (time : Time) (backfillDuration : option Time) (now : Z)
| call_setParameter (key : string) (value : handle)
| call_publish (payload : PublishPayload)
| call_requestBackfill (now : Z)
| on_emit_settled
| on_progress (progress : Progress)
| on_metadata (metadata : RandomAccessDataProviderMetadata)
| on_initialize_settled (r : outcome InitializationResult) (now : Z)
| on_read_wake (range : Time)
| on_tick_read_settled (result : GetMessagesResult)
| on_tick_emit_awaited
| on_backfill_settled (result : GetMessagesResult) (now : Z).

Definition step (e : Event) : Js Player unit :=
  match e with
  | call_setListener => setListener
  | call_close => close
  | call_setSubscriptions subs => setSubscriptions subs
  | call_setPublishers pubs => setPublishers pubs
  | call_setPlaybackSpeed speed => setPlaybackSpeed speed
  | call_startPlayback => startPlayback
  | call_pausePlayback => pausePlayback
  | call_seekPlayback time backfillDuration now => seekPlayback time backfillDuration now
  | call_setParameter key value => setParameter key value
  | call_publish payload => publish payload
  | call_requestBackfill now => requestBackfill now
  | on_emit_settled => detached emitState_settled
  | on_progress p => detached (progressCallback p)
  | on_metadata md => detached (reportMetadataCallback md)
  | on_initialize_settled r now => initialize_settled r now
  | on_read_wake range =>
      s ← get;
      match readTask s with
      | ReadLoop => read_guard (read_loop range)
      | _ => mret tt
      end
  | on_tick_read_settled result =>
      s ← get;
      match readTask s with
      | TickAwaitingRead f g =>
          read_guard (messages ← getMessages_resume g result;
                      mret (TickAwaitingEmit f messages))
      | _ => mret tt
      end
  | on_tick_emit_awaited =>
      s ← get;
      match readTask s with
      | TickAwaitingEmit f messages =>
          read_guard (tick_finish f messages;; mret ReadLoop)
      | _ => mret tt
      end
  | on_backfill_settled result now =>
      s ← get;
      match seekTask s with
      | BackfillAwaitingRead f g => seek_guard (backfill_resume f g result now)
      | SeekIdle => mret tt
      end
  end.

(** Running a sequence of events; a method that throws leaves the engine
    as it was at the throw. *)
Definition run (events : list Event) (s : Player) : Player :=
  fold_left (fun s e => snd (step e s)) events s.

(** The states handed to the listener so far, oldest first. *)
Definition emitted (s : Player) : list PlayerState :=
  omap (fun e => match e with listener_call st => Some st | _ => None end) (effects s).

End RandomAccessPlayer.

(** ** RosbridgePlayer: the methods of the [Player] contract, [close] and
    the per-topic message handler *)
Module RosbridgePlayer.

Import RandomAccessPlayer(SubscribePayload, mkSubscribePayload, sub_topic, requester,
  AdvertiseOptions, mkAdvertiseOptions, adv_topic, adv_datatype,
  PublishPayload, mkPublishPayload, pub_topic, pub_msg, newSet).

Definition CAPABILITIES : list PlayerCapabilities := [advertise].

Inductive ReaderKind : Type := LazyMessageReader | ROS2MessageReader.

Inductive Effect : Type :=
| ros_close (client : handle)
| topic_subscribe (topicName : string)
| topic_unsubscribe (topicName : string)
| publisher_unadvertise (topicName : string)
| publisher_publish (topicName : string) (msg : handle)
| clearTimeout (timer : handle)
| setTimeout_emitState (timer : handle)
| metrics (call : MetricsCall)
| listener_call (state : PlayerState).

Record Player : Type := mkPlayer {
  _url : string;
  _rosClient : option handle;  (* the roslib client, when connected *)
  _id : string;
  _listener : bool;  (* a listener is registered *)
  _closed : bool;
  _providerTopics : option (list Topic);
  _providerDatatypes : option handle;
  _publishedTopics : gmap string (gset string);
  _subscribedTopics : gmap string (gset string);
  _services : gmap string (gset string);
  _messageReadersByDatatype : gmap string ReaderKind;
  _start : option Time;
  _clockTime : option Time;
  _topicSubscriptions : JsMap.t string;  (* topic name -> datatype of the reader its handler uses *)
  _requestedSubscriptions : list SubscribePayload;
  _parsedMessages : list MessageEvent;
  _messageOrder : string;
  _requestTopicsTimeout : option handle;
  _topicPublishers : JsMap.t AdvertiseOptions;  (* topic name -> the roslib topic advertised *)
  _advertisements : list AdvertiseOptions;
  _parsedTopics : list string;  (* a Set *)
  _receivedBytes : Z;
  _hasReceivedMessage : bool;
  _presence : PlayerPresence;
  _problems : JsMap.t PlayerProblem;  (* PlayerProblemManager *)
  _emitTimer : option handle;
  next_timer : handle;  (* the next handle setTimeout returns *)
  emit_currentPromise : bool;  (* _emitState.currentPromise is set *)
  emit_callPending : bool;  (* _emitState was called while a delivery was in flight *)
  effects : list Effect  (* calls made on roslib, timers, the metrics collector and the listener, oldest first *)
}.

Definition set_rosClient (v : option handle) (s : Player) : Player :=
    mkPlayer (_url s) v (_id s) (_listener s) (_closed s) (_providerTopics s)
     (_providerDatatypes s) (_publishedTopics s) (_subscribedTopics s)
     (_services s) (_messageReadersByDatatype s) (_start s) (_clockTime s)
     (_topicSubscriptions s) (_requestedSubscriptions s) (_parsedMessages s)
     (_messageOrder s) (_requestTopicsTimeout s) (_topicPublishers s)
     (_advertisements s) (_parsedTopics s) (_receivedBytes s)
     (_hasReceivedMessage s) (_presence s) (_problems s) (_emitTimer s)
     (next_timer s) (emit_currentPromise s) (emit_callPending s) (effects s).
Definition set_listener (v : bool) (s : Player) : Player :=
    mkPlayer (_url s) (_rosClient s) (_id s) v (_closed s) (_providerTopics s)
     (_providerDatatypes s) (_publishedTopics s) (_subscribedTopics s)
     (_services s) (_messageReadersByDatatype s) (_start s) (_clockTime s)
     (_topicSubscriptions s) (_requestedSubscriptions s) (_parsedMessages s)
     (_messageOrder s) (_requestTopicsTimeout s) (_topicPublishers s)
     (_advertisements s) (_parsedTopics s) (_receivedBytes s)
     (_hasReceivedMessage s) (_presence s) (_problems s) (_emitTimer s)
     (next_timer s) (emit_currentPromise s) (emit_callPending s) (effects s).
Definition set_closed (v : bool) (s : Player) : Player :=
    mkPlayer (_url s) (_rosClient s) (_id s) (_listener s) v
     (_providerTopics s) (_providerDatatypes s) (_publishedTopics s)
     (_subscribedTopics s) (_services s) (_messageReadersByDatatype s)
     (_start s) (_clockTime s) (_topicSubscriptions s)
     (_requestedSubscriptions s) (_parsedMessages s) (_messageOrder s)
     (_requestTopicsTimeout s) (_topicPublishers s) (_advertisements s)
     (_parsedTopics s) (_receivedBytes s) (_hasReceivedMessage s)
     (_presence s) (_problems s) (_emitTimer s) (next_timer s)
     (emit_currentPromise s) (emit_callPending s) (effects s).
Definition set_start (v : option Time) (s : Player) : Player :=
    mkPlayer (_url s) (_rosClient s) (_id s) (_listener s) (_closed s)
     (_providerTopics s) (_providerDatatypes s) (_publishedTopics s)
     (_subscribedTopics s) (_services s) (_messageReadersByDatatype s) v
     (_clockTime s) (_topicSubscriptions s) (_requestedSubscriptions s)
     (_parsedMessages s) (_messageOrder s) (_requestTopicsTimeout s)
     (_topicPublishers s) (_advertisements s) (_parsedTopics s)
     (_receivedBytes s) (_hasReceivedMessage s) (_presence s) (_problems s)
     (_emitTimer s) (next_timer s) (emit_currentPromise s)
     (emit_callPending s) (effects s).
Definition set_clockTime (v : option Time) (s : Player) : Player :=
    mkPlayer (_url s) (_rosClient s) (_id s) (_listener s) (_closed s)
     (_providerTopics s) (_providerDatatypes s) (_publishedTopics s)
     (_subscribedTopics s) (_services s) (_messageReadersByDatatype s)
     (_start s) v (_topicSubscriptions s) (_requestedSubscriptions s)
     (_parsedMessages s) (_messageOrder s) (_requestTopicsTimeout s)
     (_topicPublishers s) (_advertisements s) (_parsedTopics s)
     (_receivedBytes s) (_hasReceivedMessage s) (_presence s) (_problems s)
     (_emitTimer s) (next_timer s) (emit_currentPromise s)
     (emit_callPending s) (effects s).
Definition set_topicSubscriptions (v : JsMap.t string) (s : Player) : Player :=
    mkPlayer (_url s) (_rosClient s) (_id s) (_listener s) (_closed s)
     (_providerTopics s) (_providerDatatypes s) (_publishedTopics s)
     (_subscribedTopics s) (_services s) (_messageReadersByDatatype s)
     (_start s) (_clockTime s) v (_requestedSubscriptions s)
     (_parsedMessages s) (_messageOrder s) (_requestTopicsTimeout s)
     (_topicPublishers s) (_advertisements s) (_parsedTopics s)
     (_receivedBytes s) (_hasReceivedMessage s) (_presence s) (_problems s)
     (_emitTimer s) (next_timer s) (emit_currentPromise s)
     (emit_callPending s) (effects s).
Definition set_requestedSubscriptions (v : list SubscribePayload) (s : Player) : Player :=
    mkPlayer (_url s) (_rosClient s) (_id s) (_listener s) (_closed s)
     (_providerTopics s) (_providerDatatypes s) (_publishedTopics s)
     (_subscribedTopics s) (_services s) (_messageReadersByDatatype s)
     (_start s) (_clockTime s) (_topicSubscriptions s) v (_parsedMessages s)
     (_messageOrder s) (_requestTopicsTimeout s) (_topicPublishers s)
     (_advertisements s) (_parsedTopics s) (_receivedBytes s)
     (_hasReceivedMessage s) (_presence s) (_problems s) (_emitTimer s)
     (next_timer s) (emit_currentPromise s) (emit_callPending s) (effects s).
Definition set_parsedMessages (v : list MessageEvent) (s : Player) : Player :=
    mkPlayer (_url s) (_rosClient s) (_id s) (_listener s) (_closed s)
     (_providerTopics s) (_providerDatatypes s) (_publishedTopics s)
     (_subscribedTopics s) (_services s) (_messageReadersByDatatype s)
     (_start s) (_clockTime s) (_topicSubscriptions s)
     (_requestedSubscriptions s) v (_messageOrder s) (_requestTopicsTimeout s)
     (_topicPublishers s) (_advertisements s) (_parsedTopics s)
     (_receivedBytes s) (_hasReceivedMessage s) (_presence s) (_problems s)
     (_emitTimer s) (next_timer s) (emit_currentPromise s)
     (emit_callPending s) (effects s).
Definition set_topicPublishers (v : JsMap.t AdvertiseOptions) (s : Player) : Player :=
    mkPlayer (_url s) (_rosClient s) (_id s) (_listener s) (_closed s)
     (_providerTopics s) (_providerDatatypes s) (_publishedTopics s)
     (_subscribedTopics s) (_services s) (_messageReadersByDatatype s)
     (_start s) (_clockTime s) (_topicSubscriptions s)
     (_requestedSubscriptions s) (_parsedMessages s) (_messageOrder s)
     (_requestTopicsTimeout s) v (_advertisements s) (_parsedTopics s)
     (_receivedBytes s) (_hasReceivedMessage s) (_presence s) (_problems s)
     (_emitTimer s) (next_timer s) (emit_currentPromise s)
     (emit_callPending s) (effects s).
Definition set_advertisements (v : list AdvertiseOptions) (s : Player) : Player :=
    mkPlayer (_url s) (_rosClient s) (_id s) (_listener s) (_closed s)
     (_providerTopics s) (_providerDatatypes s) (_publishedTopics s)
     (_subscribedTopics s) (_services s) (_messageReadersByDatatype s)
     (_start s) (_clockTime s) (_topicSubscriptions s)
     (_requestedSubscriptions s) (_parsedMessages s) (_messageOrder s)
     (_requestTopicsTimeout s) (_topicPublishers s) v (_parsedTopics s)
     (_receivedBytes s) (_hasReceivedMessage s) (_presence s) (_problems s)
     (_emitTimer s) (next_timer s) (emit_currentPromise s)
     (emit_callPending s) (effects s).
Definition set_parsedTopics (v : list string) (s : Player) : Player :=
    mkPlayer (_url s) (_rosClient s) (_id s) (_listener s) (_closed s)
     (_providerTopics s) (_providerDatatypes s) (_publishedTopics s)
     (_subscribedTopics s) (_services s) (_messageReadersByDatatype s)
     (_start s) (_clockTime s) (_topicSubscriptions s)
     (_requestedSubscriptions s) (_parsedMessages s) (_messageOrder s)
     (_requestTopicsTimeout s) (_topicPublishers s) (_advertisements s) v
     (_receivedBytes s) (_hasReceivedMessage s) (_presence s) (_problems s)
     (_emitTimer s) (next_timer s) (emit_currentPromise s)
     (emit_callPending s) (effects s).
Definition set_hasReceivedMessage (v : bool) (s : Player) : Player :=
    mkPlayer (_url s) (_rosClient s) (_id s) (_listener s) (_closed s)
     (_providerTopics s) (_providerDatatypes s) (_publishedTopics s)
     (_subscribedTopics s) (_services s) (_messageReadersByDatatype s)
     (_start s) (_clockTime s) (_topicSubscriptions s)
     (_requestedSubscriptions s) (_parsedMessages s) (_messageOrder s)
     (_requestTopicsTimeout s) (_topicPublishers s) (_advertisements s)
     (_parsedTopics s) (_receivedBytes s) v (_presence s) (_problems s)
     (_emitTimer s) (next_timer s) (emit_currentPromise s)
     (emit_callPending s) (effects s).
Definition set_presence (v : PlayerPresence) (s : Player) : Player :=
    mkPlayer (_url s) (_rosClient s) (_id s) (_listener s) (_closed s)
     (_providerTopics s) (_providerDatatypes s) (_publishedTopics s)
     (_subscribedTopics s) (_services s) (_messageReadersByDatatype s)
     (_start s) (_clockTime s) (_topicSubscriptions s)
     (_requestedSubscriptions s) (_parsedMessages s) (_messageOrder s)
     (_requestTopicsTimeout s) (_topicPublishers s) (_advertisements s)
     (_parsedTopics s) (_receivedBytes s) (_hasReceivedMessage s) v
     (_problems s) (_emitTimer s) (next_timer s) (emit_currentPromise s)
     (emit_callPending s) (effects s).
Definition set_problems (v : JsMap.t PlayerProblem) (s : Player) : Player :=
    mkPlayer (_url s) (_rosClient s) (_id s) (_listener s) (_closed s)
     (_providerTopics s) (_providerDatatypes s) (_publishedTopics s)
     (_subscribedTopics s) (_services s) (_messageReadersByDatatype s)
     (_start s) (_clockTime s) (_topicSubscriptions s)
     (_requestedSubscriptions s) (_parsedMessages s) (_messageOrder s)
     (_requestTopicsTimeout s) (_topicPublishers s) (_advertisements s)
     (_parsedTopics s) (_receivedBytes s) (_hasReceivedMessage s)
     (_presence s) v (_emitTimer s) (next_timer s) (emit_currentPromise s)
     (emit_callPending s) (effects s).
Definition set_emitTimer (v : option handle) (s : Player) : Player :=
    mkPlayer (_url s) (_rosClient s) (_id s) (_listener s) (_closed s)
     (_providerTopics s) (_providerDatatypes s) (_publishedTopics s)
     (_subscribedTopics s) (_services s) (_messageReadersByDatatype s)
     (_start s) (_clockTime s) (_topicSubscriptions s)
     (_requestedSubscriptions s) (_parsedMessages s) (_messageOrder s)
     (_requestTopicsTimeout s) (_topicPublishers s) (_advertisements s)
     (_parsedTopics s) (_receivedBytes s) (_hasReceivedMessage s)
     (_presence s) (_problems s) v (next_timer s) (emit_currentPromise s)
     (emit_callPending s) (effects s).
Definition set_next_timer (v : handle) (s : Player) : Player :=
    mkPlayer (_url s) (_rosClient s) (_id s) (_listener s) (_closed s)
     (_providerTopics s) (_providerDatatypes s) (_publishedTopics s)
     (_subscribedTopics s) (_services s) (_messageReadersByDatatype s)
     (_start s) (_clockTime s) (_topicSubscriptions s)
     (_requestedSubscriptions s) (_parsedMessages s) (_messageOrder s)
     (_requestTopicsTimeout s) (_topicPublishers s) (_advertisements s)
     (_parsedTopics s) (_receivedBytes s) (_hasReceivedMessage s)
     (_presence s) (_problems s) (_emitTimer s) v (emit_currentPromise s)
     (emit_callPending s) (effects s).
Definition set_emit_currentPromise (v : bool) (s : Player) : Player :=
    mkPlayer (_url s) (_rosClient s) (_id s) (_listener s) (_closed s)
     (_providerTopics s) (_providerDatatypes s) (_publishedTopics s)
     (_subscribedTopics s) (_services s) (_messageReadersByDatatype s)
     (_start s) (_clockTime s) (_topicSubscriptions s)
     (_requestedSubscriptions s) (_parsedMessages s) (_messageOrder s)
     (_requestTopicsTimeout s) (_topicPublishers s) (_advertisements s)
     (_parsedTopics s) (_receivedBytes s) (_hasReceivedMessage s)
     (_presence s) (_problems s) (_emitTimer s) (next_timer s) v
     (emit_callPending s) (effects s).
Definition set_emit_callPending (v : bool) (s : Player) : Player :=
    mkPlayer (_url s) (_rosClient s) (_id s) (_listener s) (_closed s)
     (_providerTopics s) (_providerDatatypes s) (_publishedTopics s)
     (_subscribedTopics s) (_services s) (_messageReadersByDatatype s)
     (_start s) (_clockTime s) (_topicSubscriptions s)
     (_requestedSubscriptions s) (_parsedMessages s) (_messageOrder s)
     (_requestTopicsTimeout s) (_topicPublishers s) (_advertisements s)
     (_parsedTopics s) (_receivedBytes s) (_hasReceivedMessage s)
     (_presence s) (_problems s) (_emitTimer s) (next_timer s)
     (emit_currentPromise s) v (effects s).
Definition set_effects (v : list Effect) (s : Player) : Player :=
    mkPlayer (_url s) (_rosClient s) (_id s) (_listener s) (_closed s)
     (_providerTopics s) (_providerDatatypes s) (_publishedTopics s)
     (_subscribedTopics s) (_services s) (_messageReadersByDatatype s)
     (_start s) (_clockTime s) (_topicSubscriptions s)
     (_requestedSubscriptions s) (_parsedMessages s) (_messageOrder s)
     (_requestTopicsTimeout s) (_topicPublishers s) (_advertisements s)
     (_parsedTopics s) (_receivedBytes s) (_hasReceivedMessage s)
     (_presence s) (_problems s) (_emitTimer s) (next_timer s)
     (emit_currentPromise s) (emit_callPending s) v.

Definition effect (e : Effect) : Js Player unit :=
  modify (fun s => set_effects (effects s ++ [e]) s).

(** Modelled from the spec: players/PlayerProblemManager is not under src.
    Problems are keyed by id; adding the same id replaces it, removing
    clears it. *)
Definition addProblem (id : string) (p : PlayerProblem) : Js Player unit :=
  modify (fun s => set_problems (JsMap.set id p (_problems s)) s).

Definition removeProblem (id : string) : Js Player unit :=
  modify (fun s => set_problems (JsMap.delete id (_problems s)) s).

(** [this._clockTime ?? fromMillis(Date.now())]; [now] is the wall clock. *)
Definition _getCurrentTime (now : Time) (s : Player) : Time :=
  default now (_clockTime s).

(** The function wrapped by [debouncePromise] in [_emitState]. *)
Definition emitState_fn (now : Time) : Js Player unit :=
  s ← get;
  if negb (_listener s) || _closed s then mret tt
  else
    match _providerTopics s, _providerDatatypes s, _start s with
    | Some providerTopics, Some providerDatatypes, Some start =>
        match _presence s with
        | PRESENT =>
            match _emitTimer s with
            | Some t => effect (clearTimeout t)
            | None => mret tt
            end;;
            modify (set_emitTimer (Some (next_timer s)));;
            modify (set_next_timer (next_timer s + 1));;
            effect (setTimeout_emitState (next_timer s))
        | _ => mret tt
        end;;
        let currentTime := _getCurrentTime now s in
        let messages := _parsedMessages s in
        modify (set_parsedMessages []);;
        effect (listener_call
          {| state_name := Some (_url s); filePath := None;
             presence := _presence s; progress := emptyProgress;
             capabilities := CAPABILITIES; playerId := _id s;
             problems := Some (JsMap.values (_problems s));
             urlState := Some (_url s);
             activeData := Some
               {| messages := messages;
                  totalBytesReceived := _receivedBytes s;
                  messageOrder := _messageOrder s;
                  startTime := start;
                  endTime := currentTime;
                  currentTime := currentTime;
                  isPlaying := true;
                  speed := QArith_base.Qmake 1 1;
                  lastSeekTime := 1;
                  topics := providerTopics;
                  datatypes := providerDatatypes;
                  publishedTopics := _publishedTopics s;
                  subscribedTopics := Some (_subscribedTopics s);
                  services := Some (_services s);
                  parsedMessageDefinitionsByTopic := None |} |})
    | _, _, _ =>
        effect (listener_call
          {| state_name := Some (_url s); filePath := None;
             presence := _presence s; progress := emptyProgress;
             capabilities := CAPABILITIES; playerId := _id s;
             activeData := None;
             problems := Some (JsMap.values (_problems s));
             urlState := Some (_url s) |})
    end.

(** Modelled from the spec: util/debouncePromise is not under src (see
    [RandomAccessPlayer._emitState]). *)
Definition _emitState (now : Time) : Js Player unit :=
  s ← get;
  if emit_currentPromise s then modify (set_emit_callPending true)
  else emitState_fn now;; modify (set_emit_currentPromise true).

Definition setListener (now : Time) : Js Player unit :=
  modify (set_listener true);;
  _emitState now.

Definition close : Js Player unit :=
  modify (set_closed true);;
  s ← get;
  match _rosClient s with
  | Some client => effect (ros_close client)
  | None => mret tt
  end;;
  match _emitTimer s with
  | Some t => effect (clearTimeout t);; modify (set_emitTimer None)
  | None => mret tt
  end;;
  effect (metrics metrics_close);;
  modify (set_hasReceivedMessage false).

(** [_addInternalSubscriptions] unshifts into the caller's array, which
    [_requestedSubscriptions] aliases. *)
Definition _addInternalSubscriptions (subscriptions : list SubscribePayload)
    : list SubscribePayload :=
  match List.find (fun sub => String.eqb (sub_topic sub) "/clock") subscriptions with
  | None => mkSubscribePayload "/clock" (Some "Ros1Player") :: subscriptions
  | Some _ => subscriptions
  end.

(** One round of the first [for] loop of [setSubscriptions]. *)
Definition subscribeTo (topicName : string) : Js Player unit :=
  s ← get;
  if JsMap.has topicName (_topicSubscriptions s) then mret tt
  else
    match List.find (fun t => String.eqb (name t) topicName) (default [] (_providerTopics s)) with
    | None => mret tt
    | Some availTopic =>
        match _messageReadersByDatatype s !! datatype availTopic with
        | None => mret tt
        | Some _ =>
            effect (topic_subscribe topicName);;
            modify (set_topicSubscriptions
                      (JsMap.set topicName (datatype availTopic) (_topicSubscriptions s)))
        end
    end.

(** One round of the second [for] loop of [setSubscriptions]. *)
Definition unsubscribeUnless (topicNames : list string) (topicName : string)
    : Js Player unit :=
  if negb (existsb (String.eqb topicName) topicNames) then
    effect (topic_unsubscribe topicName);;
    modify (fun s => set_topicSubscriptions (JsMap.delete topicName (_topicSubscriptions s)) s)
  else mret tt.

Fixpoint forEach {A} (f : A -> Js Player unit) (l : list A) : Js Player unit :=
  match l with
  | [] => mret tt
  | x :: l' => f x;; forEach f l'
  end.

Definition setSubscriptions (subscriptions : list SubscribePayload) : Js Player unit :=
  modify (set_requestedSubscriptions subscriptions);;
  s ← get;
  match _rosClient s with
  | None => mret tt
  | Some _ =>
      if _closed s then mret tt
      else
        let subscriptions := _addInternalSubscriptions subscriptions in
        modify (set_requestedSubscriptions subscriptions);;
        modify (set_parsedTopics (newSet (List.map sub_topic subscriptions)));;
        let topicNames :=
          List.filter
            (fun topicName =>
               existsb (fun t => String.eqb (name t) topicName)
                       (default [] (_providerTopics s)))
            (List.map sub_topic subscriptions) in
        forEach subscribeTo topicNames;;
        s ← get;
        forEach (unsubscribeUnless topicNames) (List.map fst (_topicSubscriptions s))
  end.

Definition _setupPublishers : Js Player unit :=
  s ← get;
  match _rosClient s with
  | None => mret tt
  | Some _ =>
      if (Z.of_nat (length (_advertisements s)) <=? 0) then mret tt
      else
        forEach
          (fun a => modify (fun s => set_topicPublishers
                                       (JsMap.set (adv_topic a) a (_topicPublishers s)) s))
          (_advertisements s)
  end.

Definition setPublishers (publishers : list AdvertiseOptions) : Js Player unit :=
  s ← get;
  forEach (fun kv => effect (publisher_unadvertise (fst kv))) (_topicPublishers s);;
  modify (set_topicPublishers []);;
  modify (set_advertisements publishers);;
  _setupPublishers.

Definition setParameter (_key : string) (_value : handle) : Js Player unit :=
  throw "Parameter editing is not supported by the Rosbridge connection".

Definition publish (payload : PublishPayload) : Js Player unit :=
  s ← get;
  match JsMap.get (pub_topic payload) (_topicPublishers s) with
  | None =>
      throw ("Tried to publish on a topic that is not registered as a publisher: "
             +:+ pub_topic payload)
  | Some _ => effect (publisher_publish (pub_topic payload) (pub_msg payload))
  end.

Definition startPlayback : Js Player unit := mret tt.
Definition pausePlayback : Js Player unit := mret tt.
Definition seekPlayback (_time : Time) : Js Player unit := mret tt.
Definition setPlaybackSpeed (_speedFraction : QArith_base.Q) : Js Player unit := mret tt.
Definition requestBackfill : Js Player unit := mret tt.

(** The handler given to [topic.subscribe] for [topicName]. The roslib
    message and the deserialiser are outside the engine: [byteLength] is
    the size of the received buffer, [msgSize] what a [LazyMessageReader]
    says the message needs, [innerMessage] what [readMessage] returns or
    throws, with the [clock] field when [isClockMessage] accepts it. *)
Definition onMessage (topicName : string) (reader : ReaderKind) (byteLength msgSize : Z)
    (innerMessage : outcome (handle * option Time)) (now : Time) : Js Player unit :=
  s ← get;
  match _providerTopics s with
  | None => mret tt
  | Some _ =>
      let problemId := "message:" +:+ topicName in
      if match reader with
         | LazyMessageReader => msgSize >? byteLength
         | ROS2MessageReader => false
         end
      then
        addProblem problemId
          {| severity := severity_error;
             problem_message := "Message buffer not large enough on " +:+ topicName;
             tip := None; error := Some "Cannot read message from buffer" |};;
        _emitState now
      else
        match innerMessage with
        | Throw e =>
            addProblem problemId
              {| severity := severity_error;
                 problem_message := "Failed to parse message on " +:+ topicName;
                 tip := None; error := Some e |}
        | Normal (innerMessage, clock) =>
            match clock with
            | Some time =>
                s ← get;
                when (match _clockTime s with None => true | Some _ => false end)
                  (modify (set_start (Some time)));;
                modify (set_clockTime (Some time))
            | None => mret tt
            end;;
            s ← get;
            let receiveTime := _getCurrentTime now s in
            when (negb (_hasReceivedMessage s))
              (modify (set_hasReceivedMessage true);;
               effect (metrics recordTimeToFirstMsgs));;
            when (existsb (String.eqb topicName) (_parsedTopics s))
              (modify (fun s => set_parsedMessages
                 (_parsedMessages s ++
                    [{| topic := topicName; receiveTime := receiveTime;
                        message := innerMessage;
                        sizeInBytes := Some byteLength |}]) s));;
            removeProblem problemId
        end;;
        _emitState now
  end.

End RosbridgePlayer.

(** ** McapReader *)
Module Mcap.

(** Modelled from the spec: the record types (./types) are not under src.
    A record is a tagged variant over the container's record kinds; the
    reader looks at the tag, and at [compression], [decompressedSize] and
    [data] of a chunk. *)
Inductive McapRecord : Type :=
| ChannelInfo (body : list byte)
| Message (body : list byte)
| IndexData (body : list byte)
| ChunkInfo (body : list byte)
| Chunk (compression : string) (decompressedSize : Z) (data : list byte)
| Footer (body : list byte).

Definition type (r : McapRecord) : string :=
  match r with
  | ChannelInfo _ => "ChannelInfo"
  | Message _ => "Message"
  | IndexData _ => "IndexData"
  | ChunkInfo _ => "ChunkInfo"
  | Chunk _ _ _ => "Chunk"
  | Footer _ => "Footer"
  end.

(** What [parseMagic] and [parseRecord] (./parse, not under src) return:
    a value with the number of bytes it took, or nothing and
    [usedBytes: 0] when the view does not hold a whole item yet. They
    throw on malformed input. *)
Inductive ParseResult (A : Type) : Type :=
| parsed (value : A) (usedBytes : nat)
| incomplete.
Arguments parsed {A} value usedBytes.
Arguments incomplete {A}.

Class Parse : Type := {
  parseMagic : list byte -> nat -> outcome (ParseResult unit);
  parseRecord : list byte -> nat -> outcome (ParseResult McapRecord)
}.

(** A call that may never return. *)
Inductive Returns (A : Type) : Type :=
| returns (a : A)
| hangs.
Arguments returns {A} a.
Arguments hangs {A}.

(** The points where the generator [read()] can be suspended. *)
Inductive Resume : Type :=
| AtLeadingMagic
| AtRecord
| AfterChunkRecord (record : McapRecord)
| InChunk (buffer : list byte) (chunkOffset usedBytes : nat)
| AtTrailingMagic (record : McapRecord)
| Completed.

(** [{value, done}] of [generator.next()]. *)
Inductive IteratorResult : Type :=
| yielded (value : option McapRecord)
| completed (value : option McapRecord).

Record McapReader : Type := mkMcapReader {
  storage : list byte;  (* ByteStorage: the bytes appended and not yet consumed *)
  decompressHandlers : gmap string (list byte -> Z -> outcome (list byte));
  includeChunks : bool;
  doneReading : bool;
  generator : Resume  (* where this.read() is suspended *)
}.

Definition set_storage (v : list byte) (s : McapReader) : McapReader :=
    mkMcapReader v (decompressHandlers s) (includeChunks s) (doneReading s)
     (generator s).
Definition set_doneReading (v : bool) (s : McapReader) : McapReader :=
    mkMcapReader (storage s) (decompressHandlers s) (includeChunks s) v
     (generator s).
Definition set_generator (v : Resume) (s : McapReader) : McapReader :=
    mkMcapReader (storage s) (decompressHandlers s) (includeChunks s)
     (doneReading s) v.

Definition new_McapReader (includeChunks : bool)
    (decompressHandlers : gmap string (list byte -> Z -> outcome (list byte)))
    : McapReader :=
  {| storage := []; decompressHandlers := decompressHandlers;
     includeChunks := includeChunks; doneReading := false;
     generator := AtLeadingMagic |}.

Definition done (r : McapReader) : bool := doneReading r.

Definition bytesRemaining (r : McapReader) : nat := length (storage r).

(** Modelled from the spec: ByteStorage is not under src. An append-only
    byte buffer with a read cursor: appending adds at the end, consuming
    takes from the front. *)
Definition storage_append (data : list byte) : Js McapReader unit :=
  modify (fun r => set_storage (storage r ++ data) r).

Definition storage_consume (n : nat) : Js McapReader unit :=
  modify (fun r => set_storage (drop n (storage r)) r).

Definition append (data : list byte) : Js McapReader unit :=
  r ← get;
  if doneReading r then throw "Already done reading"
  else storage_append data.

Definition suspend (at_ : Resume) (value : option McapRecord)
    : Js McapReader (Returns IteratorResult) :=
  modify (set_generator at_);;
  mret (returns (yielded value)).

Section read.
Context `{Parse}.

(** The [Footer] case, from its [while] loop on. *)
Definition read_trailing_magic (record : McapRecord)
    : Js McapReader (Returns IteratorResult) :=
  r ← get;
  m ← lift (parseMagic (storage r) 0);
  match m with
  | incomplete => suspend (AtTrailingMagic record) None
  | parsed _ usedBytes =>
      storage_consume usedBytes;;
      r ← get;
      if negb (Nat.eqb (bytesRemaining r) 0)
      then throw "bytes remaining after MCAP footer and trailing magic"
      else
        modify (set_generator Completed);;
        mret (returns (completed (Some record)))
  end.

(** The inner [for] loop of the [Chunk] case, entered with the loop
    variable at [chunkOffset]; [continue_] is the rest of [read()] after
    the [break]. *)
Definition read_chunk_records (continue_ : Js McapReader (Returns IteratorResult))
    (buffer : list byte) (chunkOffset : nat) : Js McapReader (Returns IteratorResult) :=
  chunkResult ← lift (parseRecord buffer chunkOffset);
  match chunkResult with
  | parsed record usedBytes =>
      match record with
      | Chunk _ _ _ | IndexData _ | ChunkInfo _ | Footer _ =>
          throw (type record +:+ " record not allowed inside a chunk")
      | ChannelInfo _ | Message _ =>
          suspend (InChunk buffer chunkOffset usedBytes) (Some record)
      end
  | incomplete =>
      if negb (Nat.eqb chunkOffset (length buffer))
      then throw "bytes remaining in chunk"
      else continue_
  end.

(** The [Chunk] case after [if (this.includeChunks) { yield record }]. *)
Definition read_chunk (continue_ : Js McapReader (Returns IteratorResult))
    (compression : string) (decompressedSize : Z) (data : list byte)
    : Js McapReader (Returns IteratorResult) :=
  r ← get;
  buffer ← (if negb (String.eqb compression "") then
              match decompressHandlers r !! compression with
              | None => throw ("Unsupported compression " +:+ compression)
              | Some decompress => lift (decompress data decompressedSize)
              end
            else mret data);
  read_chunk_records continue_ buffer 0.

(** The [for (;;)] loop, from its top, for at most [rounds] rounds
    without a yield. *)
Fixpoint read_records (rounds : nat) : Js McapReader (Returns IteratorResult) :=
  match rounds with
  | O => mret hangs
  | S rounds =>
      r ← get;
      p ← lift (parseRecord (storage r) 0);
      match p with
      | incomplete => suspend AtRecord None
      | parsed record usedBytes =>
          storage_consume usedBytes;;
          match record with
          | ChannelInfo _ | Message _ | IndexData _ | ChunkInfo _ =>
              suspend AtRecord (Some record)
          | Chunk compression decompressedSize data =>
              if includeChunks r then suspend (AfterChunkRecord record) (Some record)
              else read_chunk (read_records rounds) compression decompressedSize data
          | Footer _ => read_trailing_magic record
          end
      end
  end.

(** [read()] from its start: the leading magic, then the loop. *)
Definition read_leading_magic (rounds : nat) : Js McapReader (Returns IteratorResult) :=
  r ← get;
  m ← lift (parseMagic (storage r) 0);
  match m with
  | incomplete => suspend AtLeadingMagic None
  | parsed _ usedBytes =>
      storage_consume usedBytes;;
      read_records rounds
  end.

(** [read()] from the point where it is suspended, to its next [yield],
    its [return] or a throw. *)
Definition generator_body (rounds : nat) (r : McapReader)
    : Js McapReader (Returns IteratorResult) :=
  match generator r with
  | AtLeadingMagic => read_leading_magic rounds
  | AtRecord => read_records rounds
  | AfterChunkRecord (Chunk compression decompressedSize data) =>
      read_chunk (read_records rounds) compression decompressedSize data
  | AfterChunkRecord _ => read_records rounds
  | InChunk buffer chunkOffset usedBytes =>
      read_chunk_records (read_records rounds) buffer (chunkOffset + usedBytes)
  | AtTrailingMagic record => read_trailing_magic record
  | Completed => mret (returns (completed None))
  end.

(** [this.generator.next()]; a generator that threw or returned is
    completed. More than [length storage + 1] rounds without a yield
    means that one of them consumed nothing, and then the loop repeats
    it for ever. *)
Definition generator_next : Js McapReader (Returns IteratorResult) :=
  r ← get;
  try_catch
    (generator_body (S (S (length (storage r)))) r)
    (fun e => modify (set_generator Completed);; throw e).

Definition nextRecord : Js McapReader (Returns (option McapRecord)) :=
  r ← get;
  if doneReading r then mret (returns None)
  else
    result ← generator_next;
    match result with
    | hangs => mret hangs
    | returns (yielded value) => mret (returns value)
    | returns (completed value) =>
        modify (set_doneReading true);;
        mret (returns value)
    end.

(** *** Using the reader

    A consumer appends what it received and takes records until the
    reader asks for more bytes; it stops feeding once the reader is
    done. *)

(** Call [nextRecord] until it returns [undefined], at most [calls]
    times; the records returned, in order. *)
Fixpoint readAll (calls : nat) : Js McapReader (Returns (list McapRecord)) :=
  match calls with
  | O => mret (returns [])
  | S calls =>
      v ← nextRecord;
      match v with
      | hangs => mret hangs
      | returns None => mret (returns [])
      | returns (Some record) =>
          rest ← readAll calls;
          mret (match rest with
                | hangs => hangs
                | returns records => returns (record :: records)
                end)
      end
  end.

Fixpoint feed (calls : nat) (fragments : list (list byte))
    : Js McapReader (Returns (list McapRecord)) :=
  match fragments with
  | [] => mret (returns [])
  | fragment :: fragments =>
      r ← get;
      if done r then mret (returns [])
      else
        append fragment;;
        here ← readAll calls;
        match here with
        | hangs => mret hangs
        | returns records =>
            rest ← feed calls fragments;
            mret (match rest with
                  | hangs => hangs
                  | returns more => returns (records ++ more)
                  end)
        end
  end.

End read.

End Mcap.

(** ** A byte format for the reader

    Modelled from the spec: ./parse and ./constants are not under src.
    The container has a fixed magic at both ends; every record is
    self-describing: a type tag, a length prefix, the payload. A chunk's
    payload carries the compression name, the decompressed size and the
    data. Lengths are little-endian, four bytes wide (eight for the
    decompressed size). *)
Module Wire.
Import Mcap.

Definition MCAP_MAGIC : list byte := [x89; x4d; x43; x41; x50; x30; x0d; x0a].

#[global] Instance byte_eq_dec : EqDecision byte := Byte.byte_eq_dec.

Definition nat_of_byte (b : byte) : nat := Byte.to_nat b.

Definition byte_of_nat (n : nat) : byte :=
  default x00 (Byte.of_nat (n mod 256)).

Fixpoint le_decode (bs : list byte) : nat :=
  match bs with
  | [] => 0
  | b :: bs => nat_of_byte b + 256 * le_decode bs
  end.

Fixpoint le_encode (width n : nat) : list byte :=
  match width with
  | O => []
  | S width => byte_of_nat n :: le_encode width (n / 256)
  end.

Definition tag (r : McapRecord) : byte :=
  match r with
  | ChannelInfo _ => x01
  | Message _ => x02
  | Chunk _ _ _ => x03
  | IndexData _ => x04
  | ChunkInfo _ => x05
  | Footer _ => x06
  end.

Definition payload (r : McapRecord) : list byte :=
  match r with
  | ChannelInfo body | Message body | IndexData body | ChunkInfo body | Footer body => body
  | Chunk compression decompressedSize data =>
      le_encode 4 (length (list_byte_of_string compression))
      ++ list_byte_of_string compression
      ++ le_encode 8 (Z.to_nat decompressedSize)
      ++ data
  end.

Definition encode (r : McapRecord) : list byte :=
  tag r :: le_encode 4 (length (payload r)) ++ payload r.

Definition decode (tag : byte) (payload : list byte) : outcome McapRecord :=
  match tag with
  | x01 => Normal (ChannelInfo payload)
  | x02 => Normal (Message payload)
  | x03 =>
      let nameLength := le_decode (take 4 payload) in
      let name := take nameLength (drop 4 payload) in
      let size := take 8 (drop (4 + nameLength) payload) in
      if (length payload <? 4 + nameLength + 8)%nat
      then Throw "Chunk record is too short"
      else Normal (Chunk (string_of_list_byte name) (Z.of_nat (le_decode size))
                         (drop (4 + nameLength + 8) payload))
  | x04 => Normal (IndexData payload)
  | x05 => Normal (ChunkInfo payload)
  | x06 => Normal (Footer payload)
  | _ => Throw "Invalid record type"
  end.

Definition wire_parseMagic (view : list byte) (startOffset : nat)
    : outcome (ParseResult unit) :=
  if (length view <? startOffset + length MCAP_MAGIC)%nat then Normal incomplete
  else if bool_decide (take (length MCAP_MAGIC) (drop startOffset view) = MCAP_MAGIC)
  then Normal (parsed tt (length MCAP_MAGIC))
  else Throw "Expected MCAP magic".

Definition wire_parseRecord (view : list byte) (startOffset : nat)
    : outcome (ParseResult McapRecord) :=
  match drop startOffset view with
  | tag :: l0 :: l1 :: l2 :: l3 :: rest =>
      let recordLength := le_decode [l0; l1; l2; l3] in
      if (length rest <? recordLength)%nat then Normal incomplete
      else
        match decode tag (take recordLength rest) with
        | Normal record => Normal (parsed record (5 + recordLength))
        | Throw e => Throw e
        end
  | _ => Normal incomplete
  end.

#[global] Instance wire_parse : Parse :=
  {| parseMagic := wire_parseMagic; parseRecord := wire_parseRecord |}.

(** A record the format can carry: its lengths fit their prefixes. *)
Definition encodable (r : McapRecord) : Prop :=
  (Z.of_nat (length (payload r)) < 2 ^ 32)%Z /\
  match r with
  | Chunk compression decompressedSize _ =>
      (Z.of_nat (length (list_byte_of_string compression)) < 2 ^ 32)%Z /\
      (0 <= decompressedSize < 2 ^ 64)%Z
  | _ => True
  end.

(** [bytes] is the encoding of [r]. *)
Definition wire (r : McapRecord) (bytes : list byte) : Prop :=
  encodable r /\ bytes = encode r.

End Wire.

(** ** Notions used to state the properties *)
Module Playback.
Import RandomAccessPlayer.


(** [startTime <= currentTime <= endTime] in a state that carries
    [activeData]. *)
Definition within_bounds (st : PlayerState) : Prop :=
  forall ad, activeData st = Some ad ->
    le (startTime ad) (currentTime ad) /\ le (currentTime ad) (endTime ad).

(** The provider reports a range: its start is not after its end. *)
Definition ordered_bounds (e : Event) : Prop :=
  match e with
  | on_initialize_settled (Normal r) _ => le (init_start r) (init_end r)
  | _ => True
  end.



(** A tick in flight reads a window that ends at or after the cursor. *)
Definition tick_in_order (s : Player) : Prop :=
  match readTask s with
  | TickAwaitingRead f _ | TickAwaitingEmit f _ =>
      le (_nextReadStartTime s) (tick_end f) /\ valid (tick_end f)
  | _ => True
  end.

(** Each time is not after the next one. *)
Inductive nondecreasing : list Time -> Prop :=
| nondecreasing_nil : nondecreasing []
| nondecreasing_one t : nondecreasing [t]
| nondecreasing_cons t u l :
    le t u -> nondecreasing (u :: l) -> nondecreasing (t :: u :: l).

(** The public operations of the [Player] contract. *)
Inductive Operation : Type :=
| op_setListener
| op_close
| op_setSubscriptions (subscriptions : list SubscribePayload)
| op_setPublishers (publishers : list AdvertiseOptions)
| op_setPlaybackSpeed (speed : QArith_base.Q)
| op_startPlayback
| op_pausePlayback
| op_seekPlayback (time : Time) (backfillDuration : option Time)
| op_setParameter (key : string) (value : handle)
| op_publish (payload : PublishPayload).

(** [now] is the wall clock the operation reads, if it does. *)
Definition invoke (op : Operation) (now : Z) : Js Player unit :=
  match op with
  | op_setListener => setListener
  | op_close => close
  | op_setSubscriptions subs => setSubscriptions subs
  | op_setPublishers pubs => setPublishers pubs
  | op_setPlaybackSpeed speed => setPlaybackSpeed speed
  | op_startPlayback => startPlayback
  | op_pausePlayback => pausePlayback
  | op_seekPlayback time backfillDuration => seekPlayback time backfillDuration now
  | op_setParameter key value => setParameter key value
  | op_publish payload => publish payload
  end.

Definition invoke_rosbridge (op : Operation) (now : Time) : Js RosbridgePlayer.Player unit :=
  match op with
  | op_setListener => RosbridgePlayer.setListener now
  | op_close => RosbridgePlayer.close
  | op_setSubscriptions subs => RosbridgePlayer.setSubscriptions subs
  | op_setPublishers pubs => RosbridgePlayer.setPublishers pubs
  | op_setPlaybackSpeed speed => RosbridgePlayer.setPlaybackSpeed speed
  | op_startPlayback => RosbridgePlayer.startPlayback
  | op_pausePlayback => RosbridgePlayer.pausePlayback
  | op_seekPlayback time _ => RosbridgePlayer.seekPlayback time
  | op_setParameter key value => RosbridgePlayer.setParameter key value
  | op_publish payload => RosbridgePlayer.publish payload
  end.

(** Does the operation throw by design? *)
Definition unsupported (op : Operation) : bool :=
  match op with
  | op_setParameter _ _ | op_publish _ => true
  | _ => false
  end.

End Playback.

Module Decoding.
Import Mcap.

(** What a consumer can do with a reader. *)
Inductive Action : Type :=
| do_append (data : list byte)
| do_nextRecord.

Section reader.
Context `{Parse}.

(** The records a reader returns over a sequence of actions, whatever
    throws on the way. *)
Fixpoint records_of (actions : list Action) (r : McapReader) : list McapRecord :=
  match actions with
  | [] => []
  | do_append data :: actions => records_of actions (snd (append data r))
  | do_nextRecord :: actions =>
      match nextRecord r with
      | (Normal (returns (Some record)), r') => record :: records_of actions r'
      | (_, r') => records_of actions r'
      end
  end.

(** The only records allowed inside a chunk. *)
Definition allowed_in_chunk (r : McapRecord) : bool :=
  match r with
  | ChannelInfo _ | Message _ => true
  | _ => false
  end.

(** The records the reader passes on as they are. *)
Definition plain (r : McapRecord) : bool :=
  match r with
  | ChannelInfo _ | Message _ | IndexData _ | ChunkInfo _ => true
  | _ => false
  end.

(** The payload of a chunk, decompressed by the registered handler. *)
Definition decompressed (handlers : gmap string (list byte -> Z -> outcome (list byte)))
    (compression : string) (decompressedSize : Z) (data : list byte)
    : option (list byte) :=
  if String.eqb compression "" then Some data
  else match handlers !! compression with
       | Some decompress =>
           match decompress data decompressedSize with
           | Normal buffer => Some buffer
           | Throw _ => None
           end
       | None => None
       end.


(** *** Well-formed files

    [wire r bytes]: [bytes] is an encoding of [r]. The parsers resume:
    on a whole item they return it with its length, whatever follows;
    on a proper beginning of one they ask for more. *)
Section files.
Variables (MAGIC : list byte) (wire : McapRecord -> list byte -> Prop).

Definition beginning (p whole : list byte) : Prop :=
  exists rest, rest <> [] /\ whole = p ++ rest.

Record Resumable : Prop := {
  magic_whole : forall rest,
    parseMagic (MAGIC ++ rest) 0 = Normal (parsed tt (length MAGIC));
  magic_beginning : forall p,
    beginning p MAGIC -> parseMagic p 0 = Normal incomplete;
  record_whole : forall r bytes before rest,
    wire r bytes ->
    parseRecord (before ++ bytes ++ rest) (length before)
      = Normal (parsed r (length bytes));
  record_beginning : forall r bytes p,
    wire r bytes -> beginning p bytes -> parseRecord p 0 = Normal incomplete;
  record_end : forall view, parseRecord view (length view) = Normal incomplete;
  wire_nonempty : forall r bytes, wire r bytes -> bytes <> []
}.

Variables (includeChunks_ : bool)
  (handlers : gmap string (list byte -> Z -> outcome (list byte))).

(** A top-level record of a file, its bytes, and what the reader
    returns for it: itself, or for a chunk its nested records (after the
    chunk itself when chunks are included). *)
Inductive item : McapRecord -> list byte -> list McapRecord -> Prop :=
| item_plain r bytes :
    plain r = true -> wire r bytes -> item r bytes [r]
| item_chunk compression decompressedSize data bytes buffer nested nestedBytes :
    wire (Chunk compression decompressedSize data) bytes ->
    decompressed handlers compression decompressedSize data = Some buffer ->
    Forall2 wire nested nestedBytes ->
    buffer = concat nestedBytes ->
    Forall (fun r => allowed_in_chunk r = true) nested ->
    item (Chunk compression decompressedSize data) bytes
      ((if includeChunks_ then [Chunk compression decompressedSize data] else [])
       ++ nested).

(** The items of a file: record, bytes, records returned. *)
Definition Items : Type := list (McapRecord * list byte * list McapRecord).

Definition well_formed (items : Items) : Prop :=
  Forall (fun i => item i.1.1 i.1.2 i.2) items.

Definition items_bytes (items : Items) : list byte := concat (List.map (fun i => i.1.2) items).

Definition items_records (items : Items) : list McapRecord :=
  concat (List.map (fun i => i.2) items).

(** [magic] [records] [footer] [magic]. *)
Definition file (items : Items) (footerBytes : list byte) : list byte :=
  MAGIC ++ items_bytes items ++ footerBytes ++ MAGIC.

End files.

End reader.

End Decoding.

(** ** A session used in the examples

    An engine over a ten-second bag with one topic, [/a]; the listener is
    registered, the provider initialises, [/a] is subscribed, playback is
    sought to 5s and started, and the first tick is reading
    [5s+1ns, 5.1s+1ns]. *)
Module Session.
Import RandomAccessPlayer.

Definition fresh : Player :=
  new_Player (Some "demo.bag") None "player" (fun start _ => start) 1000.

Definition bag : InitializationResult :=
  {| init_start := mkTime 0 0; init_end := mkTime 10 0;
     init_topics := [mkTopic "/a" "std_msgs/String"];
     init_connections := [mkConnection "/a" "/talker"];
     messageDefinitions := parsed_definitions 1 2;
     providesParsedMessages := true |}.

(** A message of the provider: 10 bytes on [/a]. *)
Definition message_a : MessageEvent :=
  {| topic := "/a"; receiveTime := mkTime 5 50; message := 77; sizeInBytes := Some 10 |}.

(** The same message as the engine passes it on. *)
Definition delivered_a : MessageEvent :=
  {| topic := "/a"; receiveTime := mkTime 5 50; message := 77; sizeInBytes := None |}.

Definition opening : list Event :=
  [ call_setListener; on_emit_settled;
    on_initialize_settled (Normal bag) 1001;
    call_setSubscriptions [mkSubscribePayload "/a" None];
    on_backfill_settled (resolved (Some [])) 1002; on_emit_settled;
    call_seekPlayback (mkTime 5 0) None 1003;
    on_backfill_settled (resolved (Some [])) 1004; on_emit_settled ].

(** Initialised, paused at 5s. *)
Definition ready : Player := run opening fresh.

(** Playing, with the first tick's read in flight. *)
Definition reading : Player :=
  run [call_startPlayback; on_emit_settled; on_read_wake (mkTime 0 100000000)] ready.

(** The read of the tick in flight completes with [message_a]. *)
Definition tick_completes : list Event :=
  [on_tick_read_settled (resolved (Some [message_a])); on_tick_emit_awaited].

(** A seek to 1s arrives while the tick reads. *)
Definition sought : Player := run [call_seekPlayback (mkTime 1 0) None 1005] reading.

(** Playback is paused while the tick reads, and the read completes. *)
Definition paused : Player :=
  run [call_pausePlayback; on_tick_read_settled (resolved (Some [message_a]))] reading.

(** The frame of the tick in flight in [reading]. *)
Definition frame : TickFrame := mkTickFrame 1000 (mkTime 5 1) (mkTime 5 100000001).



(** A live engine, connected, with [/a] known and subscribed. *)
Definition live : RosbridgePlayer.Player :=
  {| RosbridgePlayer._url := "ws://localhost:9090";
     RosbridgePlayer._rosClient := Some 1;
     RosbridgePlayer._id := "live";
     RosbridgePlayer._listener := true;
     RosbridgePlayer._closed := false;
     RosbridgePlayer._providerTopics := Some [mkTopic "/a" "std_msgs/String"];
     RosbridgePlayer._providerDatatypes := Some 1;
     RosbridgePlayer._publishedTopics := ∅;
     RosbridgePlayer._subscribedTopics := ∅;
     RosbridgePlayer._services := ∅;
     RosbridgePlayer._messageReadersByDatatype :=
       {["std_msgs/String" := RosbridgePlayer.LazyMessageReader]};
     RosbridgePlayer._start := Some (mkTime 100 0);
     RosbridgePlayer._clockTime := None;
     RosbridgePlayer._topicSubscriptions := [("/a", "std_msgs/String")];
     RosbridgePlayer._requestedSubscriptions := [mkSubscribePayload "/a" None];
     RosbridgePlayer._parsedMessages := [];
     RosbridgePlayer._messageOrder := "receiveTime";
     RosbridgePlayer._requestTopicsTimeout := None;
     RosbridgePlayer._topicPublishers := [];
     RosbridgePlayer._advertisements := [];
     RosbridgePlayer._parsedTopics := ["/clock"; "/a"];
     RosbridgePlayer._receivedBytes := 0;
     RosbridgePlayer._hasReceivedMessage := false;
     RosbridgePlayer._presence := PRESENT;
     RosbridgePlayer._problems := [];
     RosbridgePlayer._emitTimer := Some 7;
     RosbridgePlayer.next_timer := 8;
     RosbridgePlayer.emit_currentPromise := true;
     RosbridgePlayer.emit_callPending := false;
     RosbridgePlayer.effects := [] |}.

End Session.

(** ** Captures used in the examples

    Two small files in the byte format above: one with a channel-info
    and a message at top level, one that carries them (message first)
    inside an uncompressed chunk. *)
Module Capture.
Import Mcap Decoding Wire.

Definition channelInfo : McapRecord := ChannelInfo [x0a; x0b].
Definition msg : McapRecord := Message [x01; x02; x03].
Definition footer_body : list byte := [x00; x00; x00; x00].
Definition footer : McapRecord := Footer footer_body.
Definition chunk : McapRecord := Chunk "" 0 (encode msg ++ encode channelInfo).

(** [magic] [channel-info] [message] [footer] [magic] *)
Definition flat_items : Items :=
  [ (channelInfo, encode channelInfo, [channelInfo]); (msg, encode msg, [msg]) ].

Definition flat_file : list byte :=
  MCAP_MAGIC ++ encode channelInfo ++ encode msg ++ encode footer ++ MCAP_MAGIC.

(** [magic] [chunk: message, channel-info] [footer] [magic] *)
Definition chunked_items (includeChunks : bool) : Items :=
  [ (chunk, encode chunk, (if includeChunks then [chunk] else []) ++ [msg; channelInfo]) ].

Definition chunked_file : list byte :=
  MCAP_MAGIC ++ encode chunk ++ encode footer ++ MCAP_MAGIC.

(** One fragment per byte. *)
Definition bytewise (bytes : list byte) : list (list byte) :=
  List.map (fun b => [b]) bytes.

(** Fragments of at most [S n] bytes. *)
Definition pieces (n : nat) (bytes : list byte) : list (list byte) :=
  (fix cut (fuel : nat) (bytes : list byte) : list (list byte) :=
     match fuel, bytes with
     | S fuel, _ :: _ => take (S n) bytes :: cut fuel (drop (S n) bytes)
     | _, _ => []
     end) (length bytes) bytes.

Definition fresh (includeChunks : bool) : McapReader := new_McapReader includeChunks ∅.

(** A reader that received eight bytes that are not the magic. *)
Definition misled : McapReader :=
  snd (append [x89; x4d; x43; x41; x50; x31; x0d; x0a] (fresh false)).

(** Files the reader must reject: a byte after the trailing magic, a
    footer inside a chunk, a chunk compressed with an unknown scheme. *)
Definition overlong_file : list byte := flat_file ++ [x00].

Definition nesting_file : list byte :=
  MCAP_MAGIC ++ encode (Chunk "" 0 (encode msg ++ encode footer))
  ++ encode footer ++ MCAP_MAGIC.

Definition lz4_file : list byte :=
  MCAP_MAGIC ++ encode (Chunk "lz4" 3 [x01; x02]) ++ encode footer ++ MCAP_MAGIC.

(** The magic and a message, then a byte that is no record type. *)
Definition tattered_file : list byte :=
  MCAP_MAGIC ++ encode msg ++ [xff; x00; x00; x00; x00].

(** A reader that has returned the message of [tattered_file]. *)
Definition tattered : McapReader :=
  snd (nextRecord (snd (append tattered_file (fresh false)))).

End Capture.

(** ** RosbridgePlayer: the connection and the topic list

    The parts of the live engine outside the [Player] contract: opening
    the connection and its three handlers, the periodic request for the
    server's topics, and the node graph. The record [Live] adds to the
    engine the calls these parts make on roslib and on timers. *)
Module RosbridgeConnection.
Import RosbridgePlayer.
Import RandomAccessPlayer(SubscribePayload, mkSubscribePayload, sub_topic, requester,
  AdvertiseOptions, mkAdvertiseOptions, adv_topic, adv_datatype,
  PublishPayload, mkPublishPayload, pub_topic, pub_msg, newSet).

Definition set_providerTopics (v : option (list Topic)) (s : Player) : Player :=
  mkPlayer (_url s) (_rosClient s) (_id s) (_listener s) (_closed s) v
    (_providerDatatypes s) (_publishedTopics s) (_subscribedTopics s)
    (_services s) (_messageReadersByDatatype s) (_start s) (_clockTime s)
    (_topicSubscriptions s) (_requestedSubscriptions s) (_parsedMessages s)
    (_messageOrder s) (_requestTopicsTimeout s) (_topicPublishers s)
    (_advertisements s) (_parsedTopics s) (_receivedBytes s)
    (_hasReceivedMessage s) (_presence s) (_problems s) (_emitTimer s)
    (next_timer s) (emit_currentPromise s) (emit_callPending s) (effects s).

Definition set_providerDatatypes (v : option handle) (s : Player) : Player :=
  mkPlayer (_url s) (_rosClient s) (_id s) (_listener s) (_closed s)
    (_providerTopics s) v (_publishedTopics s) (_subscribedTopics s)
    (_services s) (_messageReadersByDatatype s) (_start s) (_clockTime s)
    (_topicSubscriptions s) (_requestedSubscriptions s) (_parsedMessages s)
    (_messageOrder s) (_requestTopicsTimeout s) (_topicPublishers s)
    (_advertisements s) (_parsedTopics s) (_receivedBytes s)
    (_hasReceivedMessage s) (_presence s) (_problems s) (_emitTimer s)
    (next_timer s) (emit_currentPromise s) (emit_callPending s) (effects s).

Definition set_publishedTopics (v : gmap string (gset string)) (s : Player) : Player :=
  mkPlayer (_url s) (_rosClient s) (_id s) (_listener s) (_closed s)
    (_providerTopics s) (_providerDatatypes s) v (_subscribedTopics s)
    (_services s) (_messageReadersByDatatype s) (_start s) (_clockTime s)
    (_topicSubscriptions s) (_requestedSubscriptions s) (_parsedMessages s)
    (_messageOrder s) (_requestTopicsTimeout s) (_topicPublishers s)
    (_advertisements s) (_parsedTopics s) (_receivedBytes s)
    (_hasReceivedMessage s) (_presence s) (_problems s) (_emitTimer s)
    (next_timer s) (emit_currentPromise s) (emit_callPending s) (effects s).

Definition set_subscribedTopics (v : gmap string (gset string)) (s : Player) : Player :=
  mkPlayer (_url s) (_rosClient s) (_id s) (_listener s) (_closed s)
    (_providerTopics s) (_providerDatatypes s) (_publishedTopics s) v
    (_services s) (_messageReadersByDatatype s) (_start s) (_clockTime s)
    (_topicSubscriptions s) (_requestedSubscriptions s) (_parsedMessages s)
    (_messageOrder s) (_requestTopicsTimeout s) (_topicPublishers s)
    (_advertisements s) (_parsedTopics s) (_receivedBytes s)
    (_hasReceivedMessage s) (_presence s) (_problems s) (_emitTimer s)
    (next_timer s) (emit_currentPromise s) (emit_callPending s) (effects s).

Definition set_services (v : gmap string (gset string)) (s : Player) : Player :=
  mkPlayer (_url s) (_rosClient s) (_id s) (_listener s) (_closed s)
    (_providerTopics s) (_providerDatatypes s) (_publishedTopics s)
    (_subscribedTopics s) v (_messageReadersByDatatype s) (_start s)
    (_clockTime s) (_topicSubscriptions s) (_requestedSubscriptions s)
    (_parsedMessages s) (_messageOrder s) (_requestTopicsTimeout s)
    (_topicPublishers s) (_advertisements s) (_parsedTopics s)
    (_receivedBytes s) (_hasReceivedMessage s) (_presence s) (_problems s)
    (_emitTimer s) (next_timer s) (emit_currentPromise s) (emit_callPending s)
    (effects s).

Definition set_messageReadersByDatatype (v : gmap string ReaderKind) (s : Player) : Player :=
  mkPlayer (_url s) (_rosClient s) (_id s) (_listener s) (_closed s)
    (_providerTopics s) (_providerDatatypes s) (_publishedTopics s)
    (_subscribedTopics s) (_services s) v (_start s) (_clockTime s)
    (_topicSubscriptions s) (_requestedSubscriptions s) (_parsedMessages s)
    (_messageOrder s) (_requestTopicsTimeout s) (_topicPublishers s)
    (_advertisements s) (_parsedTopics s) (_receivedBytes s)
    (_hasReceivedMessage s) (_presence s) (_problems s) (_emitTimer s)
    (next_timer s) (emit_currentPromise s) (emit_callPending s) (effects s).

Definition set_requestTopicsTimeout (v : option handle) (s : Player) : Player :=
  mkPlayer (_url s) (_rosClient s) (_id s) (_listener s) (_closed s)
    (_providerTopics s) (_providerDatatypes s) (_publishedTopics s)
    (_subscribedTopics s) (_services s) (_messageReadersByDatatype s)
    (_start s) (_clockTime s) (_topicSubscriptions s)
    (_requestedSubscriptions s) (_parsedMessages s) (_messageOrder s) v
    (_topicPublishers s) (_advertisements s) (_parsedTopics s)
    (_receivedBytes s) (_hasReceivedMessage s) (_presence s) (_problems s)
    (_emitTimer s) (next_timer s) (emit_currentPromise s) (emit_callPending s)
    (effects s).

Inductive Call : Type :=
| new_Ros (client : handle)
| ros_getTopicsAndRawTypes (client : handle)
| ros_getNodes (client : handle)
| setTimeout_open (timer : handle)
| setTimeout_requestTopics (timer : handle)
| setTimeout_stallWarning (timer : handle)
| unhandled_rejection (message : string).

Record Live : Type := mkLive {
  player : Player;
  calls : list Call  (* oldest first *)
}.

(** A method of the engine, run on the engine inside [Live]. *)
Definition in_player {A} (m : Js Player A) : Js Live A :=
  fun l => let '(o, p) := m (player l) in (o, mkLive p (calls l)).

Definition call (c : Call) : Js Live unit :=
  modify (fun l => mkLive (player l) (calls l ++ [c])).

(** The handle [setTimeout] returns. *)
Definition fresh_timer : Js Player handle :=
  s ← get;
  modify (set_next_timer (next_timer s + 1));;
  mret (next_timer s).

(** An exception that leaves an async function or a callback nobody
    awaits. *)
Definition detached (m : Js Live unit) : Js Live unit :=
  try_catch m (fun e => call (unhandled_rejection e)).

(** Modelled from the spec: players/PlayerProblemManager is not under
    src. [removeProblems] drops the problems whose id the predicate
    accepts. *)
Definition removeProblems (predicate : string -> bool) : Js Player unit :=
  modify (fun s => set_problems
                     (List.filter (fun kv => negb (predicate (fst kv))) (_problems s)) s).

(** Modelled from the spec: util/debouncePromise is not under src (see
    [RandomAccessPlayer.emitState_settled]). *)
Definition emitState_settled (now : Time) : Js Player unit :=
  modify (set_emit_currentPromise false);;
  s ← get;
  when (emit_callPending s)
    (modify (set_emit_callPending false);;
     emitState_fn now;; modify (set_emit_currentPromise true)).

(** *** [_open] and the handlers it registers

    [client] is the [roslib.Ros] object the call creates. *)
Definition _open (client : handle) : Js Live unit :=
  l ← get;
  if _closed (player l) then mret tt
  else
    match _rosClient (player l) with
    | Some _ => throw "Attempted to open a second Rosbridge connection"
    | None =>
        in_player (removeProblem "rosbridge:connection-failed");;
        call (new_Ros client)
    end.

(** The locals of [_requestTopics] that live across its awaits. *)
Record TopicsFrame : Type := mkTopicsFrame {
  forceUpdate : bool;
  frame_client : handle;
  topicsStallWarningTimeout : handle
}.

(** [_requestTopics] up to [await ... getTopicsAndRawTypes]; [None]: it
    returned before asking. *)
Definition requestTopics_begin (forceUpdate : bool) : Js Live (option TopicsFrame) :=
  in_player (removeProblems (String.prefix "requestTopics:"));;
  l ← get;
  match _requestTopicsTimeout (player l) with
  | Some t => in_player (effect (clearTimeout t))
  | None => mret tt
  end;;
  match _rosClient (player l) with
  | None => mret None
  | Some rosClient =>
      if _closed (player l) then mret None
      else
        timer ← in_player fresh_timer;
        call (setTimeout_stallWarning timer);;
        call (ros_getTopicsAndRawTypes rosClient);;
        mret (Some (mkTopicsFrame forceUpdate rosClient timer))
  end.

(** The 5 s warning set up by [_requestTopics]. *)
Definition stallWarning (now : Time) : Js Player unit :=
  addProblem "topicsAndRawTypesTimeout"
    {| severity := severity_warn;
       problem_message := "Taking too long to get topics and raw types.";
       tip := None; error := None |};;
  _emitState now.

(** The handler of the client's [connection] event. *)
Definition on_connection (client : handle) : Js Live (option TopicsFrame) :=
  l ← get;
  if _closed (player l) then mret None
  else
    in_player
      (modify (set_presence PRESENT);;
       removeProblem "rosbridge:connection-failed";;
       modify (set_rosClient (Some client));;
       _setupPublishers);;
    requestTopics_begin true.

(** The handler of the client's [error] event; [err] is [None] when the
    event carries nothing. *)
Definition on_error (err : option string) (now : Time) : Js Player unit :=
  match err with
  | Some e =>
      addProblem "rosbridge:error"
        {| severity := severity_warn; problem_message := "Rosbridge error";
           tip := None; error := Some e |};;
      _emitState now
  | None => mret tt
  end.

(** The handler of the client's [close] event. *)
Definition on_close (client : handle) (now : Time) : Js Live unit :=
  in_player
    (modify (set_presence RECONNECTING);;
     s ← get;
     match _requestTopicsTimeout s with
     | Some t => effect (clearTimeout t)
     | None => mret tt
     end;;
     forEach
       (fun kv =>
          effect (topic_unsubscribe (fst kv));;
          modify (fun s => set_topicSubscriptions
                             (JsMap.delete (fst kv) (_topicSubscriptions s)) s))
       (_topicSubscriptions s);;
     effect (ros_close client);;
     modify (set_rosClient None);;
     addProblem "rosbridge:connection-failed"
       {| severity := severity_error; problem_message := "Connection failed";
          tip := Some ("Check that the rosbridge WebSocket server at " +:+ _url s
                       +:+ " is reachable.");
          error := None |};;
     _emitState now);;
  timer ← in_player fresh_timer;
  call (setTimeout_open timer).

(** *** The topic list *)

Record TopicsResult : Type := mkTopicsResult {
  res_topics : list string;
  res_types : list string;
  typedefs_full_text : list string
}.

(** What [_requestTopics] gathers in its loop over the topics. *)
Record Collected : Type := mkCollected {
  c_topics : list Topic;
  c_datatypeDescriptions : list (string * string);
  c_messageReaders : gmap string ReaderKind;
  c_topicsMissingDatatypes : list string
}.

Definition nothing_collected : Collected := mkCollected [] [] ∅ [].

Section topics.
(** @foxglove/rosmsg's [parse] followed by the reader's constructor, and
    [bagConnectionsToDatatypes]: external, and they may throw. *)
Variable parseMessageDefinition : string -> bool -> outcome handle.
Variable bagConnectionsToDatatypes : list (string * string) -> bool -> outcome handle.

(** The loop [for (let i = 0; i < result.topics.length; i++)], from
    index [i] on. *)
Fixpoint collect (ros2 : bool) (types definitions : list string) (i : nat)
    (names : list string) (acc : Collected) : outcome Collected :=
  match names with
  | [] => Normal acc
  | topicName :: names =>
      match types !! i, definitions !! i with
      | Some type, Some messageDefinition =>
          match parseMessageDefinition messageDefinition ros2 with
          | Throw e => Throw e
          | Normal _ =>
              collect ros2 types definitions (S i) names
                {| c_topics := c_topics acc ++ [mkTopic topicName type];
                   c_datatypeDescriptions :=
                     c_datatypeDescriptions acc ++ [(type, messageDefinition)];
                   c_messageReaders :=
                     match c_messageReaders acc !! type with
                     | Some _ => c_messageReaders acc
                     | None =>
                         <[type := if ros2 then ROS2MessageReader else LazyMessageReader]>
                           (c_messageReaders acc)
                     end;
                   c_topicsMissingDatatypes := c_topicsMissingDatatypes acc |}
          end
      | _, _ =>
          collect ros2 types definitions (S i) names
            {| c_topics := c_topics acc;
               c_datatypeDescriptions := c_datatypeDescriptions acc;
               c_messageReaders := c_messageReaders acc;
               c_topicsMissingDatatypes := c_topicsMissingDatatypes acc ++ [topicName] |}
      end
  end.

(** lodash's [sortBy(topics, "name")]: ascending by name, stable. *)
Fixpoint insert_by_name (t : Topic) (l : list Topic) : list Topic :=
  match l with
  | [] => [t]
  | u :: l' => if String.leb (name t) (name u) then t :: l else u :: insert_by_name t l'
  end.

Definition sortBy_name (l : list Topic) : list Topic := fold_right insert_by_name [] l.

(** lodash's [isEqual] on a topic list and [_providerTopics]. *)
Definition topic_eqb (a b : Topic) : bool :=
  String.eqb (name a) (name b) && String.eqb (datatype a) (datatype b).

Fixpoint topics_eqb (a b : list Topic) : bool :=
  match a, b with
  | [], [] => true
  | x :: a, y :: b => topic_eqb x y && topics_eqb a b
  | _, _ => false
  end.

Definition isEqual (a : list Topic) (b : option (list Topic)) : bool :=
  match b with
  | Some b => topics_eqb a b
  | None => false
  end.

(** [array.join(",")] *)
Fixpoint join (l : list string) : string :=
  match l with
  | [] => ""
  | [x] => x
  | x :: l => x +:+ "," +:+ join l
  end.

(** The [try] block of [_requestTopics] from the point where the topics
    arrive, up to [await this._getSystemState()]. [true]: it awaits the
    graph; [false]: it returned (the topics have not changed). *)
Definition topics_arrived (f : TopicsFrame) (result : TopicsResult) : Js Live bool :=
  in_player (effect (clearTimeout (topicsStallWarningTimeout f)));;
  in_player (removeProblem "topicsAndRawTypesTimeout");;
  let ros2 :=
    if existsb (String.eqb "rcl_interfaces/msg/Log") (res_types result) then true
    else false in
  in_player
    (if existsb (String.eqb "rcl_interfaces/msg/Log") (res_types result)
     then removeProblem "unknownRosVersion"
     else if existsb (String.eqb "rosgraph_msgs/Log") (res_types result)
     then removeProblem "unknownRosVersion"
     else addProblem "unknownRosVersion"
            {| severity := severity_warn;
               problem_message := "Unable to detect ROS version, assuming ROS 1";
               tip := None; error := None |});;
  c ← lift (collect ros2 (res_types result) (typedefs_full_text result) 0
              (res_topics result) nothing_collected);
  let sortedTopics := sortBy_name (c_topics c) in
  l ← get;
  if isEqual sortedTopics (_providerTopics (player l)) && negb (forceUpdate f) then mret false
  else
    in_player
      (when (Nat.ltb 0 (length (c_topicsMissingDatatypes c)))
         (addProblem "requestTopics:missing-types"
            {| severity := severity_warn;
               problem_message := "Could not resolve all message types";
               tip := Some ("Message types could not be found for these topics: "
                            +:+ join (c_topicsMissingDatatypes c));
               error := None |});;
       when (match _providerTopics (player l) with None => true | Some _ => false end)
         (effect (metrics metrics_initialized));;
       modify (set_providerTopics (Some sortedTopics));;
       datatypes ← lift (bagConnectionsToDatatypes (c_datatypeDescriptions c) ros2);
       modify (set_providerDatatypes (Some datatypes));;
       modify (set_messageReadersByDatatype (c_messageReaders c));;
       s ← get;
       setSubscriptions (_requestedSubscriptions s));;
    l ← get;
    match _rosClient (player l) with
    | Some client => call (ros_getNodes client)
    | None => mret tt
    end;;
    mret true.

(** The [finally] block of [_requestTopics]. *)
Definition requestTopics_finally (now : Time) : Js Live unit :=
  in_player (_emitState now);;
  timer ← in_player fresh_timer;
  in_player (modify (set_requestTopicsTimeout (Some timer)));;
  call (setTimeout_requestTopics timer).

(** [_requestTopics] from the point where the promise of
    [getTopicsAndRawTypes] settles. [true]: it awaits the graph. *)
Definition requestTopics_settled (f : TopicsFrame) (result : outcome TopicsResult)
    (now : Time) : Js Live bool :=
  awaiting ←
    try_catch
      (result ← lift result; topics_arrived f result)
      (fun e =>
         in_player
           (effect (clearTimeout (topicsStallWarningTimeout f));;
            removeProblem "topicsAndRawTypesTimeout";;
            addProblem "requestTopics:error"
              {| severity := severity_error;
                 problem_message := "Failed to fetch topics from rosbridge";
                 tip := None; error := Some e |});;
         mret false);
  if awaiting : bool then mret true
  else requestTopics_finally now;; mret false.

End topics.

(** *** The node graph *)

Record RosGraph : Type := mkRosGraph {
  publishers : gmap string (gset string);
  subscribers : gmap string (gset string);
  graph_services : gmap string (gset string)
}.

(** [addEntry] of [_getSystemState]. *)
Definition addEntry (map : gmap string (gset string)) (key value : string)
    : gmap string (gset string) :=
  <[key := default ∅ (map !! key) ∪ {[value]}]> map.

(** The callback [_getSystemState] gives to [getNodeDetails] for
    [node]. *)
Definition nodeDetails (node : string) (subscriptions publications services : list string)
    (output : RosGraph) : RosGraph :=
  let pubs := fold_left (fun m pub => addEntry m pub node) publications (publishers output) in
  let subs := fold_left (fun m sub => addEntry m sub node) subscriptions (subscribers output) in
  let srvs := fold_left (fun m srv => addEntry m srv node) services (graph_services output) in
  mkRosGraph pubs subs srvs.

(** [_requestTopics] from the point where the promise of
    [_getSystemState] settles, to its end. *)
Definition requestTopics_graph (graph : outcome RosGraph) (now : Time) : Js Live unit :=
  in_player
    (match graph with
     | Normal graph =>
         modify (set_publishedTopics (publishers graph));;
         modify (set_subscribedTopics (subscribers graph));;
         modify (set_services (graph_services graph))
     | Throw e =>
         addProblem "requestTopics:system-state"
           {| severity := severity_error;
              problem_message := "Failed to fetch node details from rosbridge";
              tip := None; error := Some e |};;
         modify (set_publishedTopics ∅);;
         modify (set_subscribedTopics ∅);;
         modify (set_services ∅)
     end);;
  requestTopics_finally now.

(** *** The live engine as a state machine *)

(** The constructor; [now] is [fromMillis(Date.now())]. *)
Definition new_Live (url id : string) (now : Time) (client : handle) : Live :=
  snd (_open client
    {| player :=
         {| _url := url; _rosClient := None; _id := id; _listener := false;
            _closed := false; _providerTopics := None; _providerDatatypes := None;
            _publishedTopics := ∅; _subscribedTopics := ∅; _services := ∅;
            _messageReadersByDatatype := ∅; _start := Some now; _clockTime := None;
            _topicSubscriptions := []; _requestedSubscriptions := [];
            _parsedMessages := []; _messageOrder := "receiveTime";
            _requestTopicsTimeout := None; _topicPublishers := [];
            _advertisements := []; _parsedTopics := []; _receivedBytes := 0;
            _hasReceivedMessage := false; _presence := INITIALIZING; _problems := [];
            _emitTimer := None; next_timer := 1;
            emit_currentPromise := false; emit_callPending := false;
            effects := [metrics playerConstructed] |};
       calls := [] |}).

Inductive Event : Type :=
| call_operation (op : Playback.Operation) (now : Time)
| message_received (topicName : string) (reader : ReaderKind) (byteLength msgSize : Z)
    (innerMessage : outcome (handle * option Time)) (now : Time)
| emit_settled (now : Time)
| emit_timer (now : Time)
| open_timer (client : handle)
| ros_connection (client : handle)
| ros_error (err : option string) (now : Time)
| ros_closed (client : handle) (now : Time)
| requestTopics_timer
| stallWarning_timer (now : Time)
| topics_settled (parseMessageDefinition : string -> bool -> outcome handle)
    (bagConnectionsToDatatypes : list (string * string) -> bool -> outcome handle)
    (f : TopicsFrame) (result : outcome TopicsResult) (now : Time)
| graph_settled (graph : outcome RosGraph) (now : Time).

Definition step (e : Event) : Js Live unit :=
  match e with
  | call_operation op now => in_player (Playback.invoke_rosbridge op now)
  | message_received topicName reader byteLength msgSize innerMessage now =>
      detached (in_player (onMessage topicName reader byteLength msgSize innerMessage now))
  | emit_settled now => detached (in_player (emitState_settled now))
  | emit_timer now => detached (in_player (_emitState now))
  | open_timer client => detached (_open client)
  | ros_connection client => detached (on_connection client;; mret tt)
  | ros_error err now => detached (in_player (on_error err now))
  | ros_closed client now => detached (on_close client now)
  | requestTopics_timer => detached (requestTopics_begin false;; mret tt)
  | stallWarning_timer now => detached (in_player (stallWarning now))
  | topics_settled parse convert f result now =>
      detached (requestTopics_settled parse convert f result now;; mret tt)
  | graph_settled graph now => detached (requestTopics_graph graph now)
  end.

Definition run (events : list Event) (l : Live) : Live :=
  fold_left (fun l e => snd (step e l)) events l.

End RosbridgeConnection.

(** ** Further notions: errors, accounting, read windows *)
Module Conduct.
Import RandomAccessPlayer.

(** A state emitted by an engine that has failed. *)
Definition error_state (st : PlayerState) : Prop :=
  presence st = ERROR /\ activeData st = None /\ capabilities st = [].

(** The engine has failed, and every state emitted since [base] says so. *)
Definition errored (base : list PlayerState) (s : Player) : Prop :=
  _hasError s = true /\
  exists more, emitted s = base ++ more /\ Forall error_state more.

(** The bytes the provider reported over a run. *)
Definition reported_bytes (events : list Event) : Z :=
  fold_right
    (fun e total => match e with
                    | on_metadata (received_bytes bytes) => bytes + total
                    | _ => total
                    end)
    0 events.

(** How often [metricsCollector.initialized()] was called. *)
Definition initialized_reports (s : Player) : nat :=
  length (List.filter
            (fun e => match e with metrics metrics_initialized => true | _ => false end)
            (effects s)).

(** Does [filterMessages] pass a message on [topic_], given the topics
    asked of the provider and the provider's topic list? *)
Definition passes (topics : list string) (providerTopics : list Topic) (topic_ : string)
    : bool :=
  existsb (String.eqb topic_) topics &&
  match List.find (fun t => String.eqb (name t) topic_) providerTopics with
  | Some t => negb (String.eqb (datatype t) "")
  | None => false
  end.

(** A message as the engine hands it on. *)
Definition delivered (msg : MessageEvent) : MessageEvent :=
  {| topic := topic msg; receiveTime := receiveTime msg; message := message msg;
     sizeInBytes := None |}.

End Conduct.

(** ** Notions for the live engine *)
Module LiveConduct.
Import RosbridgePlayer.
Import RandomAccessPlayer(SubscribePayload, sub_topic, AdvertiseOptions, adv_topic,
  PublishPayload, pub_topic, pub_msg).

(** The server lists the topic. *)
Definition offered (s : Player) (t : string) : bool :=
  existsb (fun p => String.eqb (name p) t) (default [] (_providerTopics s)).

(** A message reader exists for the datatype the server lists for the
    topic. *)
Definition readable (s : Player) (t : string) : bool :=
  match List.find (fun p => String.eqb (name p) t) (default [] (_providerTopics s)) with
  | Some p =>
      match _messageReadersByDatatype s !! datatype p with
      | Some _ => true
      | None => false
      end
  | None => false
  end.

(** The topic is asked for: by the caller, or it is [/clock]. *)
Definition requested (subscriptions : list SubscribePayload) (t : string) : bool :=
  String.eqb t "/clock" || existsb (String.eqb t) (List.map sub_topic subscriptions).

(** The states handed to the listener so far, oldest first. *)
Definition heard (s : Player) : list PlayerState :=
  omap (fun e => match e with listener_call st => Some st | _ => None end) (effects s).

End LiveConduct.

(** ** Notions for the live engine's connection *)
Module LinkConduct.
Import RosbridgePlayer RosbridgeConnection LiveConduct.

(** Calls that reach out to the server: a new connection, a request for
    the topic list. *)
Definition reaches_out (c : Call) : bool :=
  match c with
  | new_Ros _ | ros_getTopicsAndRawTypes _ => true
  | _ => false
  end.

(** A closed engine, with what it has said and asked so far. *)
Definition silent (said : list PlayerState) (asked : list Call)
    (cs : list Call) (p : Player) : Prop :=
  _closed p = true /\ heard p = said /\ List.filter reaches_out cs = asked.

(** A property of the engine and of its calls, as a property of [Live]. *)
Definition lifted (J : list Call -> Player -> Prop) (l : Live) : Prop :=
  J (calls l) (player l).

End LinkConduct.

(** ** Further notions for the reader *)
Module Faults.
Import Mcap Decoding.

Section reader.
Context `{Parse}.

(** The reader has reached a chunk or a record it cannot get through:
    a record the parser rejects, at top level or inside a chunk; a chunk
    whose payload does not end where its last record ends; a chunk whose
    decompression handler fails. As for [corrupt], each is given at the
    suspension point where the reader meets it. *)
Inductive broken (r : McapReader) : Prop :=
| unreadable_record e :
    generator r = AtRecord ->
    parseRecord (storage r) 0 = Throw e ->
    broken r
| unreadable_in_chunk buffer chunkOffset usedBytes e :
    generator r = InChunk buffer chunkOffset usedBytes ->
    parseRecord buffer (chunkOffset + usedBytes) = Throw e ->
    broken r
| bytes_remaining_in_chunk buffer chunkOffset usedBytes :
    generator r = InChunk buffer chunkOffset usedBytes ->
    parseRecord buffer (chunkOffset + usedBytes) = Normal incomplete ->
    (chunkOffset + usedBytes)%nat <> length buffer ->
    broken r
| bytes_remaining_in_whole_chunk compression decompressedSize data buffer :
    generator r = AfterChunkRecord (Chunk compression decompressedSize data) ->
    decompressed (decompressHandlers r) compression decompressedSize data = Some buffer ->
    parseRecord buffer 0 = Normal incomplete ->
    buffer <> [] ->
    broken r
| bytes_remaining_in_unlisted_chunk compression decompressedSize data k buffer :
    generator r = AtRecord ->
    includeChunks r = false ->
    parseRecord (storage r) 0
      = Normal (parsed (Chunk compression decompressedSize data) k) ->
    decompressed (decompressHandlers r) compression decompressedSize data = Some buffer ->
    parseRecord buffer 0 = Normal incomplete ->
    buffer <> [] ->
    broken r
| decompression_fails compression decompressedSize data decompress e :
    generator r = AfterChunkRecord (Chunk compression decompressedSize data) ->
    compression <> "" ->
    decompressHandlers r !! compression = Some decompress ->
    decompress data decompressedSize = Throw e ->
    broken r
| decompression_fails_unlisted compression decompressedSize data k decompress e :
    generator r = AtRecord ->
    includeChunks r = false ->
    parseRecord (storage r) 0
      = Normal (parsed (Chunk compression decompressedSize data) k) ->
    compression <> "" ->
    decompressHandlers r !! compression = Some decompress ->
    decompress data decompressedSize = Throw e ->
    broken r.

End reader.


End Faults.

(** ** Further episodes used in the examples *)
Module Episodes.
Import RandomAccessPlayer.

(** An engine whose provider failed to initialise. *)
Definition failed : Player :=
  run [call_setListener; on_emit_settled;
       on_initialize_settled (Throw "no such file") 1001] Session.fresh.

(** What a user may still do with it. *)
Definition afterwards : list Event :=
  [on_emit_settled; call_startPlayback; on_emit_settled;
   call_seekPlayback (mkTime 1 0) None 1002; on_progress emptyProgress].

(** Playing from 5s, between two ticks. *)
Definition playing : Player :=
  run [call_startPlayback; on_emit_settled] Session.ready.



End Episodes.

(** ** Episodes of the live engine *)
Module LinkEpisodes.
Import RosbridgePlayer RosbridgeConnection Playback.

(** The connected engine of [Session.live], with no call made yet. *)
Definition link : Live := mkLive Session.live [].

Definition wall : Time := mkTime 200 0.

Definition closed_link : Live := run [call_operation op_close wall] link.

(** A parser that rejects the empty definition. *)
Definition parse (definition : string) (ros2 : bool) : outcome handle :=
  if String.eqb definition "" then Throw "empty definition" else Normal 1.

Definition convert (descriptions : list (string * string)) (ros2 : bool) : outcome handle :=
  Normal 2.

(** The server lists four topics; the last has no type. *)
Definition server_topics : TopicsResult :=
  mkTopicsResult ["/b"; "/a"; "/rosout"; "/c"]
    ["std_msgs/Int32"; "std_msgs/String"; "rosgraph_msgs/Log"]
    ["int32 data"; "string data"; "Header header"].

Definition gathered : Collected :=
  match collect parse false (res_types server_topics) (typedefs_full_text server_topics) 0
          (res_topics server_topics) nothing_collected with
  | Normal c => c
  | Throw _ => nothing_collected
  end.

(** The request for topics made on connecting. *)
Definition pending : TopicsFrame := mkTopicsFrame true 1 9.

(** What may still happen to a closed engine. *)
Definition after_close : list Event :=
  [ emit_timer wall;
    message_received "/a" LazyMessageReader 10 10 (Normal (5, None)) wall;
    topics_settled parse convert pending (Normal server_topics) wall;
    graph_settled (Throw "no graph") wall;
    ros_closed 1 wall; open_timer 2; ros_connection 2; requestTopics_timer;
    call_operation op_setListener wall ].

End LinkEpisodes.

(** * Properties *)

(** ** Time *)
Module RostimeFacts.

(** Total nanoseconds: on normalised times, [compare] orders by it. *)
Definition nanos (t : Time) : Z := sec t * 1000000000 + nsec t.

Lemma le_iff (a b : Time) :
  le a b <-> sec a < sec b \/ (sec a = sec b /\ nsec a <= nsec b).
Proof.
  unfold le, compare. destruct (Z.eqb_spec (sec a - sec b) 0); simpl; lia.
Qed.

Lemma compare_zero_eq (a b : Time) : compare a b = 0 -> a = b.
Proof.
  destruct a as [sa na], b as [sb nb]. unfold compare. simpl.
  destruct (Z.eqb_spec (sa - sb) 0); simpl; intros; f_equal; lia.
Qed.

Lemma le_refl (a : Time) : le a a.
Proof. apply le_iff. lia. Qed.


Lemma le_nanos (a b : Time) : valid a -> valid b -> (le a b <-> nanos a <= nanos b).
Proof. unfold valid, nanos. rewrite le_iff. nia. Qed.


Lemma clampTime_bounds (t s e : Time) :
  le s e -> le s (clampTime t s e) /\ le (clampTime t s e) e.
Proof.
  intros Hse. unfold clampTime.
  destruct (Z.gtb_spec (compare s t) 0) as [H1|H1].
  { destruct s; simpl. split; [apply le_refl | exact Hse]. }
  destruct (Z.ltb_spec (compare e t) 0) as [H2|H2].
  { destruct e; simpl. split; [exact Hse | apply le_refl]. }
  destruct t as [ts tn]; simpl. revert H1 H2 Hse. unfold le, compare; simpl.
  destruct (Z.eqb_spec (sec s - ts) 0), (Z.eqb_spec (sec e - ts) 0),
    (Z.eqb_spec (ts - sec e) 0), (Z.eqb_spec (sec s - sec e) 0); simpl; lia.
Qed.


Lemma clampTime_mono (a b s e : Time) :
  le s e -> le a b -> le (clampTime a s e) (clampTime b s e).
Proof.
  intros Hse Hab. unfold clampTime.
  destruct (Z.gtb_spec (compare s a) 0) as [A1|A1],
           (Z.gtb_spec (compare s b) 0) as [B1|B1];
  try destruct (Z.ltb_spec (compare e a) 0) as [A2|A2];
  try destruct (Z.ltb_spec (compare e b) 0) as [B2|B2];
  destruct a, b, s, e; simpl in *;
  revert Hse Hab A1 B1; try revert A2; try revert B2;
  rewrite ?le_iff; unfold compare; simpl;
  repeat match goal with |- context [Z.eqb ?x ?y] => destruct (Z.eqb_spec x y) end;
  simpl; lia.
Qed.

Lemma clampTime_id (t s e : Time) : le s t -> le t e -> clampTime t s e = t.
Proof.
  intros H1 H2. unfold clampTime, le in *.
  destruct (Z.gtb_spec (compare s t) 0); [lia|].
  destruct (Z.ltb_spec (compare e t) 0); [|destruct t; reflexivity].
  exfalso. revert H2 H0. unfold compare.
  repeat match goal with |- context [Z.eqb ?x ?y] => destruct (Z.eqb_spec x y) end;
  simpl; lia.
Qed.

(** [fixTime] keeps the total and normalises. *)
Lemma fixTime_Normal (t c : Time) (allowNegative : bool) :
  fixTime t allowNegative = Normal c ->
  0 <= nsec c < 1000000000 /\ nanos c = nanos t /\ (allowNegative = false -> 0 <= sec c).
Proof.
  unfold fixTime, nanos. simpl.
  set (r := Z.rem (nsec t) 1000000000).
  set (q := nsec t / 1000000000).
  assert (Hq : nsec t = 1000000000 * q + nsec t mod 1000000000)
    by (apply Z.div_mod; lia).
  assert (Hm : 0 <= nsec t mod 1000000000 < 1000000000)
    by (apply Z.mod_pos_bound; lia).
  assert (Hr : r = nsec t mod 1000000000 \/
               (nsec t < 0 /\ r < 0 /\ r = nsec t mod 1000000000 - 1000000000)).
  { subst r. clear. Z.to_euclidean_division_equations. lia. }
  destruct (Z.eqb_spec (Z.sgn r) (-1)) as [S|S];
  destruct allowNegative; simpl;
  repeat match goal with |- context [Z.ltb ?x ?y] => destruct (Z.ltb_spec x y) end;
  simpl; try discriminate; intros [= <-]; simpl;
  destruct Hr as [Hr|Hr]; try lia.
Qed.

Lemma add_Normal (a b c : Time) :
  add a b = Normal c -> valid c /\ nanos c = nanos a + nanos b.
Proof.
  unfold add. intros H. apply fixTime_Normal in H as (H1 & H2 & H3).
  unfold valid, nanos in *. simpl in *. split; [split; [auto|lia] | lia].
Qed.

Lemma add_succeeds (a b : Time) :
  valid a -> 0 <= nanos a + nanos b -> exists c, add a b = Normal c.
Proof.
  intros Ha Hb. destruct (add a b) as [c|e] eqn:E; [eauto|exfalso].
  revert E. unfold add, fixTime. simpl.
  set (n := nsec a + nsec b).
  assert (Hq : n = 1000000000 * (n / 1000000000) + n mod 1000000000)
    by (apply Z.div_mod; lia).
  assert (Hm : 0 <= n mod 1000000000 < 1000000000)
    by (apply Z.mod_pos_bound; lia).
  assert (0 <= sec a + sec b + n / 1000000000).
  { unfold nanos, valid in *. subst n. nia. }
  destruct (Z.ltb_spec (sec a + sec b + n / 1000000000) 0); [lia|].
  simpl. destruct (Z.ltb_spec (Z.abs (if Z.sgn (Z.rem n 1000000000) =? -1
    then 1000000000 + Z.rem n 1000000000 else Z.rem n 1000000000)) 0); [lia|].
  discriminate.
Qed.

End RostimeFacts.

(** ** Reasoning about method bodies *)
Module JsFacts.

Section preserves.
Context {S : Type} (I : S -> Prop).

(** [m] keeps the invariant [I], whether it returns or throws. *)
Definition preserves {A} (m : Js S A) : Prop := forall s, I s -> I (snd (m s)).

Lemma preserves_ret {A} (a : A) : preserves (mret a).
Proof. intros s H. exact H. Qed.

Lemma preserves_throw {A} (e : string) : preserves (@throw S A e).
Proof. intros s H. exact H. Qed.

Lemma preserves_lift {A} (o : outcome A) : preserves (lift o).
Proof. intros s H. exact H. Qed.

Lemma preserves_get : preserves get.
Proof. intros s H. exact H. Qed.

Lemma preserves_modify (f : S -> S) : (forall s, I s -> I (f s)) -> preserves (modify f).
Proof. intros Hf s H. apply Hf, H. Qed.

Lemma preserves_bind {A B} (m : Js S A) (k : A -> Js S B) :
  preserves m -> (forall a, preserves (k a)) -> preserves (m ≫= k).
Proof.
  intros Hm Hk s H. unfold mbind, Js_bind, bind.
  specialize (Hm s H). destruct (m s) as [[a|e] s1]; simpl in *.
  - apply Hk, Hm.
  - exact Hm.
Qed.

Lemma preserves_when (b : bool) (m : Js S unit) : preserves m -> preserves (when b m).
Proof. intros Hm. destruct b; [exact Hm | apply preserves_ret]. Qed.

Lemma preserves_try_catch {A} (m : Js S A) (h : string -> Js S A) :
  preserves m -> (forall e, preserves (h e)) -> preserves (try_catch m h).
Proof.
  intros Hm Hh s H. unfold try_catch.
  specialize (Hm s H). destruct (m s) as [[a|e] s1]; simpl in *.
  - exact Hm.
  - apply Hh, Hm.
Qed.

End preserves.

(** Symbolic execution of a method body on a state. *)
Lemma run_bind {S A B} (m : Js S A) (k : A -> Js S B) (s : S) :
  (m ≫= k) s = match m s with
               | (Normal a, s') => k a s'
               | (Throw e, s') => (Throw e, s')
               end.
Proof. reflexivity. Qed.

Lemma bind_get {S B} (k : S -> Js S B) (s : S) : (get ≫= k) s = k s s.
Proof. reflexivity. Qed.

Lemma bind_modify {S B} (f : S -> S) (k : unit -> Js S B) (s : S) :
  (modify f ≫= k) s = k tt (f s).
Proof. reflexivity. Qed.

Lemma bind_ret {S A B} (a : A) (k : A -> Js S B) (s : S) : (mret a ≫= k) s = k a s.
Proof. reflexivity. Qed.

Lemma bind_lift_Normal {S A B} (a : A) (k : A -> Js S B) (s : S) :
  (lift (Normal a) ≫= k) s = k a s.
Proof. reflexivity. Qed.

End JsFacts.

(** ** RandomAccessPlayer *)
Module RandomAccessFacts.
Import RandomAccessPlayer JsFacts RostimeFacts Playback.

(** Walks through a method body; [leaf] closes the obligations left by
    the field updates. *)
Ltac pres leaf :=
  repeat first
    [ apply preserves_ret | apply preserves_throw | apply preserves_lift
    | apply preserves_get
    | solve [auto with pres]
    | match goal with
      | |- preserves _ (match ?x with _ => _ end) => destruct x
      | |- preserves _ (if ?b then _ else _) => destruct b
      | |- preserves _ (_ ≫= _) => apply preserves_bind; [ | intros ? ]
      | |- preserves _ (when _ _) => apply preserves_when
      | |- preserves _ (try_catch _ _) => apply preserves_try_catch; [ | intros ? ]
      | |- preserves _ (modify _) => apply preserves_modify; intros ? ?; solve [leaf]
      end
    | progress (lazy zeta) ].

Create HintDb pres discriminated.

Section cursor_generation.
Variable c : Z.

(** The seek generation [_lastSeekStartTime] has the value [c]. *)
Definition generation_is (s : Player) : Prop := _lastSeekStartTime s = c.

Ltac leaf := unfold generation_is in *; cbn; assumption.

Ltac body f := unfold f; pres leaf.

Lemma generation_effect e : preserves generation_is (effect e).
Proof. body effect. Qed.
Hint Resolve generation_effect : pres.

Lemma generation_assign t : preserves generation_is (assign_nextReadStartTime t).
Proof. body assign_nextReadStartTime. Qed.
Hint Resolve generation_assign : pres.

Lemma generation_set_problem id p : preserves generation_is (set_problem id p).
Proof. body set_problem. Qed.
Hint Resolve generation_set_problem : pres.

Lemma generation_delete_problem id : preserves generation_is (delete_problem id).
Proof. body delete_problem. Qed.
Hint Resolve generation_delete_problem : pres.

Lemma generation_emitState_fn : preserves generation_is emitState_fn.
Proof. body emitState_fn. Qed.
Hint Resolve generation_emitState_fn : pres.

Lemma generation_emitState : preserves generation_is _emitState.
Proof. body _emitState. Qed.
Hint Resolve generation_emitState : pres.

Lemma generation_emitState_settled : preserves generation_is emitState_settled.
Proof. body emitState_settled. Qed.
Hint Resolve generation_emitState_settled : pres.

Lemma generation_setError m e : preserves generation_is (_setError m e).
Proof. body _setError. Qed.
Hint Resolve generation_setError : pres.

Lemma generation_getMessages_begin a b : preserves generation_is (getMessages_begin a b).
Proof. body getMessages_begin. Qed.
Hint Resolve generation_getMessages_begin : pres.

Lemma generation_filterMessage topics m : preserves generation_is (filterMessage topics m).
Proof. body filterMessage. Qed.
Hint Resolve generation_filterMessage : pres.

Lemma generation_filterMap topics l :
  preserves generation_is (filterMap (filterMessage topics) l).
Proof. induction l as [|x l IH]; cbn [filterMap]; pres leaf. Qed.
Hint Resolve generation_filterMap : pres.

Lemma generation_getMessages_resume g r : preserves generation_is (getMessages_resume g r).
Proof. body getMessages_resume. Qed.
Hint Resolve generation_getMessages_resume : pres.

Lemma generation_tick_begin range : preserves generation_is (tick_begin range).
Proof. body tick_begin. Qed.
Hint Resolve generation_tick_begin : pres.

Lemma generation_tick_finish f m : preserves generation_is (tick_finish f m).
Proof. body tick_finish. Qed.
Hint Resolve generation_tick_finish : pres.

Lemma generation_detached m : preserves generation_is m -> preserves generation_is (detached m).
Proof. intros Hm. unfold detached. pres leaf. Qed.

Lemma generation_read_guard m : preserves generation_is m -> preserves generation_is (read_guard m).
Proof. intros Hm. unfold read_guard. apply generation_detached. pres leaf. Qed.

Lemma generation_seek_guard m : preserves generation_is m -> preserves generation_is (seek_guard m).
Proof. intros Hm. unfold seek_guard. apply generation_detached. pres leaf. Qed.

Lemma generation_backfill_pass d now : preserves generation_is (backfill_pass d now).
Proof. body backfill_pass. Qed.
Hint Resolve generation_backfill_pass : pres.

Lemma generation_seekPlaybackInternal d now :
  preserves generation_is (_seekPlaybackInternal d now).
Proof. unfold _seekPlaybackInternal. pres leaf. all: apply generation_seek_guard; pres leaf. Qed.
Hint Resolve generation_seekPlaybackInternal : pres.

Lemma generation_seekPlayback t d now : preserves generation_is (seekPlayback t d now).
Proof. unfold seekPlayback, _setNextReadStartTime. pres leaf. Qed.
Hint Resolve generation_seekPlayback : pres.

Lemma generation_backfill_resume f g r now :
  preserves generation_is (backfill_resume f g r now).
Proof. body backfill_resume. Qed.
Hint Resolve generation_backfill_resume : pres.

Lemma generation_initialize_settled r now :
  preserves generation_is (initialize_settled r now).
Proof.
  unfold initialize_settled. apply generation_detached.
  unfold initialize_then, _reportInitialized. pres leaf.
Qed.

(** No event of the engine changes [_lastSeekStartTime]: the field is
    written by the constructor only. *)
Lemma generation_step e : preserves generation_is (step e).
Proof.
  destruct e; cbn [step].
  - body setListener.
  - body close.
  - body setSubscriptions.
  - body setPublishers.
  - body setPlaybackSpeed.
  - unfold startPlayback, _read. pres leaf.
  - body pausePlayback.
  - auto with pres.
  - body setParameter.
  - body publish.
  - body requestBackfill.
  - apply generation_detached. auto with pres.
  - apply generation_detached. body progressCallback.
  - apply generation_detached. body reportMetadataCallback.
  - apply generation_initialize_settled.
  - pres leaf. all: apply generation_read_guard; unfold read_loop; pres leaf.
  - pres leaf. all: apply generation_read_guard; pres leaf.
  - pres leaf. all: apply generation_read_guard; pres leaf.
  - pres leaf. all: apply generation_seek_guard; pres leaf.
Qed.

End cursor_generation.

(** The seek generation is a constant of the engine. *)
Lemma lastSeekStartTime_constant (events : list Event) (s : Player) :
  _lastSeekStartTime (run events s) = _lastSeekStartTime s.
Proof.
  revert s. induction events as [|e events IH]; intros s; [reflexivity|].
  cbn [run fold_left]. change (fold_left _ events ?x) with (run events x).
  rewrite IH. apply (generation_step (_lastSeekStartTime s) e s). reflexivity.
Qed.


(** *** What [_emitState] hands to the listener *)

Ltac js_unfold :=
  unfold mbind, mret, Js_bind, Js_ret, bind, ret, get, gets, modify, when,
    lift, throw, try_catch in *.

(** The fields an emission leaves alone. *)
Definition core (s : Player) :=
  (_start s, _end s, _nextReadStartTime s, readTask s, seekTask s,
   (_isPlaying s, _hasError s, _initializing s, _listener s, _lastSeekStartTime s)).

(** The time before the cursor, as [_emitState] computes it. *)
Definition lastEnd_of (n : Time) : outcome Time :=
  if (sec n >? 0) || (nsec n >? 0) then add n (mkTime 0 (-1)) else Normal n.

Lemma emitState_fn_cases (s s' : Player) (o : outcome unit) :
  emitState_fn s = (o, s') ->
  core s' = core s /\
  ((effects s' = effects s /\ (o = Normal tt -> _listener s = false)) \/
   exists st, effects s' = effects s ++ [listener_call st] /\ o = Normal tt /\
     ((activeData st = None /\ (_hasError s = true \/ _initializing s = true)) \/
      exists ad lastEnd,
        activeData st = Some ad /\ lastEnd_of (_nextReadStartTime s) = Normal lastEnd /\
        currentTime ad = clampTime lastEnd (_start s) (_end s) /\
        startTime ad = _start s /\ endTime ad = _end s /\
        isPlaying ad = _isPlaying s /\ messages ad = _messages s)).
Proof.
  unfold emitState_fn, effect, lastEnd_of. js_unfold. cbn.
  destruct (_listener s) eqn:Hl; cbn.
  2:{ intros [= <- <-]. split; [reflexivity|]. left. auto. }
  destruct (_hasError s) eqn:He; cbn.
  { intros [= <- <-]. split; [cbn; rewrite ?Hl, ?He; reflexivity|].
    right. eexists. split; [reflexivity|]. split; [reflexivity|]. left. cbn. auto. }
  destruct (_messages s) as [|m0 ms]; cbn;
  (destruct ((sec (_nextReadStartTime s) >? 0) || (nsec (_nextReadStartTime s) >? 0)); cbn;
   [ destruct (add (_nextReadStartTime s) (mkTime 0 (-1))) as [lastEnd|e] eqn:Ea; cbn | ]);
  intros [= <- <-]; (split; [cbn; rewrite ?Hl, ?He; reflexivity|]);
  try (left; split; [reflexivity | discriminate]);
  right; eexists; (split; [reflexivity|]); (split; [reflexivity|]); cbn;
  (destruct (_initializing s) eqn:Hi; [left; auto | right]);
  eexists; eexists; (split; [reflexivity|]); cbn; (split; [reflexivity|]);
  (split; [|auto]);
  (destruct (_currentTime s) as [c|]; [|reflexivity]);
  match goal with
  | |- context [compare c ?x =? 0] =>
      destruct (Z.eqb_spec (compare c x) 0) as [E|E]; cbn;
      [apply compare_zero_eq in E; exact E | reflexivity]
  end.
Qed.


(** Unfolds the methods down to field updates, [emitState_fn] and
    [filterMap], which have lemmas of their own. *)
Ltac unfold_methods :=
  unfold setListener, close, setSubscriptions, setPublishers, setPlaybackSpeed,
    startPlayback, pausePlayback, requestBackfill, setParameter, publish,
    emitState_settled, progressCallback, reportMetadataCallback,
    initialize_settled, initialize_then,
    backfill_resume, seekPlayback, _seekPlaybackInternal, backfill_pass,
    _setNextReadStartTime, read_guard, seek_guard, detached,
    read_loop, tick_begin, tick_finish,
    getMessages_begin, getMessages_resume,
    _reportInitialized, _read, _setError, _emitState, set_problem, delete_problem,
    assign_nextReadStartTime, effect in *.

Lemma emitted_app (s : Player) (l : list Effect) (v : list Effect) :
  omap (fun e => match e with listener_call st => Some st | _ => None end) (l ++ v)
  = omap (fun e => match e with listener_call st => Some st | _ => None end) l
    ++ omap (fun e => match e with listener_call st => Some st | _ => None end) v.
Proof. apply omap_app. Qed.

(** *** Emitted states stay within the bounds *)
Section bounded.

Definition bounded (s : Player) : Prop :=
  le (_start s) (_end s) /\ Forall within_bounds (emitted s).

Ltac leaf :=
  unfold bounded, emitted in *; cbn;
  rewrite ?omap_app; cbn; rewrite ?app_nil_r; assumption.

Lemma bounded_emitState_fn : preserves bounded emitState_fn.
Proof.
  intros s [Hse Hem]. destruct (emitState_fn s) as [o s'] eqn:E. simpl.
  apply emitState_fn_cases in E as [Hcore Hcases].
  unfold core in Hcore. injection Hcore as Hs He _ _ _ _.
  unfold bounded. rewrite Hs, He. split; [exact Hse|].
  unfold emitted in *.
  destruct Hcases as [[-> _] | (st & -> & _ & Hst)]; [exact Hem|].
  rewrite omap_app. apply Forall_app. split; [exact Hem|]. cbn.
  constructor; [|constructor]. intros ad Had.
  destruct Hst as [[Hn _] | (ad' & lastEnd & Had' & _ & Hc & Hs' & He' & _)];
    [congruence|].
  assert (ad' = ad) by congruence. subst ad'.
  rewrite Hc, Hs', He'. apply clampTime_bounds, Hse.
Qed.
Hint Resolve bounded_emitState_fn : pres.

Lemma bounded_filterMap topics l : preserves bounded (filterMap (filterMessage topics) l).
Proof.
  induction l as [|x l IH]; cbn [filterMap]; unfold filterMessage; unfold_methods; pres leaf.
Qed.
Hint Resolve bounded_filterMap : pres.

Lemma bounded_initialize_rest t d now :
  preserves bounded (_reportInitialized;; seekPlayback t d now).
Proof. unfold_methods. pres leaf. Qed.

Lemma bounded_initialize_then r now :
  le (init_start r) (init_end r) -> preserves bounded (initialize_then r now).
Proof.
  intros Hr. unfold initialize_then.
  destruct (providesParsedMessages r); cbn [negb].
  2:{ unfold_methods. pres leaf. }
  destruct (messageDefinitions r) as [|dts defs].
  { unfold_methods. pres leaf. }
  intros s [Hse Hem]. unfold assign_nextReadStartTime.
  rewrite bind_get. lazy zeta. rewrite !bind_modify.
  apply bounded_initialize_rest. split; [exact Hr | exact Hem].
Qed.

Lemma bounded_step e : ordered_bounds e -> preserves bounded (step e).
Proof.
  destruct e; cbn [step ordered_bounds]; intros Hr.
  15:{ unfold initialize_settled, detached. destruct r as [r|e].
       - pose proof (bounded_initialize_then r now Hr) as Hthen.
         apply preserves_try_catch; [|intros ?; unfold_methods; pres leaf].
         apply preserves_try_catch; [exact Hthen|intros ?; unfold_methods; pres leaf].
       - unfold_methods. pres leaf. }
  all: unfold_methods; pres leaf.
Qed.

End bounded.


Lemma bounded_run events s :
  Forall ordered_bounds events -> bounded s -> bounded (run events s).
Proof.
  revert s. induction events as [|e events IH]; intros s Hev Hs; [exact Hs|].
  inversion Hev as [|? ? He Hrest]; subst.
  cbn [run fold_left]. change (fold_left _ events ?x) with (run events x).
  apply IH; [exact Hrest|]. apply bounded_step; assumption.
Qed.

(** *** The time shown while no seek intervenes *)

Lemma lastEnd_of_valid (n : Time) :
  valid n ->
  exists c, lastEnd_of n = Normal c /\ valid c /\ nanos c = Z.max 0 (nanos n - 1).
Proof.
  intros Hn. unfold lastEnd_of.
  destruct (Z.gtb_spec (sec n) 0) as [H1|H1]; cbn [orb];
    [|destruct (Z.gtb_spec (nsec n) 0) as [H2|H2]].
  3:{ exists n. unfold valid, nanos in *. repeat split; try lia. }
  all: destruct (add_succeeds n (mkTime 0 (-1)) Hn) as [c Hc];
    [unfold valid, nanos in *; simpl; lia|];
    exists c; split; [exact Hc|];
    apply add_Normal in Hc as [Hv Hc]; split; [exact Hv|];
    rewrite Hc; unfold valid, nanos in *; simpl; lia.
Qed.

Lemma nondecreasing_snoc (l : list Time) (t : Time) :
  nondecreasing l -> Forall (fun u => le u t) l -> nondecreasing (l ++ [t]).
Proof.
  induction 1 as [|u|u v l Huv Hl IH]; intros Hall; cbn.
  - constructor.
  - constructor; [|constructor]. inversion Hall; assumption.
  - constructor; [exact Huv|]. apply IH. inversion Hall; assumption.
Qed.

Section quiet.
Variables (S E : Time) (base : list Time).
Hypotheses (validS : valid S) (validE : valid E) (orderedSE : le S E).

(** What an emission shows when the cursor is at [n]. *)
Definition shown (n : Time) : Time :=
  clampTime (match lastEnd_of n with Normal t => t | Throw _ => n end) S E.


(** The history of emitted times, for a cursor at [n]. *)
Definition history (n : Time) (times : list Time) : Prop :=
  exists new, times = base ++ new /\ nondecreasing new /\
    Forall (fun t => le t E) new /\ Forall (fun t => le t (shown n)) new.

Definition cursor_at (n : Time) (s : Player) : Prop :=
  _start s = S /\ _end s = E /\ _nextReadStartTime s = n /\ valid n /\
  history n (omap (fun st => currentTime <$> activeData st) (emitted s)).

Definition in_order_at (n : Time) (s : Player) : Prop :=
  cursor_at n s /\ tick_in_order s.


Lemma cursor_emitState_fn n : preserves (cursor_at n) emitState_fn.
Proof.
  intros s (Hs & He & Hn & Hv & new & Ht & Hnd & HE & Hsh).
  destruct (emitState_fn s) as [o s'] eqn:Eq. simpl.
  apply emitState_fn_cases in Eq as [Hcore Hcases].
  unfold core in Hcore. injection Hcore as Hs' He' Hn' _ _ _.
  unfold cursor_at. rewrite Hs', He', Hn'. repeat (split; [assumption|]).
  unfold emitted in *.
  destruct Hcases as [[-> _] | (st & -> & _ & Hst)]; [exists new; auto|].
  rewrite omap_app, omap_app. cbn.
  destruct Hst as [[-> _] | (ad & lastEnd & -> & Hl & Hc & _)]; cbn.
  { rewrite app_nil_r. exists new; auto. }
  assert (Hcur : currentTime ad = shown n).
  { unfold shown. rewrite <- Hn, Hl, Hc, Hs, He. reflexivity. }
  rewrite Hcur. exists (new ++ [shown n]). split; [rewrite Ht, app_assoc; reflexivity|].
  split; [apply nondecreasing_snoc; assumption|].
  split; apply Forall_app; (split; [assumption|]); constructor; try constructor.
  - apply clampTime_bounds, orderedSE.
  - apply le_refl.
Qed.

Lemma in_order_emitState_fn n : preserves (in_order_at n) emitState_fn.
Proof.
  intros s [Hc Ht]. split; [apply cursor_emitState_fn, Hc|].
  destruct (emitState_fn s) as [o s'] eqn:Eq. simpl.
  apply emitState_fn_cases in Eq as [Hcore _].
  unfold core in Hcore. injection Hcore as _ _ Hn' Hr' _ _.
  unfold tick_in_order in *. rewrite Hn', Hr'. exact Ht.
Qed.


Ltac leaf :=
  unfold in_order_at, cursor_at, tick_in_order, emitted in *; cbn in *;
  rewrite ?omap_app; cbn; rewrite ?app_nil_r; intuition.

Hint Resolve cursor_emitState_fn in_order_emitState_fn : pres.

Lemma cursor_filterMap n topics l :
  preserves (cursor_at n) (filterMap (filterMessage topics) l).
Proof.
  induction l as [|x l IH]; cbn [filterMap]; unfold filterMessage; unfold_methods; pres leaf.
Qed.
Hint Resolve cursor_filterMap : pres.











End quiet.

End RandomAccessFacts.

(** ** The claims about the engines *)
Module EngineClaims.
Import RandomAccessPlayer JsFacts RostimeFacts Playback RandomAccessFacts Session.

Lemma run_app (events1 events2 : list Event) (s : Player) :
  run (events1 ++ events2) s = run events2 (run events1 s).
Proof. unfold run. apply fold_left_app. Qed.

(** C1. A [seekPlayback] issued while a tick's read is in flight is not
    detected: [seekPlayback] never writes [_lastSeekStartTime], so the
    tick keeps the messages it read, emits them, and moves the cursor
    from the seek target (1s) to the end of its own window. *)
Theorem seek_during_tick_is_overwritten :
  _nextReadStartTime sought = mkTime 1 0 /\
  _lastSeekStartTime sought = _lastSeekStartTime reading /\
  _nextReadStartTime (run tick_completes sought) = mkTime 5 100000002 /\
  (messages <$> (last (emitted (run tick_completes sought)) ≫= activeData))
    = Some [delivered_a].
Proof. vm_compute. repeat split; reflexivity. Qed.

(** C2, as stated, fails: the engine is paused while the tick reads,
    and when the read completes the cursor has moved on. *)
Lemma pause_during_tick_advances_cursor :
  _isPlaying paused = false /\
  readTask paused = TickAwaitingEmit frame [delivered_a] /\
  _nextReadStartTime paused = mkTime 5 1 /\
  _nextReadStartTime (run [on_tick_emit_awaited] paused) = mkTime 5 100000002.
Proof. vm_compute. repeat split; reflexivity. Qed.

(** C2, amended. If the engine is not playing when the read of a tick
    completes (and the seek generation is the one captured), the
    messages are dropped: nothing is queued and nothing is emitted; the
    cursor is set to one nanosecond past the end of the window read. *)
Theorem tick_finish_when_paused (f : TickFrame) (messages : list MessageEvent)
    (s : Player) (t : Time) :
  _isPlaying s = false ->
  _lastSeekStartTime s = tick_seekTime f ->
  add (tick_end f) (mkTime 0 1) = Normal t ->
  tick_finish f messages s
  = (Normal tt,
     set_nextReadStartTime_ref (nextReadStartTime_ref s + 1) (set_nextReadStartTime t s)).
Proof.
  intros Hp Hg Ha. unfold tick_finish. rewrite bind_get.
  rewrite Hg, Z.eqb_refl. cbn [negb]. rewrite Ha, bind_lift_Normal.
  unfold assign_nextReadStartTime. rewrite bind_modify, bind_get.
  cbn. rewrite Hp. reflexivity.
Qed.

Lemma tick_finish_when_paused_witness :
  tick_finish frame [message_a] paused
  = (Normal tt,
     set_nextReadStartTime_ref (nextReadStartTime_ref paused + 1)
       (set_nextReadStartTime (mkTime 5 100000002) paused)).
Proof.
  apply (tick_finish_when_paused frame [message_a] paused (mkTime 5 100000002));
    vm_compute; reflexivity.
Defined.


(** C8. The provider's message carries [sizeInBytes]; the message
    [_getMessages] passes on does not: [filterMessages] rebuilds the
    object from [topic], [receiveTime] and [message] only. *)
Theorem getMessages_drops_sizeInBytes :
  sizeInBytes message_a = Some 10 /\
  fst (getMessages_resume (Some ["/a"]) (resolved (Some [message_a])) reading)
    = Normal [delivered_a] /\
  sizeInBytes delivered_a = None.
Proof. vm_compute. repeat split; reflexivity. Qed.

(** No message that [filterMessages] lets through has a size. *)
Lemma filterMessage_no_size (topics : list string) (msg out : MessageEvent) (s : Player) :
  fst (filterMessage topics msg s) = Normal (Some out) -> sizeInBytes out = None.
Proof.
  unfold filterMessage, set_problem, delete_problem. js_unfold. cbn.
  destruct (negb _); cbn; [discriminate|].
  destruct (find _ _) as [t|]; cbn; [|discriminate].
  destruct (String.eqb _ _); cbn; [discriminate|].
  intros [= <-]. reflexivity.
Qed.

(** The live engine, on the other hand, sizes what it queues. *)
Example onMessage_sets_size :
  RosbridgePlayer._parsedMessages
    (snd (RosbridgePlayer.onMessage "/a" RosbridgePlayer.LazyMessageReader 42 42
            (Normal (77, None)) (mkTime 101 0) live))
  = [{| topic := "/a"; receiveTime := mkTime 101 0; message := 77;
        sizeInBytes := Some 42 |}].
Proof. vm_compute. reflexivity. Qed.

(** C9. In every run of an engine whose provider reports ordered
    bounds, every emitted state that carries [activeData] has
    [startTime <= currentTime <= endTime]. *)
Theorem emitted_states_within_bounds (label filePath : option string) (id : string)
    (seekToTime : Time -> Time -> Time) (now : Z) (events : list Event) :
  Forall ordered_bounds events ->
  Forall within_bounds (emitted (run events (new_Player label filePath id seekToTime now))).
Proof.
  intros Hev. apply (bounded_run events _ Hev). split.
  - apply le_refl.
  - constructor.
Qed.

Lemma emitted_states_within_bounds_witness :
  Forall within_bounds (emitted (run (opening ++ [call_startPlayback; on_emit_settled;
    on_read_wake (mkTime 0 100000000)] ++ tick_completes) fresh)).
Proof.
  apply (emitted_states_within_bounds (Some "demo.bag") None "player"
           (fun start _ => start) 1000).
  repeat constructor. unfold le. vm_compute. discriminate.
Defined.





(** *** Which operations return *)

Lemma emitState_fn_returns (s : Player) :
  valid (_nextReadStartTime s) -> fst (emitState_fn s) = Normal tt.
Proof.
  intros Hv. destruct (lastEnd_of_valid _ Hv) as (c & Hc & _).
  unfold lastEnd_of in Hc. unfold emitState_fn, effect. js_unfold. cbn.
  destruct (_listener s); cbn; [|reflexivity].
  destruct (_hasError s); cbn; [reflexivity|].
  destruct (_messages s); cbn;
    destruct ((sec (_nextReadStartTime s) >? 0) || (nsec (_nextReadStartTime s) >? 0));
    cbn; try rewrite Hc; reflexivity.
Qed.

Lemma emitState_returns (s : Player) :
  valid (_nextReadStartTime s) -> exists s', _emitState s = (Normal tt, s').
Proof.
  intros Hv. pose proof (emitState_fn_returns s Hv) as H.
  unfold _emitState. js_unfold. cbn.
  destruct (emit_currentPromise s); [eauto|].
  destruct (emitState_fn s) as [[[]|e] s1]; cbn in *; [eauto|discriminate].
Qed.

Lemma detached_returns (m : Js Player unit) (s : Player) : fst (detached m s) = Normal tt.
Proof.
  unfold detached, try_catch, effect, modify.
  destruct (m s) as [[[]|e] s1]; reflexivity.
Qed.

Lemma forEach_returns {A} (f : A -> Js RosbridgePlayer.Player unit) (l : list A) :
  (forall x s, fst (f x s) = Normal tt) ->
  forall s, fst (RosbridgePlayer.forEach f l s) = Normal tt.
Proof.
  intros Hf. induction l as [|x l IH]; intros s; cbn; [reflexivity|].
  unfold mbind, Js_bind, bind. specialize (Hf x s).
  destruct (f x s) as [[[]|e] s1]; cbn in *; [apply IH|discriminate].
Qed.

Lemma rosbridge_emitState_returns (now : Time) (s : RosbridgePlayer.Player) :
  fst (RosbridgePlayer._emitState now s) = Normal tt.
Proof.
  unfold RosbridgePlayer._emitState, RosbridgePlayer.emitState_fn, RosbridgePlayer.effect.
  js_unfold. cbn.
  destruct (RosbridgePlayer.emit_currentPromise s); cbn; [reflexivity|].
  destruct (negb _ || _); cbn; [reflexivity|].
  destruct (RosbridgePlayer._providerTopics s), (RosbridgePlayer._providerDatatypes s),
    (RosbridgePlayer._start s); cbn; try reflexivity.
  destruct (RosbridgePlayer._presence s); cbn; try reflexivity.
  destruct (RosbridgePlayer._emitTimer s); reflexivity.
Qed.

(** With [_emitState] at the head of what remains of a method body. *)
Ltac emit_now :=
  match goal with
  | |- context [_emitState ?s] =>
      let s' := fresh "s'" in
      let E := fresh "E" in
      destruct (emitState_returns s) as [s' E]; [cbn; assumption|];
      rewrite E; cbn
  end.

Lemma random_access_operation_returns (op : Operation) (now : Z) (s : Player) :
  unsupported op = false -> valid (_nextReadStartTime s) ->
  fst (invoke op now s) = Normal tt.
Proof.
  intros Hop Hv. destruct op; try discriminate; cbn [invoke].
  - unfold setListener, effect. js_unfold. cbn. emit_now. reflexivity.
  - unfold close, effect. js_unfold. cbn. destruct (_ && _); reflexivity.
  - reflexivity.
  - reflexivity.
  - unfold setPlaybackSpeed, effect. js_unfold. cbn. emit_now. reflexivity.
  - unfold startPlayback, _read, effect. js_unfold. cbn.
    destruct (_isPlaying s); [reflexivity|]. cbn. emit_now.
    destruct (readTask s'); reflexivity.
  - unfold pausePlayback, effect. js_unfold. cbn.
    destruct (_isPlaying s); [|reflexivity]. cbn. emit_now. reflexivity.
  - unfold seekPlayback, _setNextReadStartTime, _seekPlaybackInternal,
      assign_nextReadStartTime, effect.
    js_unfold. cbn -[seek_guard].
    destruct (negb (_initialized s)); [reflexivity|]. cbn -[seek_guard].
    destruct (seekTask s); [|reflexivity].
    unfold seek_guard. apply detached_returns.
Qed.

Lemma rosbridge_operation_returns (op : Operation) (now : Time) (s : RosbridgePlayer.Player) :
  unsupported op = false -> fst (invoke_rosbridge op now s) = Normal tt.
Proof.
  intros Hop. destruct op; try discriminate; cbn [invoke_rosbridge]; try reflexivity.
  - unfold RosbridgePlayer.setListener. rewrite bind_modify.
    apply rosbridge_emitState_returns.
  - unfold RosbridgePlayer.close, RosbridgePlayer.effect. js_unfold. cbn.
    destruct (RosbridgePlayer._rosClient s), (RosbridgePlayer._emitTimer s); reflexivity.
  - unfold RosbridgePlayer.setSubscriptions. rewrite bind_modify, bind_get. cbn.
    destruct (RosbridgePlayer._rosClient s); [|reflexivity].
    destruct (RosbridgePlayer._closed s); [reflexivity|].
    rewrite !bind_modify.
    match goal with
    | |- fst ((RosbridgePlayer.forEach ?f ?l ≫= ?k) ?s0) = _ =>
        pose proof (forEach_returns f l) as H1; specialize (H1 ltac:(
          intros x s1; unfold RosbridgePlayer.subscribeTo, RosbridgePlayer.effect;
          js_unfold; cbn;
          repeat (match goal with
                  | |- context [match ?x with _ => _ end] => destruct x
                  end; cbn); reflexivity) s0);
        unfold mbind, Js_bind, bind;
        destruct (RosbridgePlayer.forEach f l s0) as [[[]|e] s1]; cbn in *;
          [|discriminate]
    end.
    apply forEach_returns. intros x s2.
    unfold RosbridgePlayer.unsubscribeUnless, RosbridgePlayer.effect. js_unfold.
    destruct (negb _); reflexivity.
  - unfold RosbridgePlayer.setPublishers, RosbridgePlayer._setupPublishers.
    rewrite bind_get.
    match goal with
    | |- fst ((RosbridgePlayer.forEach ?f ?l ≫= ?k) ?s0) = _ =>
        pose proof (forEach_returns f l ltac:(intros; reflexivity) s0) as H1;
        unfold mbind at 1; unfold Js_bind, bind;
        destruct (RosbridgePlayer.forEach f l s0) as [[[]|e] s1]; cbn in *;
          [|discriminate]
    end.
    js_unfold. cbn.
    destruct (RosbridgePlayer._rosClient s1); [|reflexivity].
    destruct (Z.of_nat (length publishers) <=? 0); [reflexivity|].
    apply forEach_returns. intros; reflexivity.
Qed.

(** C4, as stated, fails: [setParameter] on an initialised engine. *)
Lemma setParameter_throws :
  invoke (op_setParameter "rate" 1) 0 ready
  = (Throw "Parameter editing is not supported by this data source", ready).
Proof. reflexivity. Qed.

(** C4, amended. [setParameter] and [publish] aside, every operation
    of the contract returns normally, on the random-access engine in
    every state whose cursor is a time, on the live engine in every
    state. [setParameter] throws on both engines, [publish] throws on
    the random-access engine, and on the live engine when the topic has
    no registered publisher. *)
Theorem contract_operations (op : Operation) (now : Z) (wall : Time)
    (s : Player) (live : RosbridgePlayer.Player) :
  valid (_nextReadStartTime s) ->
  match op with
  | op_setParameter _ _ =>
      (exists e, fst (invoke op now s) = Throw e) /\
      (exists e, fst (invoke_rosbridge op wall live) = Throw e)
  | op_publish payload =>
      (exists e, fst (invoke op now s) = Throw e) /\
      (JsMap.get (pub_topic payload) (RosbridgePlayer._topicPublishers live) = None ->
       exists e, fst (invoke_rosbridge op wall live) = Throw e)
  | _ =>
      fst (invoke op now s) = Normal tt /\
      fst (invoke_rosbridge op wall live) = Normal tt
  end.
Proof.
  intros Hv.
  destruct op;
    try (split; [apply random_access_operation_returns; [reflexivity|exact Hv]
                |apply rosbridge_operation_returns; reflexivity]).
  - split; eexists; reflexivity.
  - split; [eexists; reflexivity|]. intros Hnone. cbn.
    unfold RosbridgePlayer.publish. rewrite bind_get, Hnone. eexists. reflexivity.
Qed.

Lemma contract_operations_witness :
  fst (invoke op_startPlayback 0 ready) = Normal tt /\
  fst (invoke_rosbridge op_startPlayback (mkTime 101 0) Session.live) = Normal tt.
Proof.
  apply (contract_operations op_startPlayback 0 (mkTime 101 0) ready Session.live).
  vm_compute. intuition discriminate.
Defined.

(** C6, as stated, fails: closing an initialised engine twice closes
    the provider and the metrics collector twice. *)
Lemma second_close_releases_again :
  effects (run [call_close; call_close] ready)
  = effects (run [call_close] ready) ++ [provider_close; metrics metrics_close].
Proof. vm_compute. reflexivity. Qed.

(** What [close()] does, in one step. *)
Lemma close_eq (s : Player) :
  close s
  = (Normal tt,
     set_effects
       (effects s
        ++ (if negb (_initializing s) && negb (_hasError s) then [provider_close] else [])
        ++ [metrics metrics_close])
       (set_closed true (set_isPlaying false s))).
Proof.
  unfold close, effect. js_unfold. cbn.
  destruct (_initializing s), (_hasError s); cbn;
    rewrite <- ?app_assoc, ?app_nil_r; reflexivity.
Qed.

Lemma rosbridge_close_eq (live : RosbridgePlayer.Player) :
  RosbridgePlayer.close live
  = (Normal tt,
     RosbridgePlayer.set_hasReceivedMessage false
       (RosbridgePlayer.set_effects
          (RosbridgePlayer.effects live
           ++ (match RosbridgePlayer._rosClient live with
               | Some client => [RosbridgePlayer.ros_close client]
               | None => []
               end)
           ++ (match RosbridgePlayer._emitTimer live with
               | Some t => [RosbridgePlayer.clearTimeout t]
               | None => []
               end)
           ++ [RosbridgePlayer.metrics metrics_close])
          (RosbridgePlayer.set_emitTimer None (RosbridgePlayer.set_closed true live)))).
Proof.
  unfold RosbridgePlayer.close, RosbridgePlayer.effect. js_unfold. destruct live. cbn.
  repeat match goal with
         | |- context [match ?o with Some _ => _ | None => _ end] =>
             is_var o; destruct o; cbn
         end;
  rewrite <- ?app_assoc, ?app_nil_r; reflexivity.
Qed.

(** C6, amended. A second [close()] returns normally and leaves every
    field of the engine as the first left it, but it releases again:
    the metrics collector is closed again, and so is the provider
    (when initialised and not failed), respectively the roslib client
    (when connected). *)
Theorem second_close (s : Player) (live : RosbridgePlayer.Player) :
  close (snd (close s))
  = (Normal tt,
     set_effects
       (effects (snd (close s))
        ++ (if negb (_initializing s) && negb (_hasError s) then [provider_close] else [])
        ++ [metrics metrics_close])
       (snd (close s))) /\
  RosbridgePlayer.close (snd (RosbridgePlayer.close live))
  = (Normal tt,
     RosbridgePlayer.set_effects
       (RosbridgePlayer.effects (snd (RosbridgePlayer.close live))
        ++ (match RosbridgePlayer._rosClient live with
            | Some client => [RosbridgePlayer.ros_close client]
            | None => []
            end)
        ++ [RosbridgePlayer.metrics metrics_close])
       (snd (RosbridgePlayer.close live))).
Proof.
  split.
  - rewrite !close_eq. cbn [snd]. destruct s. vm_compute. reflexivity.
  - rewrite !rosbridge_close_eq. cbn [snd]. destruct live. vm_compute. reflexivity.
Qed.

End EngineClaims.

(** ** McapReader *)
Module ReaderFacts.
Import Mcap Decoding JsFacts.

Ltac js_unfold :=
  unfold mbind, mret, Js_bind, Js_ret, bind, ret, get, gets, modify, when,
    lift, throw, try_catch in *.

Ltac reader_unfold :=
  unfold nextRecord, generator_next, read_leading_magic, read_trailing_magic,
    read_chunk, read_chunk_records, suspend, append, storage_append,
    storage_consume, bytesRemaining in *.

Section reader.
Context `{Parse}.

(** *** After a failure *)

Lemma nextRecord_throw_completed (r r' : McapReader) (e : string) :
  nextRecord r = (Throw e, r') -> generator r' = Completed.
Proof.
  unfold nextRecord, generator_next. js_unfold.
  destruct (doneReading r); [discriminate|].
  match goal with
  | |- context [let (o, s') := ?m r in _] => destruct (m r) as [[[res|]|e'] r1]
  end; cbn.
  - destruct res; cbn; discriminate.
  - discriminate.
  - intros [= _ <-]. reflexivity.
Qed.

Lemma completed_nextRecord (r : McapReader) :
  generator r = Completed ->
  exists r', nextRecord r = (Normal (returns None), r') /\ generator r' = Completed.
Proof.
  intros Hg. unfold nextRecord, generator_next, generator_body. js_unfold.
  destruct (doneReading r) eqn:Hd; [eauto|].
  rewrite Hg. cbn. eexists. split; [reflexivity|]. exact Hg.
Qed.

Lemma completed_append (data : list byte) (r : McapReader) :
  generator r = Completed -> generator (snd (append data r)) = Completed.
Proof.
  intros Hg. unfold append, storage_append. js_unfold.
  destruct (doneReading r); cbn; exact Hg.
Qed.

(** A reader whose generator is completed returns no record any more. *)
Lemma completed_forever (actions : list Action) (r : McapReader) :
  generator r = Completed -> records_of actions r = [].
Proof.
  revert r. induction actions as [|[data|] actions IH]; intros r Hg; cbn [records_of].
  - reflexivity.
  - apply IH, completed_append, Hg.
  - destruct (completed_nextRecord r Hg) as (r' & -> & Hg'). apply IH, Hg'.
Qed.

Lemma decompressed_read_chunk continue_ compression decompressedSize data buffer
    (r : McapReader) :
  decompressed (decompressHandlers r) compression decompressedSize data = Some buffer ->
  read_chunk continue_ compression decompressedSize data r
  = read_chunk_records continue_ buffer 0 r.
Proof.
  unfold decompressed, read_chunk. js_unfold.
  destruct (String.eqb compression ""); cbn; [intros [= <-]; reflexivity|].
  destruct (decompressHandlers r !! compression) as [h|]; [|discriminate].
  destruct (h data decompressedSize); [|discriminate]. intros [= <-]. reflexivity.
Qed.



(** What [nextRecord] does with a throw of the generator. *)
Lemma nextRecord_throws (r r1 : McapReader) (e : string) :
  doneReading r = false ->
  generator_body (S (S (length (storage r)))) r r = (Throw e, r1) ->
  nextRecord r = (Throw e, set_generator Completed r1).
Proof.
  intros Hd Ht. unfold nextRecord, generator_next. js_unfold. rewrite Hd, Ht. reflexivity.
Qed.


(** *** Reading a well-formed file *)
Section files.
Variables (MAGIC : list byte) (wire : McapRecord -> list byte -> Prop).
Hypothesis resumable : Resumable MAGIC wire.
Variables (inc : bool) (handlers : gmap string (list byte -> Z -> outcome (list byte))).
Variables (footerBody footerBytes : list byte).
Hypothesis footer_wire : wire (Footer footerBody) footerBytes.

Definition reader (st : list byte) (d : bool) (g : Resume) : McapReader :=
  {| storage := st; decompressHandlers := handlers; includeChunks := inc;
     doneReading := d; generator := g |}.

(** The stored bytes either stop inside the next item or hold it whole. *)
Lemma stored_or_beginning (st rest item tail : list byte) :
  st ++ rest = item ++ tail ->
  (beginning st item /\ rest <> []) \/
  (exists st', st = item ++ st' /\ st' ++ rest = tail).
Proof.
  intros Heq. apply app_eq_inv in Heq as [(k & -> & ->) | (k & -> & ->)].
  - right. exists k. split; reflexivity.
  - destruct k as [|b k].
    + right. exists []. rewrite !app_nil_r. split; reflexivity.
    + left. split; [exists (b :: k); split; [discriminate|reflexivity]|discriminate].
Qed.

Lemma chunk_records_spec continue_ (nested : list McapRecord) (nestedBytes : list (list byte))
    (before st : list byte) (d : bool) (g : Resume) :
  Forall2 wire nested nestedBytes ->
  Forall (fun r => allowed_in_chunk r = true) nested ->
  read_chunk_records continue_ (before ++ concat nestedBytes) (length before) (reader st d g)
  = match nested, nestedBytes with
    | record :: _, bytes :: _ =>
        (Normal (returns (yielded (Some record))),
         reader st d (InChunk (before ++ concat nestedBytes) (length before) (length bytes)))
    | _, _ => continue_ (reader st d g)
    end.
Proof.
  intros Hw Ha. unfold read_chunk_records, suspend. js_unfold.
  destruct Hw as [|record bytes nested nestedBytes Hrb Hw].
  - cbn [concat]. rewrite app_nil_r, (record_end _ _ resumable). cbn.
    rewrite Nat.eqb_refl. reflexivity.
  - cbn [concat]. rewrite (record_whole _ _ resumable record bytes before _ Hrb).
    inversion Ha as [|? ? Hr _]; subst.
    destruct record; try discriminate; reflexivity.
Qed.

Lemma trailing_magic_spec (footer : McapRecord) (st rest : list byte) (g : Resume) :
  st ++ rest = MAGIC ->
  read_trailing_magic footer (reader st false g)
  = match rest with
    | [] => (Normal (returns (completed (Some footer))), reader [] false Completed)
    | _ => (Normal (returns (yielded None)), reader st false (AtTrailingMagic footer))
    end.
Proof.
  intros Heq. unfold read_trailing_magic, suspend, storage_consume, bytesRemaining.
  js_unfold. cbn. destruct rest as [|b rest].
  - rewrite app_nil_r in Heq. subst st.
    pose proof (magic_whole _ _ resumable []) as Hm. rewrite app_nil_r in Hm.
    rewrite Hm. cbn. rewrite drop_all. reflexivity.
  - rewrite (magic_beginning _ _ resumable st); [reflexivity|].
    exists (b :: rest). split; [discriminate|symmetry; exact Heq].
Qed.

(** Where the reader stands in the file. *)
Inductive Pos : Type :=
| PLeading (items : Items)
| PRecords (items : Items)
| PChunkHead (compression : string) (decompressedSize : Z) (data : list byte)
    (nested : list McapRecord) (items : Items)
| PInChunk (buffer : list byte) (chunkOffset usedBytes : nat)
    (nested : list McapRecord) (items : Items)
| PTrailing
| PDone.

Definition gen_of (pos : Pos) : Resume :=
  match pos with
  | PLeading _ => AtLeadingMagic
  | PRecords _ => AtRecord
  | PChunkHead compression decompressedSize data _ _ =>
      AfterChunkRecord (Chunk compression decompressedSize data)
  | PInChunk buffer chunkOffset usedBytes _ _ => InChunk buffer chunkOffset usedBytes
  | PTrailing => AtTrailingMagic (Footer footerBody)
  | PDone => Completed
  end.

Definition done_of (pos : Pos) : bool :=
  match pos with PDone => true | _ => false end.

(** The bytes of the file not consumed yet. *)
Definition ahead (pos : Pos) : list byte :=
  match pos with
  | PLeading items => file MAGIC items footerBytes
  | PRecords items | PChunkHead _ _ _ _ items | PInChunk _ _ _ _ items =>
      items_bytes items ++ footerBytes ++ MAGIC
  | PTrailing => MAGIC
  | PDone => []
  end.

(** The records still to be returned. *)
Definition pending (pos : Pos) : list McapRecord :=
  match pos with
  | PLeading items | PRecords items => items_records items ++ [Footer footerBody]
  | PChunkHead _ _ _ nested items | PInChunk _ _ _ nested items =>
      nested ++ items_records items ++ [Footer footerBody]
  | PTrailing => [Footer footerBody]
  | PDone => []
  end.

Definition nested_ok (buffer : list byte) (offset : nat) (nested : list McapRecord) : Prop :=
  exists before nestedBytes,
    buffer = before ++ concat nestedBytes /\ length before = offset /\
    Forall2 wire nested nestedBytes /\
    Forall (fun r => allowed_in_chunk r = true) nested.

Definition ok (pos : Pos) : Prop :=
  match pos with
  | PLeading items | PRecords items => well_formed wire inc handlers items
  | PChunkHead compression decompressedSize data nested items =>
      well_formed wire inc handlers items /\
      exists buffer,
        decompressed handlers compression decompressedSize data = Some buffer /\
        nested_ok buffer 0 nested
  | PInChunk buffer chunkOffset usedBytes nested items =>
      well_formed wire inc handlers items /\
      nested_ok buffer (chunkOffset + usedBytes) nested
  | PTrailing | PDone => True
  end.

(** What one run of the generator achieves, from [pos] to [pos']. *)
Definition advance (res : IteratorResult) (pos pos' : Pos) (rest : list byte) : Prop :=
  match res with
  | yielded (Some record) => done_of pos' = false /\ pending pos = record :: pending pos'
  | yielded None => done_of pos' = false /\ pending pos' = pending pos /\ rest <> []
  | completed (Some record) => pos' = PDone /\ pending pos = [record]
  | completed None => False
  end.

Definition reaches (m : Js McapReader (Returns IteratorResult)) (pos : Pos)
    (st rest : list byte) (g : Resume) : Prop :=
  exists res pos' st',
    m (reader st false g) = (Normal (returns res), reader st' false (gen_of pos')) /\
    ok pos' /\ st' ++ rest = ahead pos' /\ advance res pos pos' rest.

Lemma nested_records_spec continue_ buffer offset nested items st rest g :
  well_formed wire inc handlers items ->
  nested_ok buffer offset nested ->
  st ++ rest = items_bytes items ++ footerBytes ++ MAGIC ->
  (nested = [] -> reaches continue_ (PRecords items) st rest g) ->
  forall c s,
  reaches (read_chunk_records continue_ buffer offset)
    (PInChunk buffer c s nested items) st rest g.
Proof.
  intros Hwf (before & nbs & -> & <- & Hw & Ha) Hst Hcont c s.
  unfold reaches. rewrite (chunk_records_spec continue_ nested nbs before st false g Hw Ha).
  destruct Hw as [|record bytes nested nbs Hrb Hw].
  - destruct (Hcont eq_refl) as (res & pos' & st' & Hrun & Hok & Hst' & Hadv).
    exists res, pos', st'. split; [exact Hrun|]. split; [exact Hok|].
    split; [exact Hst'|]. exact Hadv.
  - exists (yielded (Some record)),
      (PInChunk (before ++ concat (bytes :: nbs)) (length before) (length bytes) nested items),
      st.
    split; [reflexivity|]. split; [|split; [exact Hst|split; reflexivity]].
    split; [exact Hwf|]. exists (before ++ bytes), nbs.
    split; [cbn [concat]; rewrite app_assoc; reflexivity|].
    split; [rewrite length_app; reflexivity|].
    inversion Ha; subst. split; assumption.
Qed.

Lemma reaches_ext m1 m2 pos st rest g :
  m1 (reader st false g) = m2 (reader st false g) ->
  reaches m2 pos st rest g -> reaches m1 pos st rest g.
Proof. intros Heq. unfold reaches. rewrite Heq. auto. Qed.

Lemma reaches_pending m pos1 pos2 st rest g :
  pending pos1 = pending pos2 -> reaches m pos1 st rest g -> reaches m pos2 st rest g.
Proof.
  intros Hp (res & pos' & st' & Hrun & Hok & Hst & Hadv).
  exists res, pos', st'. repeat (split; [assumption|]).
  unfold advance in *. rewrite <- Hp. exact Hadv.
Qed.

Lemma read_records_spec (items : Items) :
  well_formed wire inc handlers items ->
  forall rounds st rest g,
    st ++ rest = items_bytes items ++ footerBytes ++ MAGIC ->
    (length st < rounds)%nat ->
    reaches (read_records rounds) (PRecords items) st rest g.
Proof.
  induction items as [|[[r0 bs] outs] items IH]; intros Hwf rounds st rest g Hst Hlen;
    (destruct rounds as [|rounds]; [lia|]).
  - cbn in Hst.
    destruct (stored_or_beginning _ _ _ _ Hst) as [[Hb Hr] | (st' & -> & Hst')].
    + exists (yielded None), (PRecords []), st.
      split; [|split; [constructor|split; [exact Hst|repeat split; assumption]]].
      cbn [read_records]. unfold suspend. js_unfold. cbn.
      rewrite (record_beginning _ _ resumable _ _ st footer_wire Hb). reflexivity.
    + pose proof (record_whole _ _ resumable _ _ [] st' footer_wire) as Hp. cbn in Hp.
      assert (Hrun : read_records (S rounds) (reader (footerBytes ++ st') false g)
                     = read_trailing_magic (Footer footerBody) (reader st' false g)).
      { cbn [read_records]. unfold storage_consume. js_unfold. cbn. rewrite Hp. cbn.
        rewrite drop_app_length. reflexivity. }
      unfold reaches. rewrite Hrun, (trailing_magic_spec _ st' rest g Hst').
      destruct rest as [|b rest].
      * exists (completed (Some (Footer footerBody))), PDone, [].
        split; [reflexivity|]. split; [exact I|]. split; [reflexivity|].
        split; reflexivity.
      * exists (yielded None), PTrailing, st'.
        split; [reflexivity|]. split; [exact I|]. split; [exact Hst'|].
        split; [reflexivity|]. split; [reflexivity|discriminate].
  - inversion Hwf as [|? ? Hitem Hwf']; subst. cbn in Hitem.
    unfold items_bytes in Hst. cbn [List.map concat fst snd] in Hst.
    rewrite <- app_assoc in Hst. fold (items_bytes items) in Hst.
    destruct (stored_or_beginning _ _ _ _ Hst) as [[Hb Hr] | (st' & -> & Hst')].
    + assert (Hw : wire r0 bs) by (inversion Hitem; assumption).
      exists (yielded None), (PRecords ((r0, bs, outs) :: items)), st.
      split; [|split; [exact Hwf|split; [|repeat split; assumption]]].
      * cbn [read_records]. unfold suspend. js_unfold. cbn.
        rewrite (record_beginning _ _ resumable _ _ st Hw Hb). reflexivity.
      * unfold ahead, items_bytes. cbn [List.map concat fst snd].
        rewrite <- app_assoc. exact Hst.
    + assert (Hlen' : (length st' < rounds)%nat).
      { assert (bs <> []) by (inversion Hitem; eapply (wire_nonempty _ _ resumable); eassumption).
        rewrite length_app in Hlen. destruct bs; [contradiction|]. cbn in Hlen. lia. }
      inversion Hitem as [r bytes Hplain Hw | c sz data bytes buffer nested nbs Hw Hd Hn Hbuf Ha];
        subst.
      * pose proof (record_whole _ _ resumable _ _ [] st' Hw) as Hp. cbn in Hp.
        exists (yielded (Some r0)), (PRecords items), st'.
        split; [|split; [exact Hwf'|split; [exact Hst'|split; reflexivity]]].
        cbn [read_records]. unfold suspend, storage_consume. js_unfold. cbn. rewrite Hp. cbn.
        rewrite drop_app_length. destruct r0; try discriminate; reflexivity.
      * pose proof (record_whole _ _ resumable _ _ [] st' Hw) as Hp. cbn in Hp.
        assert (Hrun : read_records (S rounds) (reader (bs ++ st') false g)
                       = if inc
                         then (Normal (returns (yielded (Some (Chunk c sz data)))),
                               reader st' false (AfterChunkRecord (Chunk c sz data)))
                         else read_chunk_records (read_records rounds) (concat nbs) 0
                                (reader st' false g)).
        { cbn [read_records]. unfold suspend, storage_consume, reader. js_unfold. cbn.
          rewrite Hp. cbn. rewrite drop_app_length.
          rewrite <- (decompressed_read_chunk (read_records rounds) c sz data (concat nbs)
                        (mkMcapReader st' handlers inc false g) Hd).
          destruct inc; reflexivity. }
        assert (Hcase : inc = true \/ inc = false) by (destruct inc; auto).
        destruct Hcase as [Hinc|Hinc]; rewrite Hinc in Hrun.
        -- exists (yielded (Some (Chunk c sz data))), (PChunkHead c sz data nested items), st'.
           split; [exact Hrun|]. split; [|split; [exact Hst'|split; [reflexivity|]]].
           ++ split; [exact Hwf'|]. exists (concat nbs). split; [exact Hd|].
              exists [], nbs. repeat split; assumption.
           ++ cbn. unfold items_records. cbn. rewrite Hinc, <- !app_assoc. reflexivity.
        -- assert (Hnested : reaches (read_chunk_records (read_records rounds) (concat nbs) 0)
                               (PInChunk (concat nbs) 0 0 nested items) st' rest g).
           { apply nested_records_spec; try assumption.
             - exists [], nbs. repeat split; assumption.
             - intros _. apply IH; assumption. }
           apply (reaches_pending _ (PInChunk (concat nbs) 0 0 nested items)) ;
             [cbn; unfold items_records; cbn; rewrite Hinc, <- !app_assoc; reflexivity|].
           destruct Hnested as (res & pos' & st'' & Hrun' & Hrest).
           exists res, pos', st''. split; [|exact Hrest].
           rewrite Hrun. exact Hrun'.
Qed.

(** From a run of the generator to the call of [nextRecord]. *)
Lemma nextRecord_reaches pos st rest :
  done_of pos = false ->
  reaches (generator_body (S (S (length st))) (reader st false (gen_of pos)))
    pos st rest (gen_of pos) ->
  exists v pos' st',
    nextRecord (reader st (done_of pos) (gen_of pos))
    = (Normal (returns v), reader st' (done_of pos') (gen_of pos')) /\
    ok pos' /\ st' ++ rest = ahead pos' /\
    match v with
    | Some record => pending pos = record :: pending pos'
    | None => pending pos' = pending pos /\ (rest = [] -> pos' = PDone)
    end.
Proof.
  intros Hd (res & pos' & st' & Hrun & Hok & Hst & Hadv). rewrite Hd.
  unfold nextRecord, generator_next. js_unfold. unfold reader in *.
  cbn [doneReading storage]. rewrite Hrun. cbn.
  destruct res as [v|v]; cbn in Hadv.
  - exists v, pos', st'. destruct v as [record|].
    + destruct Hadv as [Hd' Hp]. rewrite Hd'. auto.
    + destruct Hadv as (Hd' & Hp & Hr). rewrite Hd'.
      repeat (split; [solve [auto]|]). intros ->. contradiction.
  - destruct v as [record|]; [|contradiction]. destruct Hadv as [-> Hp].
    exists (Some record), PDone, st'. auto.
Qed.

Lemma nextRecord_spec pos st rest :
  ok pos -> st ++ rest = ahead pos ->
  exists v pos' st',
    nextRecord (reader st (done_of pos) (gen_of pos))
    = (Normal (returns v), reader st' (done_of pos') (gen_of pos')) /\
    ok pos' /\ st' ++ rest = ahead pos' /\
    match v with
    | Some record => pending pos = record :: pending pos'
    | None => pending pos' = pending pos /\ (rest = [] -> pos' = PDone)
    end.
Proof.
  intros Hok Hst.
  destruct pos as [items|items|c sz data nested items|buffer off used nested items| |];
    cbn [ok ahead] in *.
  - (* the leading magic *)
    apply nextRecord_reaches; [reflexivity|]. unfold generator_body. cbn [generator reader gen_of].
    unfold file in Hst.
    destruct (stored_or_beginning _ _ _ _ Hst) as [[Hb Hr] | (st' & -> & Hst')].
    + exists (yielded None), (PLeading items), st.
      split; [|split; [exact Hok|split; [exact Hst|repeat split; assumption]]].
      unfold read_leading_magic, suspend. js_unfold. cbn.
      rewrite (magic_beginning _ _ resumable st Hb). reflexivity.
    + assert (Hrun : read_leading_magic (S (S (length (MAGIC ++ st'))))
                       (reader (MAGIC ++ st') false AtLeadingMagic)
                     = read_records (S (S (length (MAGIC ++ st'))))
                         (reader st' false AtLeadingMagic)).
      { unfold read_leading_magic, storage_consume. js_unfold. cbn.
        rewrite (magic_whole _ _ resumable st'). cbn. rewrite drop_app_length.
        reflexivity. }
      destruct (read_records_spec items Hok (S (S (length (MAGIC ++ st')))) st' rest
                  AtLeadingMagic Hst')
        as (res & pos' & st'' & Hrun' & Hrest); [rewrite length_app; lia|].
      exists res, pos', st''. split; [rewrite Hrun; exact Hrun'|exact Hrest].
  - (* between records *)
    apply nextRecord_reaches; [reflexivity|]. unfold generator_body. cbn [generator reader gen_of].
    apply read_records_spec; [assumption..|lia].
  - (* after a chunk record was returned *)
    apply nextRecord_reaches; [reflexivity|]. unfold generator_body. cbn [generator reader gen_of].
    destruct Hok as (Hwf & buffer & Hd & Hn).
    eapply reaches_ext;
      [apply (decompressed_read_chunk _ c sz data buffer
                (reader st false (AfterChunkRecord (Chunk c sz data))) Hd)|].
    apply (reaches_pending _ (PInChunk buffer 0 0 nested items)); [reflexivity|].
    apply (nested_records_spec _ buffer 0 nested items st rest _ Hwf Hn Hst).
    intros _. apply read_records_spec; [assumption..|lia].
  - (* inside a chunk *)
    apply nextRecord_reaches; [reflexivity|]. unfold generator_body. cbn [generator reader gen_of].
    destruct Hok as (Hwf & Hn).
    apply (nested_records_spec _ buffer (off + used) nested items st rest _ Hwf Hn Hst).
    intros _. apply read_records_spec; [assumption..|lia].
  - (* the trailing magic *)
    apply nextRecord_reaches; [reflexivity|]. unfold generator_body. cbn [generator reader gen_of].
    unfold reaches. rewrite (trailing_magic_spec _ st rest _ Hst).
    destruct rest as [|b rest].
    + exists (completed (Some (Footer footerBody))), PDone, [].
      repeat split; reflexivity.
    + exists (yielded None), PTrailing, st.
      split; [reflexivity|]. split; [exact I|]. split; [exact Hst|].
      repeat split; discriminate.
  - (* done *)
    exists None, PDone, st. split; [reflexivity|]. repeat split; assumption.
Qed.

Lemma readAll_spec calls :
  forall pos st rest,
    ok pos -> st ++ rest = ahead pos -> (length (pending pos) < calls)%nat ->
    exists outs pos' st',
      readAll calls (reader st (done_of pos) (gen_of pos))
      = (Normal (returns outs), reader st' (done_of pos') (gen_of pos')) /\
      ok pos' /\ st' ++ rest = ahead pos' /\
      pending pos = outs ++ pending pos' /\ (rest = [] -> pos' = PDone).
Proof.
  induction calls as [|calls IH]; intros pos st rest Hok Hst Hlen; [lia|].
  destruct (nextRecord_spec pos st rest Hok Hst) as (v & pos1 & st1 & Hrun & Hok1 & Hst1 & Hv).
  cbn [readAll]. unfold mbind, Js_bind, bind. rewrite Hrun.
  destruct v as [record|].
  - destruct (IH pos1 st1 rest Hok1 Hst1) as (outs & pos' & st' & Hrun' & Hok' & Hst' & Hp & Hd).
    { rewrite Hv in Hlen. cbn in Hlen. lia. }
    rewrite Hrun'. exists (record :: outs), pos', st'.
    split; [reflexivity|]. repeat (split; [assumption|]).
    split; [rewrite Hv, Hp; reflexivity|exact Hd].
  - destruct Hv as [Hp Hd]. exists [], pos1, st1.
    split; [reflexivity|]. repeat (split; [assumption|]).
    split; [symmetry; exact Hp|exact Hd].
Qed.

Lemma feed_cons calls fragment fragments st g :
  feed calls (fragment :: fragments) (reader st false g)
  = match readAll calls (reader (st ++ fragment) false g) with
    | (Normal (returns records), r') =>
        match feed calls fragments r' with
        | (Normal (returns more), r'') => (Normal (returns (records ++ more)), r'')
        | (Normal hangs, r'') => (Normal hangs, r'')
        | (Throw e, r'') => (Throw e, r'')
        end
    | (Normal hangs, r') => (Normal hangs, r')
    | (Throw e, r') => (Throw e, r')
    end.
Proof.
  cbn [feed]. unfold append, storage_append, done, reader. js_unfold. cbn.
  destruct (readAll calls _) as [[[records|]|e] r']; try reflexivity.
  destruct (feed calls fragments r') as [[[more|]|e] r'']; reflexivity.
Qed.

Lemma feed_spec fragments :
  forall pos st calls,
    ok pos -> st ++ concat fragments = ahead pos ->
    (concat fragments = [] -> pos = PDone) ->
    (length (pending pos) < calls)%nat ->
    exists st',
      feed calls fragments (reader st (done_of pos) (gen_of pos))
      = (Normal (returns (pending pos)), reader st' true Completed).
Proof.
  induction fragments as [|fragment fragments IH]; intros pos st calls Hok Hst Hdone Hlen.
  - rewrite (Hdone eq_refl). exists st. reflexivity.
  - destruct (done_of pos) eqn:Hd.
    { destruct pos; try discriminate. exists st. reflexivity. }
    cbn [concat] in Hst. rewrite app_assoc in Hst.
    destruct (readAll_spec calls pos (st ++ fragment) (concat fragments) Hok Hst Hlen)
      as (outs & pos1 & st1 & Hrun & Hok1 & Hst1 & Hp & Hd1).
    destruct (IH pos1 st1 calls Hok1 Hst1 Hd1) as (st' & Hrun').
    { rewrite Hp, length_app in Hlen. lia. }
    exists st'. rewrite Hd in Hrun. rewrite feed_cons, Hrun, Hrun', Hp. reflexivity.
Qed.

(** A well-formed file, cut into fragments anyhow, is read to its end. *)
Lemma feed_file (items : Items) (fragments : list (list byte)) (calls : nat) :
  well_formed wire inc handlers items ->
  concat fragments = file MAGIC items footerBytes ->
  (length (items_records items) + 1 < calls)%nat ->
  exists st',
    feed calls fragments (new_McapReader inc handlers)
    = (Normal (returns (items_records items ++ [Footer footerBody])),
       reader st' true Completed).
Proof.
  intros Hwf Hcat Hlen.
  apply (feed_spec fragments (PLeading items) [] calls Hwf).
  - exact Hcat.
  - rewrite Hcat. unfold file. intros Hnil.
    apply app_eq_nil in Hnil as [_ Hnil]. apply app_eq_nil in Hnil as [_ Hnil].
    apply app_eq_nil in Hnil as [Hnil _].
    exfalso. exact (wire_nonempty _ _ resumable _ _ footer_wire Hnil).
  - cbn [pending]. rewrite length_app. cbn. lia.
Qed.

End files.

End reader.

End ReaderFacts.

(** ** The byte format resumes *)
Module WireFacts.
Import Mcap Decoding Wire.
Local Open Scope nat_scope.

Lemma nat_of_byte_of_nat (n : nat) : nat_of_byte (byte_of_nat n) = n mod 256.
Proof.
  unfold nat_of_byte, byte_of_nat.
  destruct (Byte.of_nat (n mod 256)) as [b|] eqn:E; cbn.
  - apply Byte.to_of_nat in E. exact E.
  - apply Byte.of_nat_None_iff in E.
    pose proof (Nat.mod_upper_bound n 256). lia.
Qed.

Lemma length_le_encode (width n : nat) : length (le_encode width n) = width.
Proof. revert n. induction width as [|w IH]; intros n; cbn; [reflexivity|]. rewrite IH. reflexivity. Qed.

Lemma le_decode_encode (width n : nat) :
  n < 256 ^ width -> le_decode (le_encode width n) = n.
Proof.
  revert n. induction width as [|w IH]; intros n Hn.
  - cbn in *. lia.
  - cbn [le_encode le_decode]. rewrite nat_of_byte_of_nat, IH.
    + pose proof (Nat.div_mod_eq n 256). lia.
    + apply Nat.Div0.div_lt_upper_bound. rewrite Nat.pow_succ_r' in Hn. lia.
Qed.

Lemma nat_bound (n width : nat) : (Z.of_nat n < 256 ^ Z.of_nat width)%Z -> n < 256 ^ width.
Proof. intros Hn. apply Nat2Z.inj_lt. rewrite Nat2Z.inj_pow. exact Hn. Qed.

Lemma payload_bound (r : McapRecord) : encodable r -> length (payload r) < 256 ^ 4.
Proof. intros [Hlen _]. exact (nat_bound _ 4 Hlen). Qed.

Lemma decode_payload (r : McapRecord) : encodable r -> decode (tag r) (payload r) = Normal r.
Proof.
  intros [Hlen Hr]. destruct r as [b|b|b|b|c size data|b]; try reflexivity.
  destruct Hr as (Hc & Hs0 & Hs). apply (nat_bound _ 4) in Hc.
  assert (Hs' : Z.to_nat size < 256 ^ 8) by (apply (nat_bound _ 8); rewrite Z2Nat.id; assumption).
  clear Hs. rename Hs' into Hs.
  cbn [tag payload]. unfold decode.
  set (name := list_byte_of_string c) in *.
  rewrite (take_app_length' (le_encode 4 (length name))) by (rewrite length_le_encode; reflexivity).
  rewrite (le_decode_encode 4 _ Hc).
  rewrite (drop_app_length' (le_encode 4 (length name))) by (rewrite length_le_encode; reflexivity).
  rewrite (take_app_length' name) by reflexivity.
  assert (E1 : drop (4 + length name) (le_encode 4 (length name) ++ name
                 ++ le_encode 8 (Z.to_nat size) ++ data)
               = le_encode 8 (Z.to_nat size) ++ data).
  { rewrite app_assoc. apply drop_app_length'. rewrite length_app, length_le_encode. reflexivity. }
  rewrite E1.
  rewrite (take_app_length' (le_encode 8 (Z.to_nat size))) by (rewrite length_le_encode; reflexivity).
  rewrite (le_decode_encode 8 _ Hs).
  assert (E2 : drop (4 + length name + 8) (le_encode 4 (length name) ++ name
                 ++ le_encode 8 (Z.to_nat size) ++ data) = data).
  { rewrite !app_assoc. apply drop_app_length'. rewrite !length_app, !length_le_encode. reflexivity. }
  rewrite E2.
  destruct (Nat.ltb_spec (length (le_encode 4 (length name) ++ name
                 ++ le_encode 8 (Z.to_nat size) ++ data)) (4 + length name + 8)) as [Hlt|_].
  { rewrite !length_app, !length_le_encode in Hlt. lia. }
  unfold name. rewrite string_of_list_byte_of_string, Z2Nat.id by exact Hs0. reflexivity.
Qed.

Lemma encode_shape (r : McapRecord) :
  exists l0 l1 l2 l3,
    encode r = tag r :: l0 :: l1 :: l2 :: l3 :: payload r /\
    [l0; l1; l2; l3] = le_encode 4 (length (payload r)).
Proof. unfold encode. cbn [le_encode app]. do 4 eexists. split; reflexivity. Qed.

Lemma parse_whole (r : McapRecord) (before rest : list byte) :
  encodable r ->
  wire_parseRecord (before ++ encode r ++ rest) (length before)
  = Normal (parsed r (length (encode r))).
Proof.
  intros Hr. unfold wire_parseRecord. rewrite drop_app_length.
  destruct (encode_shape r) as (l0 & l1 & l2 & l3 & -> & Hl). cbn [app].
  rewrite Hl, (le_decode_encode 4 _ (payload_bound r Hr)).
  destruct (Nat.ltb_spec (length (payload r ++ rest)) (length (payload r))) as [Hlt|_].
  { rewrite length_app in Hlt. lia. }
  rewrite take_app_length, (decode_payload r Hr). reflexivity.
Qed.

Lemma parse_beginning (r : McapRecord) (p : list byte) :
  encodable r -> beginning p (encode r) -> wire_parseRecord p 0 = Normal incomplete.
Proof.
  intros Hr (q & Hq & Heq). unfold wire_parseRecord. rewrite drop_0.
  destruct (encode_shape r) as (l0 & l1 & l2 & l3 & E & Hl). rewrite E in Heq.
  do 5 (destruct p as [|? p]; [reflexivity|]).
  cbn [app] in Heq. injection Heq as E0 E1 E2 E3 E4 Hp. subst.
  rewrite Hl, (le_decode_encode 4 _ (payload_bound r Hr)).
  destruct (Nat.ltb_spec (length p) (length (payload r))) as [_|Hge]; [reflexivity|].
  exfalso. rewrite Hp, length_app in Hge. destruct q; [contradiction|]. cbn in Hge. lia.
Qed.

(** The format satisfies what the reader asks of its parsers. *)
Lemma wire_resumable : Resumable MCAP_MAGIC wire.
Proof.
  split.
  - intros rest. reflexivity.
  - intros p (q & Hq & Heq). cbn. unfold wire_parseMagic.
    destruct (Nat.ltb_spec (length p) (0 + length MCAP_MAGIC)) as [_|Hge]; [reflexivity|].
    exfalso. apply (f_equal length) in Heq. rewrite length_app in Heq.
    destruct q; [contradiction|]. cbn in *. lia.
  - intros r bytes before rest [Hr ->]. apply parse_whole, Hr.
  - intros r bytes p [Hr ->] Hb. apply (parse_beginning r p Hr Hb).
  - intros view. cbn. unfold wire_parseRecord. rewrite drop_all. reflexivity.
  - intros r bytes [_ ->]. discriminate.
Qed.

End WireFacts.

(** ** The streaming reader: claims *)
Module ReaderClaims.
Import Mcap Decoding Wire Capture.

(** The example files are well-formed files of the byte format. *)
Lemma encodable_capture (r : McapRecord) :
  In r [channelInfo; msg; footer; chunk] -> encodable r.
Proof.
  cbn [In]. intros [<-|[<-|[<-|[<-|[]]]]]; vm_compute; intuition congruence.
Qed.

Lemma wire_capture (r : McapRecord) :
  In r [channelInfo; msg; footer; chunk] -> wire r (encode r).
Proof. intros Hr. split; [apply encodable_capture, Hr | reflexivity]. Qed.

Lemma flat_well_formed (includeChunks : bool) :
  well_formed wire includeChunks ∅ flat_items.
Proof.
  repeat constructor; cbn [fst snd]; try (apply wire_capture; cbn; tauto);
    try (apply encodable_capture; cbn; tauto).
Qed.

Lemma chunked_well_formed (includeChunks : bool) :
  well_formed wire includeChunks ∅ (chunked_items includeChunks).
Proof.
  constructor; [|constructor]. cbn [fst snd chunked_items].
  apply (item_chunk wire includeChunks ∅ "" 0 (encode msg ++ encode channelInfo)
           (encode chunk) (encode msg ++ encode channelInfo)
           [msg; channelInfo] [encode msg; encode channelInfo]).
  - apply wire_capture. cbn; tauto.
  - reflexivity.
  - repeat constructor; apply encodable_capture; cbn; tauto.
  - cbn [concat]. rewrite app_nil_r. reflexivity.
  - repeat constructor.
Qed.

(** C3, counterexample: a file whose record sequence is one chunk
    (holding a message and a channel-info) and the footer. Fed byte by
    byte to a fresh reader, the records returned are the chunk's nested
    records and the footer, not the chunk; with [includeChunks] the
    chunk is returned and its nested records after it. Neither is the
    sequence that was encoded. *)
Lemma chunk_is_replaced_by_its_records :
  fst (feed 8 (bytewise chunked_file) (fresh false))
    = Normal (returns [msg; channelInfo; footer]) /\
  fst (feed 8 (bytewise chunked_file) (fresh true))
    = Normal (returns [chunk; msg; channelInfo; footer]) /\
  [msg; channelInfo; footer] <> [chunk; footer] /\
  [chunk; msg; channelInfo; footer] <> [chunk; footer].
Proof. vm_compute. repeat split; congruence. Qed.

(** C3, amended: for a well-formed file (magic, top-level records, footer,
    magic, in any encoding the parsers resume on) cut into fragments in
    any way, a consumer that appends each fragment to a fresh reader and
    calls [nextRecord] until it asks for more bytes receives, whatever
    the fragments: for each top-level record in order, the record itself
    if it is not a chunk, and for a chunk its nested records (after the
    chunk itself when chunks are included); then the footer record. No
    call blocks or throws, and the reader ends done. *)
Theorem fragments_decode_to_the_records_read `{Parse}
    (MAGIC : list byte) (wire : McapRecord -> list byte -> Prop)
    (includeChunks : bool) (handlers : gmap string (list byte -> Z -> outcome (list byte)))
    (footerBody footerBytes : list byte)
    (items : Items) (fragments : list (list byte)) (calls : nat) :
  Resumable MAGIC wire ->
  wire (Footer footerBody) footerBytes ->
  well_formed wire includeChunks handlers items ->
  concat fragments = file MAGIC items footerBytes ->
  (length (items_records items) + 1 < calls)%nat ->
  exists r',
    feed calls fragments (new_McapReader includeChunks handlers)
    = (Normal (returns (items_records items ++ [Footer footerBody])), r')
    /\ done r' = true.
Proof.
  intros Hres Hfooter Hwf Hcat Hcalls.
  destruct (ReaderFacts.feed_file MAGIC wire Hres includeChunks handlers
              footerBody footerBytes Hfooter items fragments calls Hwf Hcat Hcalls)
    as [st' Hrun].
  eexists. split; [exact Hrun | reflexivity].
Qed.

Lemma fragments_decode_to_the_records_read_witness :
  exists r',
    feed 8 (pieces 2 chunked_file) (fresh true)
    = (Normal (returns [chunk; msg; channelInfo; footer]), r')
    /\ done r' = true.
Proof.
  apply (fragments_decode_to_the_records_read MCAP_MAGIC wire true ∅
           footer_body (encode footer) (chunked_items true)
           (pieces 2 chunked_file) 8).
  - exact WireFacts.wire_resumable.
  - apply wire_capture. cbn; tauto.
  - apply chunked_well_formed.
  - vm_compute. reflexivity.
  - vm_compute. lia.
Defined.

(** C7, counterexample: the file [magic] [channel-info] [message]
    [footer] [magic], fed byte by byte: three records are returned, the
    third is the footer. *)
Lemma footer_is_returned :
  fst (feed 8 (bytewise flat_file) (fresh false))
    = Normal (returns [channelInfo; msg; footer]) /\
  [channelInfo; msg; footer] <> [channelInfo; msg].
Proof. vm_compute. split; congruence. Qed.

(** C7, amended: the bytes [magic] [channel-info] [message] [footer]
    [magic], appended in any fragments, produce exactly the records
    channel-info, message, footer; the reader is then done, nothing is
    thrown for trailing bytes, and no later call produces a record. *)
Theorem flat_file_records `{Parse}
    (MAGIC : list byte) (wire : McapRecord -> list byte -> Prop)
    (includeChunks : bool) (handlers : gmap string (list byte -> Z -> outcome (list byte)))
    (a m f : list byte) (aBytes mBytes fBytes : list byte)
    (fragments : list (list byte)) (calls : nat) :
  Resumable MAGIC wire ->
  wire (ChannelInfo a) aBytes -> wire (Message m) mBytes -> wire (Footer f) fBytes ->
  concat fragments = MAGIC ++ aBytes ++ mBytes ++ fBytes ++ MAGIC ->
  (3 < calls)%nat ->
  exists r',
    feed calls fragments (new_McapReader includeChunks handlers)
    = (Normal (returns [ChannelInfo a; Message m; Footer f]), r')
    /\ done r' = true
    /\ forall actions, records_of actions r' = [].
Proof.
  intros Hres Ha Hm Hf Hcat Hcalls.
  pose (items := [ (ChannelInfo a, aBytes, [ChannelInfo a]);
                   (Message m, mBytes, [Message m]) ] : Items).
  assert (Hwf : well_formed wire includeChunks handlers items).
  { repeat constructor; assumption. }
  destruct (ReaderFacts.feed_file MAGIC wire Hres includeChunks handlers
              f fBytes Hf items fragments calls Hwf) as [st' Hrun].
  - rewrite Hcat. unfold file, items_bytes, items. cbn. rewrite app_nil_r, <- !app_assoc.
    reflexivity.
  - cbn. lia.
  - eexists. split; [exact Hrun|]. split; [reflexivity|].
    intros actions. apply ReaderFacts.completed_forever. reflexivity.
Qed.

Lemma flat_file_records_witness :
  exists r',
    feed 8 (bytewise flat_file) (fresh false)
    = (Normal (returns [channelInfo; msg; footer]), r')
    /\ done r' = true
    /\ forall actions, records_of actions r' = [].
Proof.
  apply (flat_file_records MCAP_MAGIC wire false ∅ _ _ _
           (encode channelInfo) (encode msg) (encode footer)).
  - exact WireFacts.wire_resumable.
  - apply (wire_capture channelInfo). cbn; tauto.
  - apply (wire_capture msg). cbn; tauto.
  - apply (wire_capture footer). cbn; tauto.
  - vm_compute. reflexivity.
  - lia.
Defined.



(** The same on whole files: each is refused with an exception, and the
    records before the fault are all that is ever returned. *)
Example rejected_files :
  (exists e, fst (feed 8 [overlong_file] (fresh false)) = Throw e) /\
  (exists e, fst (feed 8 (bytewise nesting_file) (fresh false)) = Throw e) /\
  (exists e, fst (feed 8 (bytewise lz4_file) (fresh false)) = Throw e) /\
  records_of (do_append nesting_file :: repeat do_nextRecord 8) (fresh false) = [msg].
Proof.
  split; [|split; [|split]]; [eexists| eexists | eexists |]; vm_compute; reflexivity.
Qed.

End ReaderClaims.

(** ** The insertion-ordered map *)
Module JsMapFacts.

Lemma has_set {V} (k k' : string) (v : V) (m : JsMap.t V) :
  JsMap.has k' (JsMap.set k v m) = String.eqb k k' || JsMap.has k' m.
Proof.
  unfold JsMap.set. destruct (JsMap.has k m) eqn:Hk.
  - unfold JsMap.has in *. induction m as [|[a b] m IH]; cbn in *; [discriminate|].
    destruct (String.eqb_spec a k) as [->|Hak]; cbn.
    + destruct (String.eqb_spec k k'); cbn; [reflexivity|].
      clear IH Hk. induction m as [|[a' b'] m IH]; cbn; [reflexivity|].
      destruct (String.eqb_spec a' k) as [->|Ha']; cbn; rewrite IH; [|reflexivity].
      destruct (String.eqb_spec k k'); [contradiction | reflexivity].
    + cbn in Hk. rewrite (IH Hk).
      destruct (String.eqb k k'), (String.eqb a k'); reflexivity.
  - unfold JsMap.has. rewrite existsb_app. cbn.
    destruct (existsb _ m), (String.eqb k k'); reflexivity.
Qed.

Lemma has_delete {V} (k k' : string) (m : JsMap.t V) :
  JsMap.has k' (JsMap.delete k m) = negb (String.eqb k k') && JsMap.has k' m.
Proof.
  unfold JsMap.has, JsMap.delete. induction m as [|[a b] m IH]; cbn.
  - rewrite andb_false_r. reflexivity.
  - destruct (String.eqb_spec a k) as [->|Hak]; cbn; rewrite IH.
    + destruct (String.eqb k k'); reflexivity.
    + destruct (String.eqb_spec a k') as [->|Hak']; cbn; [|reflexivity].
      destruct (String.eqb_spec k k') as [->|]; [contradiction | reflexivity].
Qed.

Lemma has_nil {V} (k : string) : JsMap.has k ([] : JsMap.t V) = false.
Proof. reflexivity. Qed.

Lemma get_has {V} (k : string) (m : JsMap.t V) :
  JsMap.has k m = match JsMap.get k m with Some _ => true | None => false end.
Proof.
  unfold JsMap.has, JsMap.get. induction m as [|[a b] m IH]; cbn; [reflexivity|].
  destruct (String.eqb a k); cbn; [reflexivity | exact IH].
Qed.

Lemma has_keys {V} (k : string) (m : JsMap.t V) :
  JsMap.has k m = existsb (String.eqb k) (List.map fst m).
Proof.
  unfold JsMap.has. induction m as [|[a b] m IH]; cbn; [reflexivity|].
  rewrite IH, (String.eqb_sym a k). reflexivity.
Qed.

Lemma get_set {V} (k : string) (v : V) (m : JsMap.t V) :
  JsMap.get k (JsMap.set k v m) = Some v.
Proof.
  unfold JsMap.set. destruct (JsMap.has k m) eqn:Hk; unfold JsMap.get, JsMap.has in *.
  - induction m as [|[a b] m IH]; cbn in *; [discriminate|].
    destruct (String.eqb_spec a k) as [->|Hak]; cbn.
    + rewrite String.eqb_refl. reflexivity.
    + destruct (String.eqb_spec a k); [contradiction|]. cbn in Hk. exact (IH Hk).
  - induction m as [|[a b] m IH]; cbn in *.
    + rewrite String.eqb_refl. reflexivity.
    + destruct (String.eqb a k); cbn in *; [discriminate | exact (IH Hk)].
Qed.

End JsMapFacts.

(** ** RandomAccessPlayer: errors, accounting, repeated calls *)
Module EngineConduct.
Import RandomAccessPlayer JsFacts RostimeFacts Playback RandomAccessFacts Conduct.

Lemma run_cons (e : Event) (events : list Event) (s : Player) :
  run (e :: events) s = run events (snd (step e s)).
Proof. reflexivity. Qed.

(** *** A failed engine stays failed *)
Section errored.
Variable base : list PlayerState.

Lemma errored_emitState_fn : preserves (errored base) emitState_fn.
Proof.
  intros s [He (more & Hm & Hf)]. unfold emitState_fn, effect. js_unfold. cbn.
  destruct (_listener s) eqn:Hl; cbn; [rewrite He; cbn|].
  - split; [exact He|]. unfold emitted in *. cbn. rewrite omap_app, Hm. cbn.
    eexists. split; [rewrite <- app_assoc; reflexivity|].
    apply Forall_app. split; [exact Hf|]. repeat constructor.
  - split; [exact He|]. exists more. split; assumption.
Qed.
Hint Resolve errored_emitState_fn : pres.

Ltac leaf :=
  match goal with
  | H : errored _ _ |- _ => destruct H as [? ?]
  end;
  unfold errored, emitted in *; cbn;
  rewrite ?omap_app; cbn; rewrite ?app_nil_r;
  split; [first [reflexivity | assumption] | assumption].

Lemma errored_filterMap topics l : preserves (errored base) (filterMap (filterMessage topics) l).
Proof.
  induction l as [|x l IH]; cbn [filterMap]; unfold filterMessage; unfold_methods; pres leaf.
Qed.
Hint Resolve errored_filterMap : pres.

Lemma errored_step e : preserves (errored base) (step e).
Proof. destruct e; cbn [step]; unfold_methods; pres leaf. Qed.

Lemma errored_run events s : errored base s -> errored base (run events s).
Proof.
  revert s. induction events as [|e events IH]; intros s Hs; [exact Hs|].
  rewrite run_cons. apply IH, errored_step, Hs.
Qed.

End errored.

(** X1: once the engine has failed ([_setError]), it stays failed: no
    event clears [_hasError], and every state the listener receives from
    then on has presence ERROR, no capabilities and no [activeData]. *)
Theorem error_is_final (events : list Event) (s : Player) :
  _hasError s = true ->
  _hasError (run events s) = true /\
  exists more, emitted (run events s) = emitted s ++ more /\ Forall error_state more.
Proof.
  intros He. apply (errored_run (emitted s)). split; [exact He|].
  exists []. split; [rewrite app_nil_r; reflexivity | constructor].
Qed.

Lemma error_is_final_witness :
  _hasError (run Episodes.afterwards Episodes.failed) = true /\
  exists more,
    emitted (run Episodes.afterwards Episodes.failed) = emitted Episodes.failed ++ more /\
    Forall error_state more.
Proof.
  apply (error_is_final Episodes.afterwards Episodes.failed). vm_compute. reflexivity.
Defined.

(** *** Bytes received *)
Section received.
Variable n : Z.

Definition received_is (s : Player) : Prop := _receivedBytes s = n.

Ltac leaf := unfold received_is in *; cbn; assumption.

Lemma received_emitState_fn : preserves received_is emitState_fn.
Proof. unfold emitState_fn, effect. pres leaf. Qed.
Hint Resolve received_emitState_fn : pres.

Lemma received_filterMap topics l : preserves received_is (filterMap (filterMessage topics) l).
Proof.
  induction l as [|x l IH]; cbn [filterMap]; unfold filterMessage; unfold_methods; pres leaf.
Qed.
Hint Resolve received_filterMap : pres.

Lemma received_step e :
  match e with on_metadata (received_bytes _) => False | _ => True end ->
  preserves received_is (step e).
Proof.
  destruct e; cbn [step]; intros He;
    try match goal with md : RandomAccessDataProviderMetadata |- _ => destruct md end;
    try (exfalso; exact He); unfold_methods; pres leaf.
Qed.

End received.

(** X2: the byte count the engine reports ([totalBytesReceived]) is the
    sum of the provider's [received_bytes] reports: each report adds its
    bytes, and nothing else changes the count. *)
Theorem received_bytes_total (events : list Event) (s : Player) :
  _receivedBytes (run events s) = _receivedBytes s + reported_bytes events.
Proof.
  revert s. induction events as [|e events IH]; intros s; [cbn; lia|].
  rewrite run_cons, IH. cbn [reported_bytes fold_right].
  change (fold_right _ 0 events) with (reported_bytes events).
  assert (Hstep : _receivedBytes (snd (step e s))
                  = match e with
                    | on_metadata (received_bytes bytes) => _receivedBytes s + bytes
                    | _ => _receivedBytes s
                    end).
  { destruct e;
      try (apply (received_step (_receivedBytes s)); [exact I | reflexivity]).
    match goal with md : RandomAccessDataProviderMetadata |- _ => destruct md end;
      try (apply (received_step (_receivedBytes s)); [exact I | reflexivity]).
    reflexivity. }
  rewrite Hstep. destruct e; try lia.
  match goal with md : RandomAccessDataProviderMetadata |- _ => destruct md end; lia.
Qed.

(** *** The initialised report *)
Section reports.

Definition reports_match (s : Player) : Prop :=
  initialized_reports s = if _initialized s then 1%nat else 0%nat.

Ltac leaf :=
  unfold reports_match, initialized_reports in *; cbn;
  rewrite ?List.filter_app, ?length_app; cbn; rewrite ?Nat.add_0_r; assumption.

Lemma reports_emitState_fn : preserves reports_match emitState_fn.
Proof. unfold emitState_fn, effect. pres leaf. Qed.
Hint Resolve reports_emitState_fn : pres.

Lemma reports_filterMap topics l : preserves reports_match (filterMap (filterMessage topics) l).
Proof.
  induction l as [|x l IH]; cbn [filterMap]; unfold filterMessage; unfold_methods; pres leaf.
Qed.
Hint Resolve reports_filterMap : pres.

Lemma reports_reportInitialized : preserves reports_match _reportInitialized.
Proof.
  intros s Hs. unfold _reportInitialized, effect. js_unfold.
  unfold reports_match, initialized_reports in *.
  destruct (_initializing s); cbn; [exact Hs|].
  destruct (_initialized s) eqn:Hi; cbn; [rewrite Hi; exact Hs|].
  rewrite List.filter_app, length_app, Hs. reflexivity.
Qed.
Hint Resolve reports_reportInitialized : pres.

Ltac unfold_rest :=
  unfold setListener, close, setSubscriptions, setPublishers, setPlaybackSpeed,
    startPlayback, pausePlayback, requestBackfill, setParameter, publish,
    emitState_settled, progressCallback, reportMetadataCallback,
    initialize_settled, initialize_then,
    backfill_resume, seekPlayback, _seekPlaybackInternal, backfill_pass,
    _setNextReadStartTime, read_guard, seek_guard, detached,
    read_loop, tick_begin, tick_finish,
    getMessages_begin, getMessages_resume,
    _read, _setError, _emitState, set_problem, delete_problem,
    assign_nextReadStartTime, effect in *.

Lemma reports_step e : preserves reports_match (step e).
Proof. destruct e; cbn [step]; unfold_rest; pres leaf. Qed.

Lemma reports_run events s : reports_match s -> reports_match (run events s).
Proof.
  revert s. induction events as [|e events IH]; intros s Hs; [exact Hs|].
  rewrite run_cons. apply IH, reports_step, Hs.
Qed.

End reports.

(** X3: [metricsCollector.initialized()] is called at most once in the
    life of an engine, however often the provider is initialised (a
    listener set twice, an initialisation that settles twice): the count
    of calls is 1 once [_initialized] is set and 0 before. *)
Theorem initialized_reported_once (label filePath : option string) (id : string)
    (seekToTime : Time -> Time -> Time) (now : Z) (events : list Event) :
  initialized_reports (run events (new_Player label filePath id seekToTime now))
  = if _initialized (run events (new_Player label filePath id seekToTime now))
    then 1%nat else 0%nat.
Proof. apply (reports_run events). reflexivity. Qed.

(** *** Repeated calls *)
Section playing.
Variable b : bool.

Definition playing_is (s : Player) : Prop := _isPlaying s = b.

Ltac leaf := unfold playing_is in *; cbn; assumption.

Lemma playing_emitState : preserves playing_is _emitState.
Proof. unfold _emitState, emitState_fn, effect. pres leaf. Qed.

Lemma playing_read : preserves playing_is _read.
Proof. unfold _read. pres leaf. Qed.

End playing.

Lemma startPlayback_plays (s : Player) : _isPlaying (snd (startPlayback s)) = true.
Proof.
  unfold startPlayback. rewrite bind_get.
  destruct (_isPlaying s) eqn:Hp; [exact Hp|].
  unfold effect. rewrite !bind_modify.
  apply (preserves_bind (playing_is true)); [apply playing_emitState | intros _; apply playing_read |].
  reflexivity.
Qed.

Lemma pausePlayback_pauses (s : Player) : _isPlaying (snd (pausePlayback s)) = false.
Proof.
  unfold pausePlayback. rewrite bind_get.
  destruct (_isPlaying s) eqn:Hp; cbn [negb]; [|exact Hp].
  unfold effect. rewrite !bind_modify.
  apply (playing_emitState false). reflexivity.
Qed.

(** X4: repeating [startPlayback] or [pausePlayback] changes nothing: the
    second call finds the engine already playing (already paused) and
    returns at once, so the metrics collector sees one [play] (one
    [pause]), the listener one state, and no second read loop starts. *)
Theorem playback_calls_are_idempotent (s : Player) :
  startPlayback (snd (startPlayback s)) = (Normal tt, snd (startPlayback s)) /\
  pausePlayback (snd (pausePlayback s)) = (Normal tt, snd (pausePlayback s)).
Proof.
  split.
  - unfold startPlayback at 1. rewrite bind_get, startPlayback_plays. reflexivity.
  - unfold pausePlayback at 1. rewrite bind_get, pausePlayback_pauses. reflexivity.
Qed.

End EngineConduct.

(** ** RandomAccessPlayer: the published topics of an emitted state *)
Module PublishedTopics.
Import RandomAccessPlayer.


(** One round of the loop over the connections in [_emitState]. *)
Definition add_connection (m : gmap string (gset string)) (conn : Connection)
    : gmap string (gset string) :=
  <[conn_topic conn := default ∅ (m !! conn_topic conn) ∪ {[callerid conn]}]> m.

Lemma publishedTopics_fold (conns : list Connection) (m : gmap string (gset string))
    (t c : string) :
  c ∈ default ∅ (fold_left add_connection conns m !! t)
  <-> c ∈ default (∅ : gset string) (m !! t) \/
      exists conn, In conn conns /\ conn_topic conn = t /\ callerid conn = c.
Proof.
  revert m. induction conns as [|conn conns IH]; intros m; cbn [fold_left].
  - split; [auto | intros [H | (conn & [] & _)]; exact H].
  - rewrite IH. unfold add_connection. rewrite lookup_insert. cbn [In].
    destruct (decide (conn_topic conn = t)) as [E|E]; cbn [default from_option id].
    + rewrite elem_of_union, elem_of_singleton, E. split.
      * intros [[H | ->] | (conn' & Hin & Ht & Hc)]; eauto 8.
      * intros [H | (conn' & [<- | Hin] & Ht & Hc)]; eauto 8.
    + split.
      * intros [H | (conn' & Hin & Ht & Hc)]; eauto 8.
      * intros [H | (conn' & [<- | Hin] & Ht & Hc)]; [auto | contradiction | eauto 8].
Qed.

Lemma publishedTopics_fold_None (conns : list Connection) (m : gmap string (gset string))
    (t : string) :
  fold_left add_connection conns m !! t = None
  <-> m !! t = None /\ forall conn, In conn conns -> conn_topic conn <> t.
Proof.
  revert m. induction conns as [|conn conns IH]; intros m; cbn [fold_left].
  - split; [intros H; split; [exact H | intros ? []] | intros [H _]; exact H].
  - rewrite IH. unfold add_connection. rewrite lookup_insert. cbn [In].
    destruct (decide (conn_topic conn = t)) as [E|E].
    + split; [intros [H _]; discriminate | intros [_ H]; exfalso; exact (H conn (or_introl eq_refl) E)].
    + split.
      * intros [H Hall]. split; [exact H|]. intros conn' [<- | Hin]; auto.
      * intros [H Hall]. split; [exact H|]. intros conn' Hin. apply Hall. auto.
Qed.

(** X5: the [publishedTopics] of an emitted state map a topic to exactly
    the caller ids of the provider's connections on that topic; a topic
    without a connection has no entry. *)
Theorem publishedTopics_are_the_callers (conns : list Connection) (t c : string) :
  (c ∈ default ∅ (publishedTopicsOf conns !! t)
   <-> exists conn, In conn conns /\ conn_topic conn = t /\ callerid conn = c) /\
  (publishedTopicsOf conns !! t = None
   <-> forall conn, In conn conns -> conn_topic conn <> t).
Proof.
  change (publishedTopicsOf conns) with (fold_left add_connection conns ∅). split.
  - rewrite publishedTopics_fold, lookup_empty. cbn.
    split; [intros [H | H]; [set_solver | exact H] | auto].
  - rewrite publishedTopics_fold_None, lookup_empty. tauto.
Qed.

End PublishedTopics.

(** ** RandomAccessPlayer: what [_getMessages] passes on *)
Module MessageFiltering.
Import RandomAccessPlayer JsFacts Conduct RandomAccessFacts JsMapFacts.

(** What the callback of [filterMessages] does with one message. *)
Lemma filterMessage_spec (topics : list string) (msg : MessageEvent) (s : Player) :
  exists s',
    filterMessage topics msg s
    = (Normal (if passes topics (_providerTopics s) (topic msg)
               then Some (delivered msg) else None), s') /\
    _providerTopics s' = _providerTopics s /\
    forall t, JsMap.has t (_problems s')
              = if String.eqb (topic msg) t
                then negb (passes topics (_providerTopics s) (topic msg))
                else JsMap.has t (_problems s).
Proof.
  unfold filterMessage, passes, delete_problem, set_problem. js_unfold. cbn -[JsMap.has JsMap.set JsMap.delete].
  destruct (existsb (String.eqb (topic msg)) topics); cbn -[JsMap.has JsMap.set JsMap.delete].
  2:{ eexists. split; [reflexivity|]. split; [reflexivity|]. intros t. cbn -[JsMap.has JsMap.set JsMap.delete].
      rewrite has_set, has_delete. destruct (String.eqb (topic msg) t); reflexivity. }
  destruct (List.find _ (_providerTopics s)) as [found|]; cbn -[JsMap.has JsMap.set JsMap.delete].
  2:{ eexists. split; [reflexivity|]. split; [reflexivity|]. intros t. cbn -[JsMap.has JsMap.set JsMap.delete].
      rewrite has_set, has_delete. destruct (String.eqb (topic msg) t); reflexivity. }
  destruct (String.eqb (datatype found) ""); cbn -[JsMap.has JsMap.set JsMap.delete].
  - eexists. split; [reflexivity|]. split; [reflexivity|]. intros t. cbn -[JsMap.has JsMap.set JsMap.delete].
    rewrite has_set, has_delete. destruct (String.eqb (topic msg) t); reflexivity.
  - eexists. split; [reflexivity|]. split; [reflexivity|]. intros t. cbn -[JsMap.has JsMap.set JsMap.delete].
    rewrite has_delete. destruct (String.eqb (topic msg) t); reflexivity.
Qed.

Lemma filterMap_spec (topics : list string) (msgs : list MessageEvent) (s : Player) :
  exists s',
    filterMap (filterMessage topics) msgs s
    = (Normal (List.map delivered
                 (List.filter (fun m => passes topics (_providerTopics s) (topic m)) msgs)),
       s') /\
    _providerTopics s' = _providerTopics s /\
    forall t, JsMap.has t (_problems s')
              = if existsb (fun m => String.eqb (topic m) t) msgs
                then negb (passes topics (_providerTopics s) t)
                else JsMap.has t (_problems s).
Proof.
  revert s. induction msgs as [|msg msgs IH]; intros s.
  - exists s. repeat split.
  - destruct (filterMessage_spec topics msg s) as (s1 & E1 & P1 & H1).
    destruct (IH s1) as (s2 & E2 & P2 & H2). exists s2.
    cbn [filterMap]. rewrite run_bind, E1, run_bind, E2. rewrite P1 in *.
    split; [|split; [congruence|]].
    + cbn [List.filter List.map].
      destruct (passes topics (_providerTopics s) (topic msg)); reflexivity.
    + intros t. rewrite H2, H1. cbn [existsb].
      destruct (String.eqb_spec (topic msg) t) as [->|]; cbn [orb]; [|reflexivity].
      destruct (existsb _ msgs); reflexivity.
Qed.

Lemma getMessages_resume_spec (topics : list string) (msgs : list MessageEvent) (s : Player) :
  exists s',
    getMessages_resume (Some topics) (resolved (Some msgs)) s
    = (Normal (List.map delivered
                 (List.filter (fun m => passes topics (_providerTopics s) (topic m)) msgs)),
       s') /\
    forall t, existsb (fun m => String.eqb (topic m) t) msgs = true ->
              JsMap.has t (_problems s') = negb (passes topics (_providerTopics s) t).
Proof.
  unfold getMessages_resume, delete_problem, effect. rewrite bind_modify.
  set (s0 := set_problems _ s).
  assert (exists s1, (when (0 <? length msgs)%nat
                        (modify (fun s => set_effects (effects s ++ [metrics recordTimeToFirstMsgs]) s))
                      ≫= (fun _ => filterMap (filterMessage topics) msgs)) s0
                     = filterMap (filterMessage topics) msgs s1
                     /\ _providerTopics s1 = _providerTopics s) as (s1 & -> & P1).
  { destruct (0 <? length msgs)%nat; cbn [when]; eexists; (split; [reflexivity|]); reflexivity. }
  destruct (filterMap_spec topics msgs s1) as (s2 & E2 & P2 & H2). rewrite P1 in *.
  exists s2. split; [exact E2|]. intros t Ht. rewrite H2, Ht. reflexivity.
Qed.

(** X6: of the messages a provider returns, [_getMessages] passes on, in
    the provider's order, exactly those whose topic was among the topics
    requested and is a provider topic with a datatype; it never throws,
    and each message passed on keeps its topic, receive time and
    payload. *)
Theorem getMessages_passes_the_subscribed (topics : list string)
    (parsedMessages : list MessageEvent) (s : Player) :
  fst (getMessages_resume (Some topics) (resolved (Some parsedMessages)) s)
  = Normal (List.map delivered
              (List.filter (fun m => passes topics (_providerTopics s) (topic m))
                 parsedMessages)).
Proof.
  destruct (getMessages_resume_spec topics parsedMessages s) as (s' & -> & _). reflexivity.
Qed.

(** X7: after a batch of messages, a topic that occurred in the batch
    has a problem on record exactly if its messages were skipped: a
    warning left by an earlier batch is cleared when the topic's messages
    pass. *)
Theorem problems_follow_the_batch (topics : list string)
    (parsedMessages : list MessageEvent) (s : Player) :
  Forall
    (fun m =>
       JsMap.has (topic m)
         (_problems (snd (getMessages_resume (Some topics) (resolved (Some parsedMessages)) s)))
       = negb (passes topics (_providerTopics s) (topic m)))
    parsedMessages.
Proof.
  destruct (getMessages_resume_spec topics parsedMessages s) as (s' & -> & H).
  apply List.Forall_forall. intros m Hm. apply H. apply existsb_exists.
  exists m. split; [exact Hm | apply String.eqb_refl].
Qed.

End MessageFiltering.

(** ** RandomAccessPlayer: the windows asked of the provider *)
Module ReadWindows.
Import RandomAccessPlayer JsFacts RostimeFacts Conduct RandomAccessFacts.

(** Nanoseconds within the second: what [fixTime] returns, also for a
    negative time. *)
Definition normal (t : Time) : Prop := 0 <= nsec t < 1000000000.

Lemma valid_normal (t : Time) : valid t -> normal t.
Proof. intros [_ H]. exact H. Qed.

Lemma le_nanos_normal (a b : Time) : normal a -> normal b -> (le a b <-> nanos a <= nanos b).
Proof. unfold normal, nanos. rewrite le_iff. nia. Qed.

Lemma subtract_Normal (a b : Time) :
  exists c, subtract a b = Normal c /\ normal c /\ nanos c = nanos a - nanos b.
Proof.
  destruct (subtract a b) as [c|e] eqn:E.
  - exists c. split; [reflexivity|]. unfold subtract in E.
    apply fixTime_Normal in E as (H1 & H2 & _). split; [exact H1|].
    rewrite H2. unfold nanos. cbn. lia.
  - exfalso. revert E. unfold subtract, fixTime. cbn.
    destruct (Z.ltb_spec (Z.abs (if Z.sgn (Z.rem (nsec a - nsec b) 1000000000) =? -1
      then 1000000000 + Z.rem (nsec a - nsec b) 1000000000
      else Z.rem (nsec a - nsec b) 1000000000)) 0); [lia | discriminate].
Qed.

(** The fields a request to the provider leaves alone. *)
Definition settled (s : Player) :=
  (_start s, _end s, _nextReadStartTime s, nextReadStartTime_ref s,
   (_isPlaying s, _cancelSeekBackfill s, _messages s, seekTask s, readTask s),
   emitted s).

(** What [_getMessages] asked of the provider, if it asked. *)
Definition asked (g : GetMessagesFrame) (start end_ : Time) (s s' : Player) : Prop :=
  match g with
  | Some topics =>
      topics = getSanitizedTopics (_parsedSubscribedTopics s) (_providerTopics s) /\
      topics <> [] /\
      last (effects s') = Some (provider_getMessages start end_ topics)
  | None =>
      getSanitizedTopics (_parsedSubscribedTopics s) (_providerTopics s) = [] /\
      effects s' = effects s
  end.

Lemma getMessages_begin_spec (start end_ : Time) (s : Player) :
  exists g s',
    getMessages_begin start end_ s = (Normal g, s') /\
    settled s' = settled s /\
    _parsedSubscribedTopics s' = _parsedSubscribedTopics s /\
    _providerTopics s' = _providerTopics s /\
    asked g start end_ s s'.
Proof.
  unfold getMessages_begin, effect, asked. rewrite bind_get. lazy zeta.
  destruct (getSanitizedTopics _ _) as [|t0 topics] eqn:Et; cbn [length Nat.eqb].
  { exists None, s. repeat split. }
  destruct (hasCachedRange s start end_); js_unfold; cbn -[getSanitizedTopics];
    eexists (Some _), _;
    (split; [reflexivity|]);
    (split; [unfold settled, emitted; cbn; rewrite ?omap_app; cbn; rewrite ?app_nil_r; reflexivity|]);
    (split; [reflexivity|]); (split; [reflexivity|]);
    cbn; (split; [reflexivity|]); (split; [discriminate|]);
    rewrite ?app_assoc; apply last_snoc.
Qed.

(** X8: a tick asks the provider for a window that lies within the
    engine's bounds and does not end before it starts: it starts at the
    read cursor and ends one tick's range later, both clamped to
    [start, end]. With no subscribed topic among the provider's topics,
    the provider is not asked at all. *)
Theorem tick_reads_within_bounds (range : Time) (s s' : Player)
    (f : TickFrame) (g : GetMessagesFrame) :
  tick_begin range s = (Normal (Some (f, g)), s') ->
  le (_start s) (_end s) ->
  valid (_nextReadStartTime s) ->
  valid range ->
  le (_start s) (tick_start f) /\ le (tick_start f) (tick_end f) /\
  le (tick_end f) (_end s) /\
  tick_start f = clampTime (_nextReadStartTime s) (_start s) (_end s) /\
  asked g (tick_start f) (tick_end f) s s'.
Proof.
  intros Hrun Hse Hn Hr. revert Hrun. unfold tick_begin. rewrite bind_get.
  destruct (_initializing s || negb (_isPlaying s) || _hasError s); [discriminate|].
  destruct (compare (_nextReadStartTime s) (_end s) >? 0); [discriminate|].
  lazy zeta. rewrite run_bind. unfold lift at 1.
  destruct (add (_nextReadStartTime s) range) as [t|e] eqn:Ea; [|discriminate].
  apply add_Normal in Ea as [Ht Hsum].
  destruct (getMessages_begin_spec
              (clampTime (_nextReadStartTime s) (_start s) (_end s))
              (clampTime t (_start s) (_end s)) s) as (g0 & s0 & E0 & _ & _ & _ & Hasked).
  rewrite run_bind, E0. intros [= <- <- <-]. cbn [tick_start tick_end].
  split; [apply clampTime_bounds, Hse|].
  split; [|split; [apply clampTime_bounds, Hse | split; [reflexivity | exact Hasked]]].
  apply clampTime_mono; [exact Hse|]. apply le_nanos; [assumption..|].
  rewrite Hsum. unfold valid, nanos in Hr |- *. lia.
Qed.

Lemma tick_reads_within_bounds_witness :
  le (mkTime 0 0) (mkTime 5 1) /\ le (mkTime 5 1) (mkTime 5 100000001) /\
  le (mkTime 5 100000001) (mkTime 10 0) /\
  mkTime 5 1 = clampTime (_nextReadStartTime Episodes.playing)
                 (_start Episodes.playing) (_end Episodes.playing) /\
  asked (Some ["/a"]) (mkTime 5 1) (mkTime 5 100000001) Episodes.playing
        (snd (tick_begin (mkTime 0 100000000) Episodes.playing)).
Proof.
  apply (tick_reads_within_bounds (mkTime 0 100000000) Episodes.playing
           (snd (tick_begin (mkTime 0 100000000) Episodes.playing))
           Session.frame (Some ["/a"])).
  - vm_compute. reflexivity.
  - vm_compute. discriminate.
  - vm_compute. intuition discriminate.
  - vm_compute. intuition discriminate.
Defined.

(** One pass of the backfill, for a paused engine. *)
Lemma backfill_pass_spec (d : option Time) (now : Z) (s : Player) :
  _isPlaying s = false ->
  valid (default zero d) ->
  exists f g t s',
    backfill_pass d now s = (Normal (BackfillAwaitingRead f g), s') /\
    backfillDuration f = d /\
    readStartTime f = _nextReadStartTime s /\
    readStartTime_ref f = nextReadStartTime_ref s /\
    backfillEnd f = clampTime (_nextReadStartTime s) (_start s) (_end s) /\
    normal t /\
    nanos t = nanos (_nextReadStartTime s) - SEEK_BACK_NANOSECONDS - nanos (default zero d) /\
    _messages s' = [] /\ _cancelSeekBackfill s' = false /\
    _nextReadStartTime s' = _nextReadStartTime s /\
    nextReadStartTime_ref s' = nextReadStartTime_ref s /\
    _isPlaying s' = false /\ seekTask s' = seekTask s /\ _start s' = _start s /\
    _end s' = _end s /\
    emitted s' = emitted s /\
    asked g (clampTime t (_start s) (_end s)) (backfillEnd f) s s'.
Proof.
  intros Hp Hd. unfold backfill_pass. rewrite bind_get, Hp. lazy zeta.
  rewrite !bind_modify, run_bind. unfold lift at 1.
  destruct (add_succeeds (mkTime 0 SEEK_BACK_NANOSECONDS) (default zero d)) as [total Et].
  { unfold valid, SEEK_BACK_NANOSECONDS. cbn. lia. }
  { unfold valid, nanos, SEEK_BACK_NANOSECONDS in *. cbn. lia. }
  rewrite Et. apply add_Normal in Et as [Hvt Htotal].
  rewrite run_bind. unfold lift at 1.
  destruct (subtract_Normal (_nextReadStartTime s) total) as (t & Es & Hnt & Hsub).
  rewrite Es.
  set (s0 := set_messages [] (set_cancelSeekBackfill false s)).
  destruct (getMessages_begin_spec (clampTime t (_start s) (_end s))
              (clampTime (_nextReadStartTime s) (_start s) (_end s)) s0)
    as (g & s' & Eg & Hsettled & Hsub' & Htop' & Hasked).
  rewrite run_bind, Eg. eexists. exists g, t, s'. split; [reflexivity|].
  unfold settled in Hsettled. cbn in Hsettled.
  injection Hsettled as H1 H2 H3 H4 H5 H6 H7 H8 H9 H10.
  cbn [backfillDuration readStartTime readStartTime_ref backfillEnd].
  repeat (split; [first [reflexivity | assumption | congruence]|]).
  split.
  { rewrite Hsub, Htotal. unfold nanos, SEEK_BACK_NANOSECONDS. cbn. lia. }
  repeat (split; [first [reflexivity | assumption | congruence]|]).
  unfold asked in *. destruct g as [topics|]; cbn in *; exact Hasked.
Qed.

(** X9: a seek on a paused engine reads the 299 ms before the cursor,
    plus the extra backfill duration the caller asked for, clamped to the
    engine's bounds; the window does not end before it starts, and
    messages still queued from before the seek are dropped. *)
Theorem backfill_reads_before_the_cursor (d : option Time) (now : Z) (s : Player) :
  _isPlaying s = false ->
  valid (default zero d) ->
  valid (_nextReadStartTime s) ->
  le (_start s) (_end s) ->
  exists f g t s',
    backfill_pass d now s = (Normal (BackfillAwaitingRead f g), s') /\
    backfillEnd f = clampTime (_nextReadStartTime s) (_start s) (_end s) /\
    nanos t = nanos (_nextReadStartTime s) - 299000000 - nanos (default zero d) /\
    le (_start s) (clampTime t (_start s) (_end s)) /\
    le (clampTime t (_start s) (_end s)) (backfillEnd f) /\
    le (backfillEnd f) (_end s) /\
    _messages s' = [] /\
    asked g (clampTime t (_start s) (_end s)) (backfillEnd f) s s'.
Proof.
  intros Hp Hd Hn Hse.
  destruct (backfill_pass_spec d now s Hp Hd)
    as (f & g & t & s' & E & _ & _ & _ & Hend & Hnt & Ht & Hm & _ & _ & _ & _ & _ & _ & _ & _ & Hasked).
  exists f, g, t, s'. split; [exact E|]. split; [exact Hend|]. split; [exact Ht|].
  split; [apply clampTime_bounds, Hse|].
  split; [|split; [rewrite Hend; apply clampTime_bounds, Hse | split; assumption]].
  rewrite Hend. apply clampTime_mono; [exact Hse|].
  apply le_nanos_normal; [exact Hnt | apply valid_normal, Hn |].
  rewrite Ht. unfold valid, nanos, SEEK_BACK_NANOSECONDS in Hd |- *. lia.
Qed.

Lemma backfill_reads_before_the_cursor_witness :
  exists f g t s',
    backfill_pass None 1010 Session.ready = (Normal (BackfillAwaitingRead f g), s') /\
    backfillEnd f = clampTime (_nextReadStartTime Session.ready)
                      (_start Session.ready) (_end Session.ready) /\
    nanos t = nanos (_nextReadStartTime Session.ready) - 299000000 - nanos (default zero None) /\
    le (_start Session.ready) (clampTime t (_start Session.ready) (_end Session.ready)) /\
    le (clampTime t (_start Session.ready) (_end Session.ready)) (backfillEnd f) /\
    le (backfillEnd f) (_end Session.ready) /\
    _messages s' = [] /\
    asked g (clampTime t (_start Session.ready) (_end Session.ready)) (backfillEnd f)
          Session.ready s'.
Proof.
  apply (backfill_reads_before_the_cursor None 1010 Session.ready).
  - vm_compute. reflexivity.
  - vm_compute. intuition discriminate.
  - vm_compute. intuition discriminate.
  - vm_compute. discriminate.
Defined.

(** *** A seek during a backfill *)
Section unmoved.
Variable c : Time * Time * Time * Z * (bool * bool * list MessageEvent * SeekTask * ReadTask)
             * list PlayerState.

Definition settled_is (s : Player) : Prop := settled s = c.

Ltac leaf :=
  unfold settled_is, settled, emitted in *; cbn;
  rewrite ?omap_app; cbn; rewrite ?app_nil_r; assumption.

Lemma settled_filterMap topics l : preserves settled_is (filterMap (filterMessage topics) l).
Proof.
  induction l as [|x l IH]; cbn [filterMap]; unfold filterMessage; unfold_methods; pres leaf.
Qed.
Hint Resolve settled_filterMap : pres.


End unmoved.




(** *** Where a seek puts the cursor *)
Section cursor.
Variable c : Time.

Definition cursor_is (s : Player) : Prop := _nextReadStartTime s = c.

Ltac leaf := unfold cursor_is in *; cbn; assumption.

Lemma cursor_seekPlaybackInternal d now : preserves cursor_is (_seekPlaybackInternal d now).
Proof. unfold_methods. pres leaf. Qed.

End cursor.

(** X11: [seekPlayback] puts the read cursor at the requested time
    clamped to the engine's bounds, whether the engine plays or is
    paused and whether or not a backfill is already in flight; before
    the provider is initialised it leaves the cursor alone. *)
Theorem seek_clamps_the_cursor (time : Time) (backfillDuration : option Time) (now : Z)
    (s : Player) :
  _nextReadStartTime (snd (seekPlayback time backfillDuration now s))
  = if _initialized s then clampTime time (_start s) (_end s) else _nextReadStartTime s.
Proof.
  unfold seekPlayback. rewrite bind_get.
  destruct (_initialized s); cbn [negb]; [|reflexivity].
  unfold _setNextReadStartTime, effect, assign_nextReadStartTime.
  rewrite bind_modify, run_bind, bind_get. lazy zeta. rewrite bind_modify.
  unfold modify at 1.
  apply (cursor_seekPlaybackInternal (clampTime time (_start s) (_end s))).
  reflexivity.
Qed.

End ReadWindows.

(** ** RosbridgePlayer: subscriptions and publishers *)
Module LiveFacts.
Import RosbridgePlayer JsFacts JsMapFacts LiveConduct.
Import RandomAccessPlayer(SubscribePayload, mkSubscribePayload, sub_topic, requester,
  AdvertiseOptions, mkAdvertiseOptions, adv_topic, adv_datatype,
  PublishPayload, mkPublishPayload, pub_topic, pub_msg, newSet).

Lemma existsb_filter {A} (p q : A -> bool) (l : list A) :
  existsb p (List.filter q l) = existsb (fun x => p x && q x) l.
Proof.
  induction l as [|x l IH]; cbn; [reflexivity|].
  destruct (q x); cbn; rewrite IH, ?andb_true_r, ?andb_false_r; reflexivity.
Qed.

Lemma existsb_map {A B} (p : B -> bool) (f : A -> B) (l : list A) :
  existsb p (List.map f l) = existsb (fun x => p (f x)) l.
Proof. induction l as [|x l IH]; cbn; [reflexivity|]. rewrite IH. reflexivity. Qed.

(** The topics [setSubscriptions] asks for, [/clock] included. *)
Lemma requested_names (subscriptions : list SubscribePayload) (t : string) :
  existsb (String.eqb t) (List.map sub_topic (_addInternalSubscriptions subscriptions))
  = requested subscriptions t.
Proof.
  unfold _addInternalSubscriptions, requested.
  destruct (List.find _ subscriptions) as [sub|] eqn:Ef; [|reflexivity].
  apply List.find_some in Ef as [Hin Heq]. apply String.eqb_eq in Heq.
  destruct (String.eqb_spec t "/clock") as [->|]; [|reflexivity]. cbn [orb].
  apply existsb_exists. exists "/clock"%string. split; [|apply String.eqb_refl].
  apply List.in_map_iff. exists sub. split; [exact Heq | exact Hin].
Qed.

(** The fields that decide whether a topic can be subscribed. *)
Definition catalogue (s : Player) :=
  (_providerTopics s, _messageReadersByDatatype s).

Lemma subscribeTo_spec (topicName : string) (s : Player) :
  exists s',
    subscribeTo topicName s = (Normal tt, s') /\
    catalogue s' = catalogue s /\
    forall t, JsMap.has t (_topicSubscriptions s')
              = JsMap.has t (_topicSubscriptions s)
                || (String.eqb topicName t && readable s topicName).
Proof.
  unfold subscribeTo, readable, effect. rewrite bind_get.
  destruct (JsMap.has topicName (_topicSubscriptions s)) eqn:Hh.
  { exists s. split; [reflexivity|]. split; [reflexivity|]. intros t.
    destruct (String.eqb_spec topicName t) as [<-|]; cbn [andb];
      [rewrite Hh | rewrite orb_false_r]; reflexivity. }
  destruct (List.find _ (default [] (_providerTopics s))) as [availTopic|].
  2:{ exists s. split; [reflexivity|]. split; [reflexivity|]. intros t.
      rewrite andb_false_r, orb_false_r. reflexivity. }
  destruct (_messageReadersByDatatype s !! datatype availTopic).
  2:{ exists s. split; [reflexivity|]. split; [reflexivity|]. intros t.
      rewrite andb_false_r, orb_false_r. reflexivity. }
  eexists. split; [reflexivity|]. split; [reflexivity|]. intros t.
  cbn -[JsMap.has JsMap.set]. rewrite has_set, andb_true_r. apply orb_comm.
Qed.

Lemma readable_catalogue (s s' : Player) (t : string) :
  catalogue s' = catalogue s -> readable s' t = readable s t.
Proof. unfold catalogue, readable. intros [= -> ->]. reflexivity. Qed.

Lemma subscribe_loop (topicNames : list string) (s : Player) :
  exists s',
    forEach subscribeTo topicNames s = (Normal tt, s') /\
    catalogue s' = catalogue s /\
    forall t, JsMap.has t (_topicSubscriptions s')
              = JsMap.has t (_topicSubscriptions s)
                || (existsb (String.eqb t) topicNames && readable s t).
Proof.
  revert s. induction topicNames as [|n topicNames IH]; intros s.
  - exists s. repeat split. intros t. cbn. rewrite orb_false_r. reflexivity.
  - destruct (subscribeTo_spec n s) as (s1 & E1 & C1 & H1).
    destruct (IH s1) as (s2 & E2 & C2 & H2). exists s2.
    cbn [forEach]. rewrite run_bind, E1, E2.
    split; [reflexivity|]. split; [congruence|]. intros t.
    rewrite H2, H1, (readable_catalogue s s1 t C1). cbn [existsb].
    rewrite (String.eqb_sym t n).
    destruct (String.eqb_spec n t) as [->|]; cbn [andb orb];
      [|rewrite orb_false_r; reflexivity].
    destruct (JsMap.has t (_topicSubscriptions s)), (readable s t),
      (existsb (String.eqb t) topicNames); reflexivity.
Qed.

Lemma unsubscribe_loop (topicNames keys : list string) (s : Player) :
  exists s',
    forEach (unsubscribeUnless topicNames) keys s = (Normal tt, s') /\
    catalogue s' = catalogue s /\
    forall t, JsMap.has t (_topicSubscriptions s')
              = JsMap.has t (_topicSubscriptions s)
                && (negb (existsb (String.eqb t) keys) || existsb (String.eqb t) topicNames).
Proof.
  revert s. induction keys as [|k keys IH]; intros s.
  - exists s. split; [reflexivity|]. split; [reflexivity|].
    intros t. cbn. rewrite andb_true_r. reflexivity.
  - assert (exists s1, unsubscribeUnless topicNames k s = (Normal tt, s1) /\
              catalogue s1 = catalogue s /\
              forall t, JsMap.has t (_topicSubscriptions s1)
                        = JsMap.has t (_topicSubscriptions s)
                          && (negb (String.eqb t k) || existsb (String.eqb t) topicNames))
      as (s1 & E1 & C1 & H1).
    { unfold unsubscribeUnless, effect.
      destruct (existsb (String.eqb k) topicNames) eqn:Hk; cbn [negb].
      - exists s. split; [reflexivity|]. split; [reflexivity|]. intros t.
        destruct (String.eqb_spec t k) as [->|]; cbn [negb orb];
          [rewrite Hk|]; rewrite andb_true_r; reflexivity.
      - eexists. split; [reflexivity|]. split; [reflexivity|].
        intros t. cbn -[JsMap.has JsMap.delete].
        rewrite has_delete, (String.eqb_sym k t).
        destruct (String.eqb_spec t k) as [->|]; cbn [negb orb andb].
        + rewrite Hk, andb_false_r. reflexivity.
        + rewrite andb_true_r. reflexivity. }
    destruct (IH s1) as (s2 & E2 & C2 & H2). exists s2.
    cbn [forEach]. rewrite run_bind, E1, E2. split; [reflexivity|].
    split; [congruence|]. intros t.
    rewrite H2, H1. cbn [existsb].
    destruct (JsMap.has t (_topicSubscriptions s)), (String.eqb t k),
      (existsb (String.eqb t) keys), (existsb (String.eqb t) topicNames); reflexivity.
Qed.

(** What [setSubscriptions] leaves subscribed, on a connected engine. *)
Lemma setSubscriptions_spec (subscriptions : list SubscribePayload) (client : handle)
    (s : Player) :
  _rosClient s = Some client ->
  _closed s = false ->
  exists s',
    setSubscriptions subscriptions s = (Normal tt, s') /\
    catalogue s' = catalogue s /\
    forall t, JsMap.has t (_topicSubscriptions s')
              = requested subscriptions t && offered s t
                && (JsMap.has t (_topicSubscriptions s) || readable s t).
Proof.
  intros Hc Hcl. unfold setSubscriptions. rewrite bind_modify, bind_get.
  set (sr := set_requestedSubscriptions subscriptions s).
  change (_rosClient sr) with (_rosClient s). rewrite Hc.
  change (_closed sr) with (_closed s). rewrite Hcl.
  lazy zeta. rewrite !bind_modify.
  set (s0 := set_parsedTopics _ _).
  change (_providerTopics sr) with (_providerTopics s).
  set (topicNames := List.filter _ _).
  destruct (subscribe_loop topicNames s0) as (s1 & E1 & C1 & H1).
  rewrite run_bind, E1, bind_get.
  destruct (unsubscribe_loop topicNames (List.map fst (_topicSubscriptions s1)) s1)
    as (s2 & E2 & C2 & H2).
  exists s2. split; [exact E2|]. split; [rewrite C2, C1; reflexivity|]. intros t.
  rewrite H2, <- has_keys, H1.
  change (JsMap.has t (_topicSubscriptions s0)) with (JsMap.has t (_topicSubscriptions s)).
  change (readable s0 t) with (readable s t).
  assert (Hn : existsb (String.eqb t) topicNames = requested subscriptions t && offered s t).
  { unfold topicNames. rewrite existsb_filter, <- requested_names.
    generalize (List.map sub_topic (_addInternalSubscriptions subscriptions)) as l.
    unfold offered. induction l as [|x l IH]; cbn; [reflexivity|]. rewrite IH.
    destruct (String.eqb_spec t x) as [->|]; cbn [andb orb]; [|reflexivity].
    destruct (existsb _ (default [] (_providerTopics s))); cbn;
      rewrite ?orb_true_r, ?andb_false_r, ?andb_true_r; reflexivity. }
  rewrite Hn.
  destruct (JsMap.has t (_topicSubscriptions s)), (requested subscriptions t),
    (offered s t), (readable s t); reflexivity.
Qed.

(** X12: on a connected engine whose listed topics have distinct names
    (the source looks a topic up in an object keyed by name, the model in
    the list itself; with distinct names the two agree),
    [setSubscriptions] leaves subscribed exactly the topics that are
    asked for ([/clock] always is), that the server lists, and that
    either were subscribed already or have a message reader for their
    datatype; every other subscription is dropped. *)
Theorem subscriptions_after_setSubscriptions (subscriptions : list SubscribePayload)
    (client : handle) (s : Player) (t : string) :
  _rosClient s = Some client ->
  _closed s = false ->
  NoDup (List.map name (default [] (_providerTopics s))) ->
  JsMap.has t (_topicSubscriptions (snd (setSubscriptions subscriptions s)))
  = requested subscriptions t && offered s t
    && (JsMap.has t (_topicSubscriptions s) || readable s t).
Proof.
  intros Hc Hcl _.
  destruct (setSubscriptions_spec subscriptions client s Hc Hcl) as (s' & -> & _ & H).
  apply H.
Qed.

Lemma subscriptions_after_setSubscriptions_witness :
  JsMap.has "/a"
    (_topicSubscriptions (snd (setSubscriptions [mkSubscribePayload "/b" None] Session.live)))
  = requested [mkSubscribePayload "/b" None] "/a" && offered Session.live "/a"
    && (JsMap.has "/a" (_topicSubscriptions Session.live) || readable Session.live "/a").
Proof.
  apply (subscriptions_after_setSubscriptions [mkSubscribePayload "/b" None] 1 Session.live "/a");
    [reflexivity | reflexivity |].
  cbn. repeat constructor. intros H. inversion H.
Defined.

(** *** Publishers *)

Lemma bind_effect {B} (e : Effect) (k : unit -> Js Player B) (s : Player) :
  (effect e ≫= k) s = k tt (set_effects (effects s ++ [e]) s).
Proof. reflexivity. Qed.

Lemma unadvertise_loop (l : JsMap.t AdvertiseOptions) (s : Player) :
  exists s',
    forEach (fun kv => effect (publisher_unadvertise (fst kv))) l s = (Normal tt, s') /\
    _rosClient s' = _rosClient s /\ _topicPublishers s' = _topicPublishers s /\
    _advertisements s' = _advertisements s.
Proof.
  revert s. induction l as [|kv l IH]; intros s; [exists s; repeat split|].
  cbn [forEach]. rewrite bind_effect.
  destruct (IH (set_effects (effects s ++ [publisher_unadvertise (fst kv)]) s))
    as (s' & E & H1 & H2 & H3).
  exists s'. split; [exact E|]. repeat split; assumption.
Qed.

Lemma advertise_loop (l : list AdvertiseOptions) (s : Player) :
  exists s',
    forEach (fun a => modify (fun s => set_topicPublishers
                                         (JsMap.set (adv_topic a) a (_topicPublishers s)) s))
      l s = (Normal tt, s') /\
    forall t, JsMap.has t (_topicPublishers s')
              = JsMap.has t (_topicPublishers s)
                || existsb (String.eqb t) (List.map adv_topic l).
Proof.
  revert s. induction l as [|a l IH]; intros s.
  - exists s. split; [reflexivity|]. intros t. cbn. rewrite orb_false_r. reflexivity.
  - cbn [forEach]. rewrite bind_modify.
    destruct (IH (set_topicPublishers (JsMap.set (adv_topic a) a (_topicPublishers s)) s))
      as (s' & E & H).
    exists s'. split; [exact E|]. intros t. rewrite H. cbn -[JsMap.has JsMap.set].
    rewrite has_set, (String.eqb_sym (adv_topic a) t).
    destruct (JsMap.has t (_topicPublishers s)), (String.eqb t (adv_topic a)); reflexivity.
Qed.

(** X13: after [setPublishers], [publish] succeeds on exactly the
    topics just advertised, provided the engine is connected; on any
    other topic, and on every topic while there is no connection, it
    throws. Publishers advertised by an earlier call are gone. *)
Theorem publish_after_setPublishers (publishers : list AdvertiseOptions)
    (payload : PublishPayload) (s : Player) :
  fst (publish payload (snd (setPublishers publishers s))) = Normal tt
  <-> _rosClient s <> None /\ In (pub_topic payload) (List.map adv_topic publishers).
Proof.
  assert (Hin : existsb (String.eqb (pub_topic payload)) (List.map adv_topic publishers) = true
                <-> In (pub_topic payload) (List.map adv_topic publishers)).
  { rewrite existsb_exists. split.
    - intros (x & Hx & E). apply String.eqb_eq in E. subst x. exact Hx.
    - intros Hx. exists (pub_topic payload). split; [exact Hx | apply String.eqb_refl]. }
  assert (Hpub : forall s1, fst (publish payload s1) = Normal tt
                            <-> JsMap.has (pub_topic payload) (_topicPublishers s1) = true).
  { intros s1. unfold publish. rewrite bind_get, get_has.
    destruct (JsMap.get (pub_topic payload) (_topicPublishers s1)); cbn; split;
      (reflexivity || discriminate). }
  rewrite Hpub. unfold setPublishers. rewrite bind_get.
  destruct (unadvertise_loop (_topicPublishers s) s) as (s1 & E1 & Hc1 & _ & _).
  rewrite run_bind, E1, !bind_modify. unfold _setupPublishers. rewrite bind_get.
  set (s2 := set_advertisements publishers (set_topicPublishers [] s1)).
  change (_rosClient s2) with (_rosClient s1). rewrite Hc1.
  change (_advertisements s2) with publishers.
  assert (Hnone : JsMap.has (pub_topic payload) (_topicPublishers s2) = false) by reflexivity.
  destruct (_rosClient s) as [client|].
  2:{ cbn [snd mret Js_ret ret]. rewrite Hnone.
      split; [discriminate | intros [H _]; contradiction]. }
  destruct publishers as [|a publishers].
  { change (Z.of_nat (length (@nil AdvertiseOptions)) <=? 0) with true. cbv iota.
    cbn [snd mret Js_ret ret]. rewrite Hnone.
    split; [discriminate | intros [_ []]]. }
  change (Z.of_nat (length (a :: publishers)) <=? 0) with false. cbv iota.
  destruct (advertise_loop (a :: publishers) s2) as (s3 & E3 & H3).
  rewrite E3. cbn [snd]. rewrite H3, Hnone, orb_false_l, Hin. intuition discriminate.
Qed.

End LiveFacts.

(** ** RosbridgePlayer: the connection *)
Module ConnectionFacts.
Import RosbridgePlayer RosbridgeConnection JsFacts JsMapFacts LiveConduct LinkConduct Playback.
Import RandomAccessPlayer(SubscribePayload, mkSubscribePayload, sub_topic, requester,
  AdvertiseOptions, mkAdvertiseOptions, adv_topic, adv_datatype,
  PublishPayload, mkPublishPayload, pub_topic, pub_msg, newSet).

Lemma preserves_forEach {A} (I : Player -> Prop) (f : A -> Js Player unit) (l : list A) :
  (forall x, preserves I (f x)) -> preserves I (forEach f l).
Proof.
  intros Hf. induction l as [|x l IH]; cbn [forEach]; [apply preserves_ret|].
  apply preserves_bind; [apply Hf | intros _; exact IH].
Qed.

Lemma preserves_in_player {A} (J : list Call -> Player -> Prop) (m : Js Player A) :
  (forall cs, preserves (J cs) m) -> preserves (lifted J) (in_player m).
Proof.
  intros Hm l Hl. unfold lifted, in_player in *.
  specialize (Hm (calls l) (player l) Hl). destruct (m (player l)) as [o p]. exact Hm.
Qed.

(** Walks through a method body of the live engine. *)
Ltac live_pres leaf :=
  repeat first
    [ apply preserves_ret | apply preserves_throw | apply preserves_lift
    | apply preserves_get
    | solve [auto with pres]
    | match goal with
      | |- preserves _ (match ?x with _ => _ end) => destruct x
      | |- preserves _ (if ?b then _ else _) => destruct b
      | |- preserves _ (_ ≫= _) => apply preserves_bind; [ | intros ? ]
      | |- preserves _ (when _ _) => apply preserves_when
      | |- preserves _ (try_catch _ _) => apply preserves_try_catch; [ | intros ? ]
      | |- preserves _ (forEach _ _) => apply preserves_forEach; intros ?
      | |- preserves (lifted _) (in_player _) => apply preserves_in_player; intros ?
      | |- preserves _ (modify _) => apply preserves_modify; intros ? ?; solve [leaf]
      end
    | progress (lazy zeta) ].

Ltac unfold_live :=
  unfold step, detached, on_close, on_error, stallWarning, requestTopics_graph,
    requestTopics_settled, requestTopics_finally, topics_arrived,
    emitState_settled, fresh_timer, removeProblems, call,
    invoke_rosbridge, setListener, close, setSubscriptions, setPublishers, setParameter,
    publish, startPlayback, pausePlayback, seekPlayback, setPlaybackSpeed,
    _setupPublishers, subscribeTo, unsubscribeUnless, onMessage, _emitState,
    addProblem, removeProblem, effect in *.

(** *** A closed engine is silent *)
Section silent.
Variables (said : list PlayerState) (asked : list Call).

Ltac leaf :=
  unfold lifted, silent, heard in *; cbn;
  rewrite ?omap_app, ?List.filter_app; cbn; rewrite ?app_nil_r;
  first [ assumption
        | match goal with
          | H : _ /\ _ /\ _ |- _ =>
              destruct H as (? & ? & ?); repeat split; first [reflexivity | assumption]
          end ].

Lemma silent_emitState_fn cs now : preserves (silent said asked cs) (emitState_fn now).
Proof.
  intros s Hs. unfold emitState_fn. rewrite bind_get.
  destruct Hs as (Hc & Hh & Ha). rewrite Hc, orb_true_r. repeat split; assumption.
Qed.
Hint Resolve silent_emitState_fn : pres.

Lemma silent_open client : preserves (lifted (silent said asked)) (_open client).
Proof.
  intros l Hl. unfold _open. rewrite bind_get.
  destruct Hl as (Hc & Hh & Ha). rewrite Hc. repeat split; assumption.
Qed.

Lemma silent_on_connection client :
  preserves (lifted (silent said asked)) (on_connection client).
Proof.
  intros l Hl. unfold on_connection. rewrite bind_get.
  destruct Hl as (Hc & Hh & Ha). rewrite Hc. repeat split; assumption.
Qed.

Lemma silent_removeProblems predicate :
  preserves (lifted (silent said asked)) (in_player (removeProblems predicate)).
Proof. unfold removeProblems. live_pres leaf. Qed.

Lemma silent_clear (timeout : option handle) :
  preserves (lifted (silent said asked))
    (match timeout with
     | Some t => in_player (effect (clearTimeout t))
     | None => mret tt
     end).
Proof. unfold effect. live_pres leaf. Qed.

Lemma silent_requestTopics_begin force :
  preserves (lifted (silent said asked)) (requestTopics_begin force).
Proof.
  intros l Hl. unfold requestTopics_begin.
  pose proof (silent_removeProblems (String.prefix "requestTopics:") l Hl) as H1.
  rewrite run_bind.
  destruct (in_player (removeProblems (String.prefix "requestTopics:")) l) as [[[]|e] l1];
    [|exact H1]. cbn [snd] in H1. rewrite bind_get.
  pose proof (silent_clear (_requestTopicsTimeout (player l1)) l1 H1) as H2.
  rewrite run_bind.
  destruct ((match _requestTopicsTimeout (player l1) with
             | Some t => in_player (effect (clearTimeout t))
             | None => mret tt
             end) l1) as [[[]|e] l2]; [|exact H2].
  cbn [snd] in H2. destruct H1 as (Hc & _). rewrite Hc.
  destruct (_rosClient (player l1)); exact H2.
Qed.

Lemma silent_step e : preserves (lifted (silent said asked)) (step e).
Proof.
  destruct e; cbn [step]; unfold detached.
  5:{ apply preserves_try_catch; [apply silent_open | intros ?; unfold call; live_pres leaf]. }
  5:{ apply preserves_try_catch; [|intros ?; unfold call; live_pres leaf].
      apply preserves_bind; [apply silent_on_connection | intros ?; apply preserves_ret]. }
  7:{ apply preserves_try_catch; [|intros ?; unfold call; live_pres leaf].
      apply preserves_bind; [apply silent_requestTopics_begin | intros ?; apply preserves_ret]. }
  all: unfold_live; live_pres leaf.
Qed.

Lemma silent_run events l :
  lifted (silent said asked) l -> lifted (silent said asked) (run events l).
Proof.
  revert l. induction events as [|e events IH]; intros l Hl; [exact Hl|].
  cbn [run fold_left]. change (fold_left _ events ?x) with (run events x).
  apply IH, silent_step, Hl.
Qed.

End silent.

(** X14: after [close()], the live engine is silent: whatever happens
    then (calls of the contract, messages, timers, connection events,
    a topic list or a node graph still arriving), the listener is not
    called again, no connection is opened and the server is not asked
    for its topics again. *)
Theorem closed_engine_is_silent (events : list Event) (l : Live) :
  _closed (player l) = true ->
  _closed (player (run events l)) = true /\
  heard (player (run events l)) = heard (player l) /\
  List.filter reaches_out (calls (run events l)) = List.filter reaches_out (calls l).
Proof.
  intros Hc.
  apply (silent_run (heard (player l)) (List.filter reaches_out (calls l)) events l).
  repeat split. exact Hc.
Qed.

Lemma closed_engine_is_silent_witness :
  _closed (player (run LinkEpisodes.after_close LinkEpisodes.closed_link)) = true /\
  heard (player (run LinkEpisodes.after_close LinkEpisodes.closed_link))
  = heard (player LinkEpisodes.closed_link) /\
  List.filter reaches_out (calls (run LinkEpisodes.after_close LinkEpisodes.closed_link))
  = List.filter reaches_out (calls LinkEpisodes.closed_link).
Proof.
  apply (closed_engine_is_silent LinkEpisodes.after_close LinkEpisodes.closed_link).
  reflexivity.
Defined.

(** *** The topic list *)
Section topics.
Variable parseMessageDefinition : string -> bool -> outcome handle.
Variable bagConnectionsToDatatypes : list (string * string) -> bool -> outcome handle.
Variables (ros2 : bool) (types definitions : list string).

Local Abbreviation collect_from := (collect parseMessageDefinition ros2 types definitions).

Lemma collect_grows (names : list string) (i : nat) (acc c : Collected) :
  collect_from i names acc = Normal c ->
  (forall t, In t (c_topics acc) -> In t (c_topics c)) /\
  (forall n, In n (c_topicsMissingDatatypes acc) -> In n (c_topicsMissingDatatypes c)).
Proof.
  revert i acc. induction names as [|n names IH]; intros i acc; cbn [collect].
  - intros [= <-]. auto.
  - destruct (types !! i) as [type|]; [destruct (definitions !! i) as [def|]|];
      [destruct (parseMessageDefinition def ros2); [|discriminate]|..];
      intros E; apply IH in E as [H1 H2]; cbn in H1, H2; split; intros x Hx;
      first [apply H1 | apply H2]; rewrite ?in_app_iff; auto.
Qed.

Lemma collect_readers (names : list string) (i : nat) (acc c : Collected) :
  collect_from i names acc = Normal c ->
  (forall t, In t (c_topics acc) -> is_Some (c_messageReaders acc !! datatype t)) ->
  forall t, In t (c_topics c) -> is_Some (c_messageReaders c !! datatype t).
Proof.
  revert i acc. induction names as [|n names IH]; intros i acc; cbn [collect].
  - intros [= <-]. auto.
  - destruct (types !! i) as [type|]; [destruct (definitions !! i) as [def|]|];
      [destruct (parseMessageDefinition def ros2); [|discriminate]|..];
      intros E Hacc; apply (IH _ _ E); cbn; try exact Hacc.
    intros t [Ht | [<- | []]]%in_app_iff; cbn.
    + specialize (Hacc t Ht).
      destruct (c_messageReaders acc !! type) eqn:Er; [exact Hacc|].
      rewrite lookup_insert. destruct (decide (type = datatype t)); [eauto | exact Hacc].
    + destruct (c_messageReaders acc !! type) eqn:Er; [rewrite Er; eauto|].
      rewrite lookup_insert_eq. eauto.
Qed.

Lemma collect_places (names : list string) (i : nat) (acc c : Collected) :
  collect_from i names acc = Normal c ->
  forall k topicName, names !! k = Some topicName ->
    match types !! (i + k)%nat, definitions !! (i + k)%nat with
    | Some type, Some _ => In (mkTopic topicName type) (c_topics c)
    | _, _ => In topicName (c_topicsMissingDatatypes c)
    end.
Proof.
  revert i acc. induction names as [|n names IH]; intros i acc; cbn [collect];
    [intros _ k ? Hk; rewrite lookup_nil in Hk; discriminate|].
  intros E [|k] topicName Hk.
  - cbn in Hk. injection Hk as ->. rewrite Nat.add_0_r.
    destruct (types !! i) as [type|]; [destruct (definitions !! i) as [def|]|];
      [destruct (parseMessageDefinition def ros2); [|discriminate]|..];
      apply collect_grows in E as [H1 H2]; first [apply H1 | apply H2]; cbn;
      apply in_app_iff; right; left; reflexivity.
  - cbn in Hk. replace (i + S k)%nat with (S i + k)%nat by lia.
    destruct (types !! i) as [type|]; [destruct (definitions !! i) as [def|]|];
      [destruct (parseMessageDefinition def ros2); [|discriminate]|..];
      exact (IH _ _ E k topicName Hk).
Qed.

Lemma collect_count (names : list string) (i : nat) (acc c : Collected) :
  collect_from i names acc = Normal c ->
  (length (c_topics c) + length (c_topicsMissingDatatypes c)
   = length (c_topics acc) + length (c_topicsMissingDatatypes acc) + length names)%nat.
Proof.
  revert i acc. induction names as [|n names IH]; intros i acc; cbn [collect].
  - intros [= <-]. cbn. lia.
  - destruct (types !! i) as [type|]; [destruct (definitions !! i) as [def|]|];
      [destruct (parseMessageDefinition def ros2); [|discriminate]|..];
      intros E; apply IH in E; cbn in E; rewrite ?length_app in E; cbn in *; lia.
Qed.

End topics.

(** X15: when the server's topic list has been gathered, every topic
    listed has a message reader for its datatype; a topic is listed if
    the server gave both its type and its definition and is reported as
    missing otherwise; none is lost. *)
Theorem listed_topics_can_be_read (parseMessageDefinition : string -> bool -> outcome handle)
    (ros2 : bool) (result : TopicsResult) (c : Collected) :
  collect parseMessageDefinition ros2 (res_types result) (typedefs_full_text result) 0
    (res_topics result) nothing_collected = Normal c ->
  (forall t, In t (c_topics c) -> is_Some (c_messageReaders c !! datatype t)) /\
  (forall k topicName, res_topics result !! k = Some topicName ->
     match res_types result !! k, typedefs_full_text result !! k with
     | Some type, Some _ => In (mkTopic topicName type) (c_topics c)
     | _, _ => In topicName (c_topicsMissingDatatypes c)
     end) /\
  (length (c_topics c) + length (c_topicsMissingDatatypes c)
   = length (res_topics result))%nat.
Proof.
  intros E. split; [|split].
  - apply (collect_readers _ _ _ _ _ _ _ _ E). intros t [].
  - intros k topicName Hk. exact (collect_places _ _ _ _ _ _ _ _ E k topicName Hk).
  - apply collect_count in E. exact E.
Qed.

Lemma listed_topics_can_be_read_witness :
  (forall t, In t (c_topics LinkEpisodes.gathered) ->
             is_Some (c_messageReaders LinkEpisodes.gathered !! datatype t)) /\
  (forall k topicName, res_topics LinkEpisodes.server_topics !! k = Some topicName ->
     match res_types LinkEpisodes.server_topics !! k,
           typedefs_full_text LinkEpisodes.server_topics !! k with
     | Some type, Some _ => In (mkTopic topicName type) (c_topics LinkEpisodes.gathered)
     | _, _ => In topicName (c_topicsMissingDatatypes LinkEpisodes.gathered)
     end) /\
  (length (c_topics LinkEpisodes.gathered)
   + length (c_topicsMissingDatatypes LinkEpisodes.gathered)
   = length (res_topics LinkEpisodes.server_topics))%nat.
Proof.
  apply (listed_topics_can_be_read LinkEpisodes.parse false LinkEpisodes.server_topics).
  vm_compute. reflexivity.
Defined.

(** *** A refresh of the topic list *)

Lemma bind_Normal_inv {S A B} (m : Js S A) (k : A -> Js S B) (s s' : S) (b : B) :
  (m ≫= k) s = (Normal b, s') ->
  exists a s1, m s = (Normal a, s1) /\ k a s1 = (Normal b, s').
Proof.
  rewrite run_bind. destruct (m s) as [[a|e] s1]; [eauto | discriminate].
Qed.

Lemma in_player_inv {A} (m : Js Player A) (l l1 : Live) (o : outcome A) :
  in_player m l = (o, l1) -> m (player l) = (o, player l1) /\ calls l1 = calls l.
Proof.
  unfold in_player. destruct (m (player l)) as [o' p]. intros [= <- <-]. auto.
Qed.

Lemma In_insert_by_name (x t : Topic) (l : list Topic) :
  In x (insert_by_name t l) <-> x = t \/ In x l.
Proof.
  induction l as [|u l IH]; cbn; [intuition|].
  destruct (String.leb (name t) (name u)); cbn; [intuition|]. rewrite IH. intuition.
Qed.

Lemma In_sortBy_name (x : Topic) (l : list Topic) : In x (sortBy_name l) <-> In x l.
Proof.
  induction l as [|t l IH]; cbn; [reflexivity|].
  rewrite In_insert_by_name, IH. intuition.
Qed.

Section linked.
Variables (client : handle) (R : list SubscribePayload).

(** Connected, open, with [R] the subscriptions asked for. *)
Definition linked (p : Player) : Prop :=
  _rosClient p = Some client /\ _closed p = false /\ _requestedSubscriptions p = R.

Ltac leaf := unfold linked in *; cbn; assumption.

Lemma linked_effect e : preserves linked (effect e).
Proof. unfold effect. live_pres leaf. Qed.

Lemma linked_addProblem id p : preserves linked (addProblem id p).
Proof. unfold addProblem. live_pres leaf. Qed.

Lemma linked_removeProblem id : preserves linked (removeProblem id).
Proof. unfold removeProblem. live_pres leaf. Qed.

Hint Resolve linked_effect linked_addProblem linked_removeProblem : pres.

Lemma linked_in_player (m : Js Player unit) (l l1 : Live) (o : outcome unit) :
  preserves linked m -> in_player m l = (o, l1) -> linked (player l) -> linked (player l1).
Proof.
  intros Hm E Hl. apply in_player_inv in E as [E _].
  specialize (Hm (player l) Hl). rewrite E in Hm. exact Hm.
Qed.

(** The state updates of a refresh, from the problems on. *)
Lemma refresh_block (bagConnectionsToDatatypes : list (string * string) -> bool -> outcome handle)
    (b1 b2 ros2 : bool) (problem : PlayerProblem) (c : Collected) (p p' : Player) :
  linked p ->
  (forall t, In t (c_topics c) -> is_Some (c_messageReaders c !! datatype t)) ->
  (when b1 (addProblem "requestTopics:missing-types" problem);;
   when b2 (effect (metrics metrics_initialized));;
   modify (set_providerTopics (Some (sortBy_name (c_topics c))));;
   datatypes ← lift (bagConnectionsToDatatypes (c_datatypeDescriptions c) ros2);
   modify (set_providerDatatypes (Some datatypes));;
   modify (set_messageReadersByDatatype (c_messageReaders c));;
   s ← get;
   setSubscriptions (_requestedSubscriptions s)) p = (Normal tt, p') ->
  forall t, JsMap.has t (_topicSubscriptions p') = requested R t && offered p' t.
Proof.
  intros Hp Hreaders Hrun.
  apply bind_Normal_inv in Hrun as ([] & pa & Ea & Hrun).
  assert (Hpa : linked pa).
  { pose proof (preserves_when linked b1 _
                  (linked_addProblem "requestTopics:missing-types" problem) p Hp) as H.
    rewrite Ea in H. exact H. }
  apply bind_Normal_inv in Hrun as ([] & pb & Eb & Hrun).
  assert (Hpb : linked pb).
  { pose proof (preserves_when linked b2 _ (linked_effect (metrics metrics_initialized)) pa Hpa)
      as H. rewrite Eb in H. exact H. }
  rewrite bind_modify in Hrun.
  apply bind_Normal_inv in Hrun as (d & pc & Ec & Hrun).
  unfold lift in Ec. injection Ec as _ <-.
  rewrite !bind_modify, bind_get in Hrun.
  set (s_upd := set_messageReadersByDatatype _ _) in Hrun.
  destruct Hpb as (Hc & Hcl & HR).
  change (_requestedSubscriptions s_upd) with (_requestedSubscriptions pb) in Hrun.
  rewrite HR in Hrun.
  destruct (LiveFacts.setSubscriptions_spec R client s_upd Hc Hcl) as (s' & E & C & Hhas).
  rewrite E in Hrun. injection Hrun as <-. intros t. rewrite Hhas.
  assert (Hoff : offered s' t = offered s_upd t).
  { unfold offered. unfold LiveFacts.catalogue in C. injection C as -> _. reflexivity. }
  rewrite Hoff. destruct (offered s_upd t) eqn:Ho; [|rewrite andb_false_r; reflexivity].
  assert (Htopics : _providerTopics s_upd = Some (sortBy_name (c_topics c))) by reflexivity.
  assert (Hrd : _messageReadersByDatatype s_upd = c_messageReaders c) by reflexivity.
  assert (Hread : readable s_upd t = true).
  { unfold readable. unfold offered in Ho. rewrite Htopics in Ho |- *. rewrite Hrd.
    cbn [default from_option id] in Ho |- *.
    destruct (List.find _ (sortBy_name (c_topics c))) as [found|] eqn:Ef.
    - apply List.find_some in Ef as [Hin _]. apply (proj1 (In_sortBy_name _ _)) in Hin.
      destruct (Hreaders found Hin) as [r ->]. reflexivity.
    - apply existsb_exists in Ho as (x & Hx & Hname).
      apply (List.find_none _ _ Ef) in Hx. congruence. }
  rewrite Hread, orb_true_r, !andb_true_r. reflexivity.
Qed.

End linked.

(** X16: when a new topic list has arrived and the engine has taken it
    over (because it changed, or on a reconnect), a connected engine is
    subscribed to exactly the topics that were asked for ([/clock]
    always is) and that the server now lists: every listed topic has a
    reader, so none is left out, and subscriptions to topics that
    disappeared are dropped. *)
Theorem refresh_subscribes_what_is_listed
    (parseMessageDefinition : string -> bool -> outcome handle)
    (bagConnectionsToDatatypes : list (string * string) -> bool -> outcome handle)
    (f : TopicsFrame) (result : TopicsResult) (client : handle) (l l' : Live) (t : string) :
  _rosClient (player l) = Some client ->
  _closed (player l) = false ->
  topics_arrived parseMessageDefinition bagConnectionsToDatatypes f result l
    = (Normal true, l') ->
  JsMap.has t (_topicSubscriptions (player l'))
  = requested (_requestedSubscriptions (player l)) t && offered (player l') t.
Proof.
  intros Hc Hcl Hrun.
  assert (H0 : linked client (_requestedSubscriptions (player l)) (player l))
    by (repeat split; assumption).
  unfold topics_arrived in Hrun.
  apply bind_Normal_inv in Hrun as ([] & l1 & E1 & Hrun).
  apply (linked_in_player _ _ _ _ _ _ (linked_effect _ _ _) E1) in H0.
  apply bind_Normal_inv in Hrun as ([] & l2 & E2 & Hrun).
  apply (linked_in_player _ _ _ _ _ _ (linked_removeProblem _ _ _) E2) in H0.
  lazy zeta in Hrun.
  apply bind_Normal_inv in Hrun as ([] & l3 & E3 & Hrun).
  assert (H3 : linked client (_requestedSubscriptions (player l)) (player l3)).
  { refine (linked_in_player _ _ _ _ _ _ _ E3 H0).
    destruct (existsb _ (res_types result));
      [apply linked_removeProblem|].
    destruct (existsb _ (res_types result));
      [apply linked_removeProblem | apply linked_addProblem]. }
  apply bind_Normal_inv in Hrun as (c & l3' & Ec & Hrun).
  unfold lift in Ec. injection Ec as Ec <-.
  rewrite bind_get in Hrun.
  destruct (isEqual _ _ && negb (forceUpdate f)); [discriminate|].
  apply bind_Normal_inv in Hrun as ([] & l4 & E4 & Hrun).
  apply in_player_inv in E4 as [E4 _].
  pose proof (collect_readers _ _ _ _ _ _ _ _ Ec (fun t (H : In t []) => match H with end))
    as Hreaders.
  pose proof (refresh_block client _ _ _ _ _ _ c _ _ H3 Hreaders E4 t) as Hhas.
  assert (Hl' : player l' = player l4).
  { rewrite bind_get in Hrun. unfold call in Hrun.
    destruct (_rosClient (player l4)); cbn in Hrun; injection Hrun as <-; reflexivity. }
  rewrite Hl'. exact Hhas.
Qed.

Lemma refresh_subscribes_what_is_listed_witness :
  JsMap.has "/a"
    (_topicSubscriptions
       (player (snd (topics_arrived LinkEpisodes.parse LinkEpisodes.convert
                       LinkEpisodes.pending LinkEpisodes.server_topics LinkEpisodes.link))))
  = requested (_requestedSubscriptions (player LinkEpisodes.link)) "/a"
    && offered
         (player (snd (topics_arrived LinkEpisodes.parse LinkEpisodes.convert
                         LinkEpisodes.pending LinkEpisodes.server_topics LinkEpisodes.link)))
         "/a".
Proof.
  apply (refresh_subscribes_what_is_listed LinkEpisodes.parse LinkEpisodes.convert
           LinkEpisodes.pending LinkEpisodes.server_topics 1 LinkEpisodes.link).
  - reflexivity.
  - reflexivity.
  - vm_compute. reflexivity.
Defined.

End ConnectionFacts.

(** ** RosbridgePlayer: losing the connection, failed requests, the graph *)
Module LinkFacts.
Import RosbridgePlayer RosbridgeConnection JsFacts JsMapFacts LiveConduct LinkConduct Playback.
Import ConnectionFacts.


Lemma delete_all {V} (kvs m : JsMap.t V) :
  (forall kv, In kv m -> In (fst kv) (List.map fst kvs)) ->
  fold_left (fun m kv => JsMap.delete (fst kv) m) kvs m = [].
Proof.
  revert m. induction kvs as [|kv kvs IH]; intros m Hm; cbn [fold_left].
  - destruct m as [|x m]; [reflexivity|]. destruct (Hm x (or_introl eq_refl)).
  - apply IH. intros x Hx. unfold JsMap.delete in Hx.
    apply List.filter_In in Hx as [Hx Hne]. destruct (Hm x Hx) as [E|H]; [|exact H].
    rewrite E, String.eqb_refl in Hne. discriminate.
Qed.

Lemma unsubscribe_all (kvs : JsMap.t string) (s : Player) :
  exists s',
    forEach
      (fun kv =>
         effect (topic_unsubscribe (fst kv));;
         modify (fun s => set_topicSubscriptions
                            (JsMap.delete (fst kv) (_topicSubscriptions s)) s))
      kvs s = (Normal tt, s') /\
    _topicSubscriptions s'
    = fold_left (fun m kv => JsMap.delete (fst kv) m) kvs (_topicSubscriptions s) /\
    effects s' = effects s ++ List.map (fun kv => topic_unsubscribe (fst kv)) kvs /\
    (_url s', _rosClient s', _presence s', _problems s', next_timer s')
    = (_url s, _rosClient s, _presence s, _problems s, next_timer s).
Proof.
  revert s. induction kvs as [|kv kvs IH]; intros s.
  - exists s. cbn. rewrite app_nil_r. repeat split.
  - cbn [forEach]. rewrite run_bind.
    set (s1 := set_topicSubscriptions
                 (JsMap.delete (fst kv) (_topicSubscriptions s))
                 (set_effects (effects s ++ [topic_unsubscribe (fst kv)]) s)).
    change ((effect (topic_unsubscribe (fst kv));;
             modify (fun s => set_topicSubscriptions
                                (JsMap.delete (fst kv) (_topicSubscriptions s)) s)) s)
      with (@Normal unit tt, s1).
    destruct (IH s1) as (s' & E & H1 & H2 & H3).
    exists s'. split; [exact E|]. split; [exact H1|].
    split; [rewrite H2; cbn; rewrite <- app_assoc; reflexivity | exact H3].
Qed.

Section lost.
Variable kvs : JsMap.t string.

(** The engine after its connection went down. *)
Definition disconnected (p : Player) : Prop :=
  _topicSubscriptions p = [] /\ _rosClient p = None /\ _presence p = RECONNECTING /\
  JsMap.has "rosbridge:connection-failed" (_problems p) = true /\
  Forall (fun kv => In (topic_unsubscribe (fst kv)) (effects p)) kvs.

Ltac leaf :=
  unfold disconnected in *; cbn;
  match goal with
  | H : _ /\ _ /\ _ /\ _ /\ _ |- _ =>
      destruct H as (? & ? & ? & ? & ?); repeat split; try assumption;
      eapply Forall_impl; [eassumption|]; cbn; intros; apply in_or_app; auto
  end.

Lemma disconnected_emitState now : preserves disconnected (_emitState now).
Proof. unfold _emitState, emitState_fn, effect. live_pres leaf. Qed.

Lemma disconnected_fresh_timer : preserves disconnected fresh_timer.
Proof. unfold fresh_timer. live_pres leaf. Qed.

End lost.


Lemma emitState_runs (now : Time) (s : Player) :
  exists s', _emitState now s = (Normal tt, s').
Proof.
  pose proof (EngineClaims.rosbridge_emitState_returns now s) as H.
  destruct (_emitState now s) as [o s']. cbn in H. subst o. eauto.
Qed.

(** The body of the [close] handler, on the engine. *)
Lemma close_handler (client : handle) (now : Time) (p : Player) :
  exists p',
    (modify (set_presence RECONNECTING);;
     s ← get;
     match _requestTopicsTimeout s with
     | Some t => effect (clearTimeout t)
     | None => mret tt
     end;;
     forEach
       (fun kv =>
          effect (topic_unsubscribe (fst kv));;
          modify (fun s => set_topicSubscriptions
                             (JsMap.delete (fst kv) (_topicSubscriptions s)) s))
       (_topicSubscriptions s);;
     effect (ros_close client);;
     modify (set_rosClient None);;
     addProblem "rosbridge:connection-failed"
       {| severity := severity_error; problem_message := "Connection failed";
          tip := Some ("Check that the rosbridge WebSocket server at " +:+ _url s
                       +:+ " is reachable.");
          error := None |};;
     _emitState now) p = (Normal tt, p') /\
    disconnected (_topicSubscriptions p) p'.
Proof.
  set (kvs := _topicSubscriptions p).
  rewrite bind_modify, bind_get.
  set (p0 := set_presence RECONNECTING p).
  assert (exists p1, (match _requestTopicsTimeout p0 with
                      | Some t => effect (clearTimeout t)
                      | None => mret tt
                      end) p0 = (Normal tt, p1) /\
                     _topicSubscriptions p1 = kvs /\ _presence p1 = RECONNECTING)
    as (p1 & E1 & Hs1 & Hp1).
  { destruct (_requestTopicsTimeout p0); eexists; split; try reflexivity; split; reflexivity. }
  rewrite run_bind, E1.
  change (_topicSubscriptions p0) with kvs.
  destruct (unsubscribe_all kvs p1) as (p2 & E2 & Hs2 & He2 & Hf2).
  rewrite run_bind, E2, LiveFacts.bind_effect. cbv beta. rewrite bind_modify.
  unfold addProblem. rewrite bind_modify.
  match goal with |- context [_emitState now ?x] => set (p3 := x) end.
  assert (H3 : disconnected kvs p3).
  { injection Hf2 as _ _ Hpr _ _. unfold disconnected, p3. cbn -[JsMap.has JsMap.set].
    split; [|split; [reflexivity|split; [congruence|split]]].
    - rewrite Hs2, Hs1. apply delete_all. intros kv Hkv. apply List.in_map, Hkv.
    - rewrite has_set, String.eqb_refl. reflexivity.
    - rewrite He2. apply List.Forall_forall. intros kv Hkv.
      apply in_or_app. left. apply in_or_app. right.
      apply (List.in_map (fun kv => topic_unsubscribe (fst kv))), Hkv. }
  pose proof (disconnected_emitState kvs now p3 H3) as H4.
  destruct (emitState_runs now p3) as (p4 & E4). rewrite E4 in H4 |- *.
  exists p4. split; [reflexivity | exact H4].
Qed.

(** X17: when the connection goes down, the engine unsubscribes from
    every topic and forgets its subscriptions and its client, reports
    RECONNECTING with a connection-failed problem, and schedules a new
    attempt to connect. *)
Theorem connection_loss (client : handle) (now : Time) (l : Live) :
  _topicSubscriptions (player (snd (on_close client now l))) = [] /\
  _rosClient (player (snd (on_close client now l))) = None /\
  _presence (player (snd (on_close client now l))) = RECONNECTING /\
  JsMap.has "rosbridge:connection-failed"
    (_problems (player (snd (on_close client now l)))) = true /\
  Forall (fun kv => In (topic_unsubscribe (fst kv))
                       (effects (player (snd (on_close client now l)))))
    (_topicSubscriptions (player l)) /\
  exists timer, last (calls (snd (on_close client now l))) = Some (setTimeout_open timer).
Proof.
  destruct (close_handler client now (player l)) as (p & Eblock & Hp).
  assert (E : on_close client now l
              = (Normal tt, mkLive (set_next_timer (next_timer p + 1) p)
                              (calls l ++ [setTimeout_open (next_timer p)]))).
  { unfold on_close. rewrite run_bind. unfold in_player at 1. rewrite Eblock. reflexivity. }
  rewrite E. cbn [snd player calls]. destruct Hp as (H1 & H2 & H3 & H4 & H5).
  repeat (split; [assumption|]). eexists. apply last_snoc.
Qed.

(** *** A failed request for the topics *)
Section kept.
Variables (problems_ : JsMap.t PlayerProblem) (cleared : Effect)
  (topics_ : option (list Topic)) (subscriptions_ : JsMap.t string).

(** The problems and the topic list stay as they are, and [cleared] has
    been done. *)
Definition kept (p : Player) : Prop :=
  _problems p = problems_ /\ _providerTopics p = topics_ /\
  _topicSubscriptions p = subscriptions_ /\ In cleared (effects p).

Ltac leaf :=
  unfold kept in *; cbn;
  match goal with
  | H : _ /\ _ /\ _ /\ _ |- _ =>
      destruct H as (? & ? & ? & ?); repeat split; try assumption;
      apply in_or_app; auto
  end.

Lemma kept_emitState now : preserves kept (_emitState now).
Proof. unfold _emitState, emitState_fn, effect. live_pres leaf. Qed.

End kept.

(** X18: when the request for the server's topics fails, the engine
    records the problem [requestTopics:error] with the error, withdraws
    the stall warning and its timer, keeps the topic list and the
    subscriptions it had, and asks again after its timer: the timer is
    set and remembered in [_requestTopicsTimeout]. *)
Theorem failed_topics_request
    (parseMessageDefinition : string -> bool -> outcome handle)
    (bagConnectionsToDatatypes : list (string * string) -> bool -> outcome handle)
    (f : TopicsFrame) (e : string) (now : Time) (l : Live) :
  exists timer l',
    requestTopics_settled parseMessageDefinition bagConnectionsToDatatypes f (Throw e) now l
    = (Normal false, l') /\
    JsMap.get "requestTopics:error" (_problems (player l'))
    = Some {| severity := severity_error;
              problem_message := "Failed to fetch topics from rosbridge";
              tip := None; error := Some e |} /\
    JsMap.has "topicsAndRawTypesTimeout" (_problems (player l')) = false /\
    In (clearTimeout (topicsStallWarningTimeout f)) (effects (player l')) /\
    _providerTopics (player l') = _providerTopics (player l) /\
    _topicSubscriptions (player l') = _topicSubscriptions (player l) /\
    _requestTopicsTimeout (player l') = Some timer /\
    last (calls l') = Some (setTimeout_requestTopics timer).
Proof.
  unfold requestTopics_settled. rewrite run_bind.
  set (problem := {| severity := severity_error;
                     problem_message := "Failed to fetch topics from rosbridge";
                     tip := None; error := Some e |}).
  set (p1 := set_problems
               (JsMap.set "requestTopics:error" problem
                  (JsMap.delete "topicsAndRawTypesTimeout" (_problems (player l))))
               (set_effects (effects (player l) ++ [clearTimeout (topicsStallWarningTimeout f)])
                  (player l))).
  match goal with
  | |- context [try_catch ?m ?h l] =>
      change (try_catch m h l) with (@Normal bool false, mkLive p1 (calls l))
  end.
  cbv iota beta. unfold requestTopics_finally. rewrite run_bind, run_bind.
  unfold in_player at 1. cbn [player calls].
  assert (H1 : kept (_problems p1) (clearTimeout (topicsStallWarningTimeout f))
                 (_providerTopics (player l)) (_topicSubscriptions (player l)) p1).
  { repeat split. cbn. apply in_or_app. right. left. reflexivity. }
  apply (kept_emitState _ _ _ _ now) in H1.
  destruct (emitState_runs now p1) as (p2 & E2). rewrite E2 in H1 |- *.
  cbn [snd] in H1. destruct H1 as (Hp & Ht & Hs & He).
  exists (next_timer p2). eexists. split; [reflexivity|].
  cbn [player calls snd]. cbn -[JsMap.get JsMap.has JsMap.set JsMap.delete].
  rewrite Hp. cbn -[JsMap.get JsMap.has JsMap.set JsMap.delete].
  split; [apply get_set|]. split; [rewrite has_set, has_delete; reflexivity|].
  split; [exact He|]. split; [exact Ht|]. split; [exact Hs|].
  split; [reflexivity | apply last_snoc].
Qed.

(** *** The node graph *)

Lemma addEntry_fold (keys : list string) (m : gmap string (gset string)) (node t n : string) :
  n ∈ default ∅ (fold_left (fun m key => addEntry m key node) keys m !! t)
  <-> n ∈ default (∅ : gset string) (m !! t) \/ (n = node /\ In t keys).
Proof.
  revert m. induction keys as [|key keys IH]; intros m; cbn [fold_left].
  - split; [auto | intros [H | [_ []]]; exact H].
  - rewrite IH. unfold addEntry. rewrite lookup_insert. cbn [In].
    destruct (decide (key = t)) as [E|E]; cbn [default from_option id].
    + rewrite elem_of_union, elem_of_singleton, E. intuition.
    + intuition.
Qed.

(** X19: the details of a node add the node to the publishers of each
    topic it publishes, to the subscribers of each topic it subscribes
    to and to the providers of each of its services; no entry of the
    graph is removed. *)
Theorem node_details_add_the_node (node : string)
    (subscriptions publications services : list string) (output : RosGraph) (t n : string) :
  (n ∈ default ∅ (publishers (nodeDetails node subscriptions publications services output) !! t)
   <-> n ∈ default (∅ : gset string) (publishers output !! t)
       \/ (n = node /\ In t publications)) /\
  (n ∈ default ∅ (subscribers (nodeDetails node subscriptions publications services output) !! t)
   <-> n ∈ default (∅ : gset string) (subscribers output !! t)
       \/ (n = node /\ In t subscriptions)) /\
  (n ∈ default ∅ (graph_services (nodeDetails node subscriptions publications services output) !! t)
   <-> n ∈ default (∅ : gset string) (graph_services output !! t)
       \/ (n = node /\ In t services)).
Proof. unfold nodeDetails. cbn. repeat split; apply addEntry_fold. Qed.

End LinkFacts.

(** ** McapReader: faults, truncated files, chunks *)
Module ReaderConduct.
Import Mcap Decoding Faults JsFacts ReaderFacts.

Section reader.
Context `{Parse}.

(** *** [doneReading] is the business of [nextRecord] alone *)
Section done.
Variable b : bool.

Definition done_is (r : McapReader) : Prop := doneReading r = b.

Ltac leaf := unfold done_is in *; cbn; assumption.

Lemma done_read_trailing_magic record : preserves done_is (read_trailing_magic record).
Proof. reader_unfold. RandomAccessFacts.pres leaf. Qed.
Hint Resolve done_read_trailing_magic : pres.

Lemma done_read_chunk_records continue_ buffer offset :
  preserves done_is continue_ ->
  preserves done_is (read_chunk_records continue_ buffer offset).
Proof. intros Hc. reader_unfold. RandomAccessFacts.pres leaf. Qed.

Lemma done_read_chunk continue_ compression decompressedSize data :
  preserves done_is continue_ ->
  preserves done_is (read_chunk continue_ compression decompressedSize data).
Proof.
  intros Hc. unfold read_chunk.
  apply preserves_bind; [apply preserves_get | intros r].
  apply preserves_bind; [RandomAccessFacts.pres leaf | intros buffer].
  apply done_read_chunk_records, Hc.
Qed.

Lemma done_read_records rounds : preserves done_is (read_records rounds).
Proof.
  induction rounds as [|rounds IH]; cbn [read_records]; [apply preserves_ret|].
  apply preserves_bind; [apply preserves_get | intros r].
  apply preserves_bind; [apply preserves_lift | intros [record usedBytes|]];
    [|reader_unfold; RandomAccessFacts.pres leaf].
  apply preserves_bind.
  { unfold storage_consume. RandomAccessFacts.pres leaf. }
  intros _.
  destruct record as [body|body|body|body|compression decompressedSize data|body].
  1-4: unfold suspend; RandomAccessFacts.pres leaf.
  - destruct (includeChunks r); [unfold suspend; RandomAccessFacts.pres leaf|].
    apply done_read_chunk, IH.
  - apply done_read_trailing_magic.
Qed.

Lemma done_generator_body rounds r0 : preserves done_is (generator_body rounds r0).
Proof.
  unfold generator_body. destruct (generator r0) as [| |record| | |].
  - unfold read_leading_magic.
    apply preserves_bind; [apply preserves_get | intros r].
    apply preserves_bind; [apply preserves_lift | intros [u usedBytes|]];
      [|reader_unfold; RandomAccessFacts.pres leaf].
    apply preserves_bind.
    { unfold storage_consume. RandomAccessFacts.pres leaf. }
    intros _. apply done_read_records.
  - apply done_read_records.
  - destruct record; try apply done_read_records.
    apply done_read_chunk, done_read_records.
  - apply done_read_chunk_records, done_read_records.
  - apply done_read_trailing_magic.
  - apply preserves_ret.
Qed.

End done.

(** X20: after a decode failure the reader is not yet done: [done()]
    is still false and [append] is still accepted. The next
    [nextRecord] returns [undefined] and only then turns [done()] true;
    from there [append] throws. *)
Theorem after_a_failure (r r' : McapReader) (e : string) :
  nextRecord r = (Throw e, r') ->
  done r' = false /\
  (forall data, fst (append data r') = Normal tt) /\
  nextRecord r' = (Normal (returns None), set_doneReading true r') /\
  (forall data, fst (append data (set_doneReading true r')) = Throw "Already done reading").
Proof.
  intros Hthrow.
  assert (Hg : generator r' = Completed) by (exact (nextRecord_throw_completed r r' e Hthrow)).
  assert (Hd : doneReading r' = false).
  { revert Hthrow. unfold nextRecord, generator_next. rewrite bind_get.
    destruct (doneReading r) eqn:Hd; [discriminate|].
    rewrite run_bind, bind_get. unfold try_catch.
    pose proof (done_generator_body false (S (S (length (storage r)))) r r Hd) as Hb.
    destruct (generator_body _ r r) as [[[res|]|e'] r1]; cbn [snd] in Hb.
    - destruct res; discriminate.
    - discriminate.
    - cbn. intros [= _ <-]. exact Hb. }
  split; [exact Hd|]. split; [|split].
  - intros data. unfold append. rewrite bind_get, Hd. reflexivity.
  - unfold nextRecord, generator_next, generator_body. rewrite bind_get, Hd.
    rewrite run_bind, bind_get. unfold try_catch. rewrite Hg. reflexivity.
  - intros data. reflexivity.
Qed.

(** *** Chunks and records the reader cannot get through *)

Lemma leftover_throws continue_ buffer offset (r : McapReader) :
  parseRecord buffer offset = Normal incomplete ->
  offset <> length buffer ->
  exists e, read_chunk_records continue_ buffer offset r = (Throw e, r).
Proof.
  intros Hp Hn. unfold read_chunk_records. rewrite run_bind. unfold lift at 1. rewrite Hp.
  destruct (Nat.eqb_spec offset (length buffer)); [contradiction|]. cbn. eauto.
Qed.

Lemma handler_throws continue_ compression decompressedSize data decompress e
    (r : McapReader) :
  compression <> "" ->
  decompressHandlers r !! compression = Some decompress ->
  decompress data decompressedSize = Throw e ->
  read_chunk continue_ compression decompressedSize data r = (Throw e, r).
Proof.
  intros Hc Hh He. unfold read_chunk. rewrite bind_get.
  destruct (String.eqb_spec compression ""); [contradiction|]. cbn [negb].
  rewrite Hh, run_bind. unfold lift. rewrite He. reflexivity.
Qed.

Lemma broken_throws (r : McapReader) :
  broken r ->
  exists e r1, generator_body (S (S (length (storage r)))) r r = (Throw e, r1).
Proof.
  intros Hb. unfold generator_body.
  destruct Hb as [e Hg Hp | buffer off used e Hg Hp | buffer off used Hg Hp Hn
                 | comp size data buffer Hg Hd Hp Hn
                 | comp size data k buffer Hg Hi Hr Hd Hp Hn
                 | comp size data h e Hg Hne Hh He
                 | comp size data k h e Hg Hi Hr Hne Hh He]; rewrite Hg.
  - cbn [read_records]. rewrite bind_get, run_bind. unfold lift. rewrite Hp. eauto.
  - unfold read_chunk_records. rewrite run_bind. unfold lift. rewrite Hp. eauto.
  - destruct (leftover_throws (read_records (S (S (length (storage r))))) buffer
                (off + used) r Hp Hn) as [e He]. eauto.
  - rewrite (decompressed_read_chunk _ _ _ _ _ _ Hd).
    destruct (leftover_throws (read_records (S (S (length (storage r))))) buffer 0 r Hp)
      as [e He]; [destruct buffer; [contradiction | discriminate]|]. eauto.
  - cbn [read_records]. unfold storage_consume. js_unfold. rewrite Hr. cbn. rewrite Hi.
    match goal with
    | |- context [read_chunk ?c comp size data ?r'] =>
        rewrite (decompressed_read_chunk c comp size data buffer r' Hd);
        destruct (leftover_throws c buffer 0 r' Hp) as [e He];
          [destruct buffer; [contradiction | discriminate]|];
        rewrite He
    end. eauto.
  - rewrite (handler_throws _ comp size data h e r Hne Hh He). eauto.
  - cbn [read_records]. unfold storage_consume. js_unfold. rewrite Hr. cbn. rewrite Hi.
    match goal with
    | |- context [read_chunk ?c comp size data ?r'] =>
        rewrite (handler_throws c comp size data h e r' Hne Hh He)
    end. eauto.
Qed.

(** X21: besides the corruptions of a file's frame, the reader fails
    for good on a record its parser rejects (at top level or inside a
    chunk), on a chunk whose payload does not end with its last record,
    and on a chunk whose decompression handler throws: [nextRecord]
    throws, and no later call returns a record. *)
Theorem broken_chunk_is_fatal (r : McapReader) :
  doneReading r = false ->
  broken r ->
  exists e r',
    nextRecord r = (Throw e, r') /\
    forall actions, records_of actions r' = [].
Proof.
  intros Hdone Hbroken.
  destruct (broken_throws r Hbroken) as (e & r1 & Hthrow).
  exists e, (set_generator Completed r1). split.
  - apply nextRecord_throws; assumption.
  - intros actions. apply completed_forever. destruct r1; reflexivity.
Qed.

(** *** Truncated files, and files read with and without their chunks *)
Section files.
Variables (MAGIC : list byte) (wire : McapRecord -> list byte -> Prop).
Hypothesis resumable : Resumable MAGIC wire.
Variables (inc : bool) (handlers : gmap string (list byte -> Z -> outcome (list byte))).
Variables (footerBody footerBytes : list byte).
Hypothesis footer_wire : wire (Footer footerBody) footerBytes.

Local Abbreviation reader_at := (reader inc handlers).
Local Abbreviation ok_at := (ok wire inc handlers).
Local Abbreviation ahead_at := (ahead MAGIC footerBytes).
Local Abbreviation pending_at := (pending footerBody).
Local Abbreviation gen_at := (gen_of footerBody).

Lemma not_done_ahead (pos : Pos) (st rest : list byte) :
  st ++ rest = ahead_at pos -> rest <> [] -> done_of pos = false.
Proof.
  destruct pos; try reflexivity. cbn. intros Heq Hr.
  apply app_eq_nil in Heq as [_ ->]. contradiction.
Qed.

Lemma feed_partial (fragments : list (list byte)) :
  forall pos st calls rest,
    ok_at pos -> st ++ concat fragments ++ rest = ahead_at pos -> rest <> [] ->
    (length (pending_at pos) < calls)%nat ->
    exists outs pos' st',
      feed calls fragments (reader_at st false (gen_at pos))
      = (Normal (returns outs), reader_at st' false (gen_at pos')) /\
      pending_at pos = outs ++ pending_at pos' /\ done_of pos' = false.
Proof.
  induction fragments as [|fragment fragments IH]; intros pos st calls rest Hok Hst Hr Hlen.
  - exists [], pos, st. split; [reflexivity|]. split; [reflexivity|].
    cbn [concat app] in Hst. exact (not_done_ahead pos st rest Hst Hr).
  - cbn [concat] in Hst. rewrite <- app_assoc in Hst.
    assert (Hd : done_of pos = false).
    { apply (not_done_ahead pos st (fragment ++ concat fragments ++ rest) Hst).
      intros E. apply app_eq_nil in E as [_ E]. apply app_eq_nil in E as [_ E].
      contradiction. }
    rewrite app_assoc in Hst.
    destruct (readAll_spec MAGIC wire resumable inc handlers footerBody footerBytes
                footer_wire calls pos (st ++ fragment) (concat fragments ++ rest)
                Hok Hst Hlen)
      as (outs & pos1 & st1 & Hrun & Hok1 & Hst1 & Hp & _).
    assert (Hd1 : done_of pos1 = false).
    { apply (not_done_ahead pos1 st1 (concat fragments ++ rest) Hst1).
      intros E. apply app_eq_nil in E as [_ E]. contradiction. }
    destruct (IH pos1 st1 calls rest Hok1 Hst1 Hr) as (outs' & pos' & st' & Hrun' & Hp' & Hd').
    { rewrite Hp, length_app in Hlen. lia. }
    exists (outs ++ outs'), pos', st'.
    rewrite Hd in Hrun. rewrite Hd1 in Hrun.
    rewrite feed_cons, Hrun, Hrun'. split; [reflexivity|].
    split; [rewrite Hp, Hp', app_assoc; reflexivity | exact Hd'].
Qed.

Lemma pending_nonempty (pos : Pos) : done_of pos = false -> pending_at pos <> [].
Proof.
  destruct pos; cbn; try discriminate; intros _ E;
    repeat (apply app_eq_nil in E as [_ E]); discriminate.
Qed.






End files.

(** X22: a file that stops short (a well-formed file cut anywhere before
    its last byte), fed in any fragments, is not an error: every call
    returns; the records returned are a beginning of the file's records;
    the footer is not among them, and the reader is not done: it waits
    for more bytes. *)
Theorem truncated_file_waits (MAGIC : list byte) (wire : McapRecord -> list byte -> Prop)
    (includeChunks : bool) (handlers : gmap string (list byte -> Z -> outcome (list byte)))
    (footerBody footerBytes : list byte) (items : Items)
    (fragments : list (list byte)) (rest : list byte) (calls : nat) :
  Resumable MAGIC wire ->
  wire (Footer footerBody) footerBytes ->
  well_formed wire includeChunks handlers items ->
  concat fragments ++ rest = file MAGIC items footerBytes ->
  rest <> [] ->
  (length (items_records items) + 1 < calls)%nat ->
  exists outs more r',
    feed calls fragments (new_McapReader includeChunks handlers)
    = (Normal (returns outs), r') /\
    done r' = false /\
    items_records items ++ [Footer footerBody] = outs ++ more /\
    more <> [].
Proof.
  intros Hres Hfooter Hwf Hcat Hrest Hcalls.
  destruct (feed_partial MAGIC wire Hres includeChunks handlers footerBody footerBytes
              Hfooter fragments (PLeading items) [] calls rest Hwf Hcat Hrest)
    as (outs & pos' & st' & Hrun & Hp & Hd).
  { cbn [pending]. rewrite length_app. cbn. lia. }
  exists outs, (pending footerBody pos'), (reader includeChunks handlers st' false
                                             (gen_of footerBody pos')).
  split; [exact Hrun|]. split; [reflexivity|]. split; [exact Hp|].
  apply pending_nonempty, Hd.
Qed.


End reader.

Import Wire Capture.

Lemma after_a_failure_witness :
  done (snd (nextRecord misled)) = false /\
  (forall data, fst (append data (snd (nextRecord misled))) = Normal tt) /\
  nextRecord (snd (nextRecord misled))
  = (Normal (returns None), set_doneReading true (snd (nextRecord misled))) /\
  (forall data, fst (append data (set_doneReading true (snd (nextRecord misled))))
                = Throw "Already done reading").
Proof.
  apply (after_a_failure misled (snd (nextRecord misled)) "Expected MCAP magic").
  vm_compute. reflexivity.
Defined.

Lemma broken_chunk_is_fatal_witness :
  exists e r',
    nextRecord tattered = (Throw e, r') /\
    forall actions, records_of actions r' = [].
Proof.
  apply (broken_chunk_is_fatal tattered).
  - reflexivity.
  - apply (unreadable_record _ "Invalid record type"); vm_compute; reflexivity.
Defined.

Lemma truncated_file_waits_witness :
  exists outs more r',
    feed 8 (bytewise (take 40 chunked_file)) (new_McapReader true ∅)
    = (Normal (returns outs), r') /\
    done r' = false /\
    items_records (chunked_items true) ++ [Footer footer_body] = outs ++ more /\
    more <> [].
Proof.
  apply (truncated_file_waits MCAP_MAGIC wire true ∅ footer_body (encode footer)
           (chunked_items true) (bytewise (take 40 chunked_file)) (drop 40 chunked_file) 8).
  - exact WireFacts.wire_resumable.
  - apply ReaderClaims.wire_capture. cbn; tauto.
  - apply ReaderClaims.chunked_well_formed.
  - vm_compute. reflexivity.
  - vm_compute. discriminate.
  - vm_compute. lia.
Defined.


End ReaderConduct.
